(** * Traffic control core: density estimator, signal state machine,
      coordination engine and control-plane connection handler.

    A shallow embedding of [traffic.py].

    - Python numbers (ints and floats) are rationals.  The density
      calculator and the clock are computed exactly; the timing policy of the
      controller and the trend of the densities are computed as Python does,
      in double precision, each operation rounded to the nearest double (see
      [Float]).
    - A call of [time.time()] is the argument [now] of the operation that
      makes it: an operation is taken to run at one instant.
    - A raised exception is the constructor [Raise] of [result]; the state
      that comes with it is the state as mutated up to the raise.
    - Dicts with string keys are finite maps; the timing dict of a light
      lives in a store, because the constructor keeps the dict of its caller
      and lights built from one dict share it.
    - The handler thread of a connection is a step function on the manager
      and the connection: one step is one [recv] and the processing of its
      data.  [json.loads] is a parameter of the handler.
    - Logging is left out. *)

From Stdlib Require Import ZArith QArith Qminmax Qround Qabs Lqa Lia.
From Stdlib Require Import List String Ascii Strings.Byte.
From stdpp Require Import gmap strings list fin_maps.
Import ListNotations.

Local Open Scope string_scope.
Local Open Scope list_scope.
Local Open Scope Z_scope.
Local Open Scope Q_scope.

(** ** Exceptions and results *)

Inductive exn : Type :=
| KeyError (k : string)
| ZeroDivisionError
| TypeError.

Inductive result (A : Type) : Type :=
| Ok (a : A)
| Raise (e : exn).
Arguments Ok {A} a.
Arguments Raise {A} e.

(** Python's [int(x)] on a float: truncation toward zero. *)
Definition py_int (x : Q) : Z := Z.quot (Qnum x) (Zpos (Qden x)).

(** Python's [a / b] on numbers. *)
Definition py_div (a b : Q) : result Q :=
  if Qeq_bool b 0 then Raise ZeroDivisionError else Ok (a / b).

(** Python's [min(a, b)] and [max(a, b)] return [a] unless [b] is strictly
    smaller (larger). *)
Definition py_min (a b : Q) : Q := if Qlt_le_dec b a then b else a.
Definition py_max (a b : Q) : Q := if Qlt_le_dec a b then b else a.

(** [collections.deque(maxlen=n).append(x)]: nothing is stored when
    [maxlen] is 0; otherwise [x] goes to the right end and, when the deque
    was full, the leftmost element is discarded. *)
Definition deque_append {A : Type} (maxlen : nat) (d : list A) (x : A) : list A :=
  match maxlen with
  | O => d
  | _ => if (maxlen <=? length d)%nat then tail d ++ [x] else d ++ [x]
  end.
Arguments deque_append : simpl never.

(** The last [n] elements of a list, in order. *)
Definition lastn {A : Type} (n : nat) (l : list A) : list A :=
  drop (length l - n) l.

(** ** Python floats

    A float is an IEEE 754 double: a rational [m * 2^e] with [|m| < 2^53]
    and [-1074 <= e <= 971], held here as the rational that it is.  An
    operation on floats returns the double nearest to the exact result and,
    of two that are equally near, the one with the even [m].  Infinities and
    NaN are left out: beyond the largest double a result is rounded as if
    the exponent had no upper bound. *)

Module Float.

(** The integer nearest to [q]; of two that are equally near, the even
    one. *)
Definition rne (q : Q) : Z :=
  let f := Qfloor q in
  match Qcompare (q - inject_Z f) (1 # 2) with
  | Lt => f
  | Gt => (f + 1)%Z
  | Eq => if Z.even f then f else (f + 1)%Z
  end.

(** For [z >= 0], a size in units of [2^-1074]: the exponent of the last
    place of the doubles of that size, counted from -1074.  It is 0 up to
    [2^53], the range in which every multiple of [2^-1074] is a double. *)
Definition ulp_exp (z : Q) : Z := Z.max 0 (Z.log2 (Qfloor z) - 52).

Definition two_1074 : Q := inject_Z (2 ^ 1074).

(** The size [z >= 0] rounded to a whole number of units of the last
    place, as a number of units of [2^-1074]. *)
Definition scaled (z : Q) : Z :=
  (rne (z / inject_Z (2 ^ ulp_exp z)) * 2 ^ ulp_exp z)%Z.

(** The double nearest to [x >= 0]. *)
Definition round_pos (x : Q) : Q :=
  inject_Z (scaled (x * two_1074)) / two_1074.

(** The double nearest to [x]. *)
Definition round (x : Q) : Q :=
  match Qnum x with
  | Z0 => 0
  | Zpos _ => round_pos x
  | Zneg _ => - round_pos (- x)
  end.

(** [x + y], [x - y], [x * y] and [x / y] when one operand is a float, an
    int operand being converted first. *)
Definition add (x y : Q) : Q := round (x + y).
Definition sub (x y : Q) : Q := round (x - y).
Definition mul (x y : Q) : Q := round (x * y).
Definition div (x y : Q) : result Q :=
  if Qeq_bool y 0 then Raise ZeroDivisionError else Ok (round (x / y)).

(** A float literal of the source. *)
Definition literal (x : Q) : Q := round x.

End Float.

(** ** 2. Traffic density calculator *)

Module Density.

Record TrafficDensityCalculator : Type := mkCalc {
  window_size : nat;
  congestion_threshold : Q;
  vehicle_counts : list Z;
  density_history : list Q;
  last_update_time : Q
}.

(** [TrafficDensityCalculator.__init__] *)
Definition init (window_size : nat) (congestion_threshold : Q) (now : Q)
  : TrafficDensityCalculator :=
  {| window_size := window_size;
     congestion_threshold := congestion_threshold;
     vehicle_counts := [];
     density_history := [];
     last_update_time := now |}.

Definition sum (l : list Z) : Z := fold_right Z.add 0%Z l.

(** [calculate_density] *)
Definition calculate_density (c : TrafficDensityCalculator) : result Q :=
  match vehicle_counts c with
  | [] => Ok 0
  | _ =>
      match py_div (inject_Z (sum (vehicle_counts c)))
                   (inject_Z (Z.of_nat (length (vehicle_counts c)))) with
      | Raise e => Raise e
      | Ok avg_count =>
          match py_div avg_count (congestion_threshold c) with
          | Raise e => Raise e
          | Ok density => Ok (py_min 1 density)
          end
      end
  end.

(** [update]: the count enters the window first, so it stays there when
    [calculate_density] raises. *)
Definition update (vehicle_count : Z) (now : Q) (c : TrafficDensityCalculator)
  : result Q * TrafficDensityCalculator :=
  let c1 :=
    {| window_size := window_size c;
       congestion_threshold := congestion_threshold c;
       vehicle_counts := deque_append (window_size c) (vehicle_counts c) vehicle_count;
       density_history := density_history c;
       last_update_time := now |} in
  match calculate_density c1 with
  | Ok density =>
      (Ok density,
       {| window_size := window_size c1;
          congestion_threshold := congestion_threshold c1;
          vehicle_counts := vehicle_counts c1;
          density_history := deque_append 100 (density_history c1) density;
          last_update_time := last_update_time c1 |})
  | Raise e => (Raise e, c1)
  end.

(** A run of [update] calls, each with the clock reading of its call; the
    returned values are collected in call order. *)
Fixpoint feed (samples : list (Q * Z)) (c : TrafficDensityCalculator)
  : list (result Q) * TrafficDensityCalculator :=
  match samples with
  | [] => ([], c)
  | (now, n) :: rest =>
      let '(r, c1) := update n now c in
      let '(rs, c2) := feed rest c1 in
      (r :: rs, c2)
  end.

(** The spec's [mean(window)]. *)
Definition mean (w : list Z) : Q :=
  inject_Z (sum w) / inject_Z (Z.of_nat (length w)).

(** A density value in the closed interval [0, 1]. *)
Definition in_unit (r : result Q) : Prop :=
  exists d, r = Ok d /\ 0 <= d /\ d <= 1.

End Density.

(** ** 3. Traffic light *)

(** Comparisons of Python numbers as booleans. *)
Definition Qltb (x y : Q) : bool := negb (Qle_bool y x).

(** A timing table is a Python [dict] from phase name to seconds.  The
    constructor keeps the caller's dict without copying it, so tables live
    in a store and a light holds the address of its table: two lights built
    from the same dict share one table. *)
Abbreviation dict := (gmap string Q).
Abbreviation heap := (gmap positive (gmap string Q)).

Module Light.

Record Adjustment : Type := mkAdjustment {
  timestamp : Q;
  phase : string;
  old_value : Q;
  new_value : Q
}.

Record TrafficLight : Type := mkLight {
  id : string;
  timing : positive;
  current_phase : string;
  phase_start_time : Q;
  connected_lights : list string;
  timing_history : list Adjustment
}.

Definition default_timing : dict :=
  <["green" := 30]> (<["yellow" := 5]> (<["red" := 30]> ∅)).

(** The table of a light. *)
Definition table (h : heap) (l : TrafficLight) : dict := h !!! timing l.

(** [TrafficLight.__init__]: with [initial_timing = None] a new dict is
    allocated; otherwise the light refers to the dict it was given. *)
Definition init (id : string) (initial_timing : option positive) (now : Q) (h : heap)
  : heap * TrafficLight :=
  let '(h1, t) :=
    match initial_timing with
    | None => let a := fresh (dom h) in (<[a := default_timing]> h, a)
    | Some a => (h, a)
    end in
  (h1, {| id := id; timing := t; current_phase := "red";
          phase_start_time := now; connected_lights := [];
          timing_history := [] |}).

Definition set_phase (p : string) (now : Q) (l : TrafficLight) : TrafficLight :=
  {| id := id l; timing := timing l; current_phase := p;
     phase_start_time := now; connected_lights := connected_lights l;
     timing_history := timing_history l |}.

(** The successor chosen by [transition_to_next_phase]. *)
Definition next_phase (p : string) : string :=
  if decide (p = "green") then "yellow"
  else if decide (p = "yellow") then "red"
  else "green".

(** [transition_to_next_phase] *)
Definition transition_to_next_phase (now : Q) (l : TrafficLight)
  : string * TrafficLight :=
  let next_phase := next_phase (current_phase l) in
  (next_phase, set_phase next_phase now l).

(** [get_current_phase] *)
Definition get_current_phase (now : Q) (h : heap) (l : TrafficLight)
  : result string * TrafficLight :=
  let elapsed := now - phase_start_time l in
  match table h l !! current_phase l with
  | None => (Raise (KeyError (current_phase l)), l)
  | Some duration =>
      if Qle_bool duration elapsed
      then let l' := snd (transition_to_next_phase now l) in
           (Ok (current_phase l'), l')
      else (Ok (current_phase l), l)
  end.

(** [self.timing_history.append(record)] *)
Definition log_adjustment (record : Adjustment) (l : TrafficLight) : TrafficLight :=
  {| id := id l; timing := timing l; current_phase := current_phase l;
     phase_start_time := phase_start_time l;
     connected_lights := connected_lights l;
     timing_history := timing_history l ++ [record] |}.

(** [adjust_timing] *)
Definition adjust_timing (phase : string) (new_time : Q) (now : Q)
    (h : heap) (l : TrafficLight) : bool * heap * TrafficLight :=
  match table h l !! phase with
  | None => (false, h, l)
  | Some old =>
      let new_time :=
        if decide (phase = "yellow") then (if Qltb new_time 3 then 3 else new_time)
        else new_time in
      let record :=
        {| timestamp := now; phase := phase;
           old_value := old; new_value := new_time |} in
      (true,
       <[timing l := <[phase := new_time]> (table h l)]> h,
       log_adjustment record l)
  end.

(** [get_time_remaining] *)
Definition get_time_remaining (now : Q) (h : heap) (l : TrafficLight) : result Q :=
  let elapsed := now - phase_start_time l in
  match table h l !! current_phase l with
  | None => Raise (KeyError (current_phase l))
  | Some duration => Ok (py_max 0 (duration - elapsed))
  end.

(** [force_phase] *)
Definition force_phase (new_phase : string) (now : Q) (l : TrafficLight)
  : bool * TrafficLight :=
  if bool_decide (new_phase ∈ ["red"; "yellow"; "green"])
  then (true, set_phase new_phase now l)
  else (false, l).

(** The operations of a light, as calls with their arguments.
    [transition_to_next_phase] is not among them: the program calls it from
    [get_current_phase] only. *)
Inductive call : Type :=
| GetCurrentPhase (now : Q)
| AdjustTiming (phase : string) (new_time : Q) (now : Q)
| GetTimeRemaining (now : Q)
| ForcePhase (new_phase : string) (now : Q).

Definition is_force (c : call) : bool :=
  match c with ForcePhase _ _ => true | _ => false end.

(** One call on a light and its store.  The first component is what
    [get_current_phase] returned, when the call was one and it returned. *)
Definition exec (c : call) (s : heap * TrafficLight)
  : option string * (heap * TrafficLight) :=
  let '(h, l) := s in
  match c with
  | GetCurrentPhase now =>
      match get_current_phase now h l with
      | (Ok p, l') => (Some p, (h, l'))
      | (Raise _, l') => (None, (h, l'))
      end
  | AdjustTiming phase new_time now =>
      let '(_, h', l') := adjust_timing phase new_time now h l in
      (None, (h', l'))
  | GetTimeRemaining now =>
      let _ := get_time_remaining now h l in (None, (h, l))
  | ForcePhase new_phase now =>
      (None, (h, snd (force_phase new_phase now l)))
  end.

(** A run of calls: the phases observed through [get_current_phase], in
    order, and the final state. *)
Fixpoint run (cs : list call) (s : heap * TrafficLight)
  : list string * (heap * TrafficLight) :=
  match cs with
  | [] => ([], s)
  | c :: rest =>
      let '(o, s1) := exec c s in
      let '(os, s2) := run rest s1 in
      (match o with Some p => p :: os | None => os end, s2)
  end.

(** A sequence of observed phases that, from phase [p], only ever stays
    where it is or moves to the cyclic successor. *)
Fixpoint follows_cycle (p : string) (obs : list string) : Prop :=
  match obs with
  | [] => True
  | q :: rest => (q = p \/ q = next_phase p) /\ follows_cycle q rest
  end.

(** The three phases. *)
Definition valid_phase (p : string) : Prop := p ∈ ["red"; "yellow"; "green"].

(** A store in which no table has a yellow time under 3 seconds. *)
Definition yellow_safe (h : heap) : Prop :=
  forall (a : positive) (t : dict) (y : Q),
    h !! a = Some t -> t !! "yellow" = Some y -> 3 <= y.

End Light.

(** ** 2, continued. Congestion level and density trend *)

Module Trend.
Import Density.


(** [sum] of a list of ints. *)
Definition int_sum (l : list Z) : Z := fold_left Z.add l 0%Z.

(** [list(range(n))] *)
Definition range (n : nat) : list Z := map Z.of_nat (seq 0 n).

Section FloatSum.

(** [sum] of a list of floats.  CPython adds them from left to right, each
    addition rounded, up to version 3.11, and with a compensation of the
    rounding errors from 3.12 on: the function is a parameter. *)
Variable float_sum : list Q -> Q.

(** [get_density_trend] *)
Definition get_density_trend (c : TrafficDensityCalculator) : result string :=
  if (length (density_history c) <? 2)%nat then Ok "stable"
  else
    let recent := lastn 5 (density_history c) in
    if (length recent <? 5)%nat then Ok "stable"
    else
      let x := range (length recent) in
      let y := recent in
      let n := Z.of_nat (length x) in
      let sum_x := int_sum x in
      let sum_y := float_sum y in
      let sum_xy := float_sum (zip_with (fun x_i y_i => Float.mul (inject_Z x_i) y_i) x y) in
      let sum_xx := int_sum (map (fun x_i => (x_i * x_i)%Z) x) in
      match Float.div (Float.sub (Float.mul (inject_Z n) sum_xy)
                                 (Float.mul (inject_Z sum_x) sum_y))
                      (inject_Z (n * sum_xx - sum_x * sum_x)) with
      | Ok slope =>
          Ok (if Qltb (Float.literal (5 # 100)) slope then "increasing"
              else if Qltb slope (- Float.literal (5 # 100)) then "decreasing"
              else "stable")
      | Raise ZeroDivisionError => Ok "stable"
      | Raise e => Raise e
      end.

End FloatSum.

(** The sum of CPython up to 3.11. *)
Definition naive_sum (l : list Q) : Q := fold_left Float.add l 0.

(** The exact sum of a list. *)
Definition exact_sum (l : list Q) : Q := fold_right Qplus 0 l.

(** A [sum] of floats that, on five numbers between -5 and 5, is within
    [2^-40] of the exact sum. *)
Definition accurate (float_sum : list Q -> Q) : Prop :=
  forall l : list Q,
    length l = 5%nat ->
    Forall (fun v => - (5) <= v /\ v <= 5) l ->
    Qabs (float_sum l - exact_sum l) <= 1 # (2 ^ 40).

(** The quantity that decides the trend of five densities. *)
Definition tilt (y0 y1 y3 y4 : Q) : Q := 2 * (y4 - y0) + (y3 - y1).

(** The densities that a run of [update] calls returned. *)
Definition returned (rs : list (result Q)) : list Q :=
  flat_map (fun r => match r with Ok d => [d] | Raise _ => [] end) rs.

End Trend.

(** ** A state and exception monad

    A computation takes the state of the program, returns a value or raises,
    and leaves the state as it was mutated so far. *)

Definition M (S A : Type) : Type := S -> result A * S.

Definition ret {S A : Type} (a : A) : M S A := fun s => (Ok a, s).

Definition raise {S A : Type} (e : exn) : M S A := fun s => (Raise e, s).

Definition bind {S A B : Type} (m : M S A) (k : A -> M S B) : M S B :=
  fun s =>
    match m s with
    | (Ok a, s1) => k a s1
    | (Raise e, s1) => (Raise e, s1)
    end.

Definition gets {S A : Type} (f : S -> A) : M S A := fun s => (Ok (f s), s).

Definition modify {S : Type} (f : S -> S) : M S unit := fun s => (Ok tt, f s).

Notation "x <- m ;; k" := (bind m (fun x => k))
  (at level 20, m at level 99, k at level 200).
Notation "m ;;; k" := (bind m (fun _ => k))
  (at level 100, k at level 200, right associativity).

(** [for x in xs: body(x)] *)
Fixpoint for_each {S A : Type} (xs : list A) (body : A -> M S unit) : M S unit :=
  match xs with
  | [] => ret tt
  | x :: rest => body x ;;; for_each rest body
  end.

(** ** 3. Traffic light controller *)

Module Controller.
Import Light.

Record TrafficLightController : Type := mkController {
  traffic_lights : gmap string TrafficLight;
  traffic_densities : gmap string Q;
  coordination_groups : list (list string)
}.

(** The state of the program: the store of timing tables and the
    controller. *)
Abbreviation state := (heap * TrafficLightController)%type.

(** [TrafficLightController.__init__] *)
Definition init : TrafficLightController :=
  {| traffic_lights := ∅; traffic_densities := ∅; coordination_groups := [] |}.

Definition set_light (light_id : string) (l : TrafficLight)
    (c : TrafficLightController) : TrafficLightController :=
  {| traffic_lights := <[light_id := l]> (traffic_lights c);
     traffic_densities := traffic_densities c;
     coordination_groups := coordination_groups c |}.

Definition set_density (light_id : string) (density : Q)
    (c : TrafficLightController) : TrafficLightController :=
  {| traffic_lights := traffic_lights c;
     traffic_densities := <[light_id := density]> (traffic_densities c);
     coordination_groups := coordination_groups c |}.

Definition set_connected (others : list string) (l : TrafficLight) : TrafficLight :=
  {| id := id l; timing := timing l; current_phase := current_phase l;
     phase_start_time := phase_start_time l; connected_lights := others;
     timing_history := timing_history l |}.

(** [self.traffic_lights[light_id]] *)
Definition get_light (light_id : string) : M state TrafficLight :=
  fun s =>
    match traffic_lights (snd s) !! light_id with
    | Some l => (Ok l, s)
    | None => (Raise (KeyError light_id), s)
    end.

Definition put_light (light_id : string) (l : TrafficLight) : M state unit :=
  modify (fun s => (fst s, set_light light_id l (snd s))).

(** [add_traffic_light] *)
Definition add_traffic_light (id : string) (initial_timing : option positive)
    (now : Q) (s : state) : TrafficLight * state :=
  let '(h, c) := s in
  match traffic_lights c !! id with
  | Some l => (l, s)
  | None =>
      let '(h1, light) := Light.init id initial_timing now h in
      (light, (h1, set_density id 0 (set_light id light c)))
  end.

Definition base_green_time : Z := 30.
Definition max_green_time : Z := 60.
Definition min_green_time : Z := 15.

(** The two durations computed by [_adjust_timing_based_on_density], in
    float arithmetic. *)
Definition new_green_time (density : Q) : Z :=
  let new_green_time :=
    py_int (Float.add (inject_Z base_green_time)
              (Float.mul (inject_Z (max_green_time - base_green_time)) density)) in
  Z.max min_green_time (Z.min max_green_time new_green_time).

Definition red_time (density : Q) : Z :=
  Z.max min_green_time
    (py_int (Float.mul (inject_Z base_green_time)
               (Float.sub 1 (Float.mul density (Float.literal (1 # 2)))))).

(** [light.adjust_timing(phase, new_time)] on a registered light. *)
Definition light_adjust_timing (light_id phase : string) (new_time now : Q)
  : M state bool :=
  light <- get_light light_id ;;
  fun s =>
    let '(ok, h1, light1) := adjust_timing phase new_time now (fst s) light in
    (Ok ok, (h1, set_light light_id light1 (snd s))).

(** [_adjust_timing_based_on_density] *)
Definition _adjust_timing_based_on_density (light_id : string) (density now : Q)
  : M state unit :=
  light <- get_light light_id ;;
  yellow_time <-
    (fun s => match table (fst s) light !! "yellow" with
              | Some y => (Ok y, s)
              | None => (Raise (KeyError "yellow"), s)
              end) ;;
  light_adjust_timing light_id "green" (inject_Z (new_green_time density)) now ;;;
  light_adjust_timing light_id "red" (inject_Z (red_time density)) now ;;;
  ret tt.

(** [update_traffic_density] *)
Definition update_traffic_density (light_id : string) (density now : Q)
  : M state bool :=
  fun s =>
    match traffic_lights (snd s) !! light_id with
    | None => (Ok false, s)
    | Some _ =>
        (modify (fun s => (fst s, set_density light_id density (snd s))) ;;;
         _adjust_timing_based_on_density light_id density now ;;;
         ret true) s
    end.

(** The body of the loop of [create_coordination_group] that connects the
    lights: [light.connected_lights = [id for id in light_ids if id != light_id]]. *)
Definition connect (light_ids : list string) (c : TrafficLightController)
    (light_id : string) : TrafficLightController :=
  match traffic_lights c !! light_id with
  | Some light =>
      set_light light_id
        (set_connected (filter (fun id => id ≠ light_id) light_ids) light) c
  | None => c
  end.

(** [create_coordination_group] *)
Definition create_coordination_group (light_ids : list string)
    (c : TrafficLightController) : bool * TrafficLightController :=
  if forallb (fun light_id => bool_decide (is_Some (traffic_lights c !! light_id)))
             light_ids
  then
    let c1 :=
      {| traffic_lights := traffic_lights c;
         traffic_densities := traffic_densities c;
         coordination_groups := coordination_groups c ++ [light_ids] |} in
    (true, fold_left (connect light_ids) light_ids c1)
  else (false, c).

(** The search loop of [_coordinate_group]: the running maximum and the id
    that holds it. *)
Definition find_max_step (densities : gmap string Q)
    (acc : Q * option string) (light_id : string) : Q * option string :=
  let '(max_density, max_density_light) := acc in
  let density := default 0 (densities !! light_id) in
  if Qltb max_density density then (density, Some light_id)
  else (max_density, max_density_light).

Definition find_max (densities : gmap string Q) (light_ids : list string)
  : Q * option string :=
  fold_left (find_max_step densities) light_ids (- (1), None).

(** [starting_light.get_time_remaining()] *)
Definition time_remaining (now : Q) (light : TrafficLight) : M state Q :=
  fun s => (get_time_remaining now (fst s) light, s).

(** [_force_green_wave].  The loop over the lights after the first computes
    and logs an offset per light; of it only the reads that can raise are
    kept. *)
Definition _force_green_wave (light_ids : list string) (starting_light_id : string)
    (now : Q) : M state unit :=
  starting_light <- get_light starting_light_id ;;
  (if decide (current_phase starting_light ≠ "green") then
     about_to_turn <-
       (if decide (current_phase starting_light = "red")
        then remaining <- time_remaining now starting_light ;;
             ret (Qltb remaining 5)
        else ret false) ;;
     if about_to_turn : bool then ret tt
     else if decide (current_phase starting_light = "yellow") then ret tt
     else put_light starting_light_id
            (snd (force_phase "green" now starting_light))
   else ret tt) ;;;
  for_each (tail light_ids)
    (fun light_id =>
       light <- get_light light_id ;;
       time_remaining now light ;;;
       ret tt).

(** Python's truth value of [max_density_light]: [None] and the empty
    string are false. *)
Definition truthy (o : option string) : bool :=
  match o with
  | None => false
  | Some s => negb (String.eqb s "")
  end.

(** [_coordinate_group] *)
Definition _coordinate_group (light_ids : list string) (now : Q) : M state unit :=
  if (length light_ids <? 2)%nat then ret tt
  else
    densities <- gets (fun s => traffic_densities (snd s)) ;;
    let '(max_density, max_density_light) := find_max densities light_ids in
    if negb (truthy max_density_light) then ret tt
    else
      let max_density_light := default "" max_density_light in
      prioritized_light <- get_light max_density_light ;;
      if decide (current_phase prioritized_light ≠ "green")
      then if Qltb (7 # 10) max_density
           then _force_green_wave light_ids max_density_light now
           else ret tt
      else ret tt.

(** [coordinate_lights] *)
Definition coordinate_lights (now : Q) : M state unit :=
  groups <- gets (fun s => coordination_groups (snd s)) ;;
  for_each groups (fun group => _coordinate_group group now).

(** The density the search loop reads for a light. *)
Definition density_of (c : TrafficLightController) (light_id : string) : Q :=
  default 0 (traffic_densities c !! light_id).

(** The member of a group that the spec selects: at position [i], its
    density is the largest of the group and every member before it has a
    strictly smaller one. *)
Definition first_max (c : TrafficLightController) (group : list string)
    (i : nat) (sel : string) : Prop :=
  group !! i = Some sel /\
  (forall (j : nat) (m : string), group !! j = Some m ->
     density_of c m <= density_of c sel) /\
  (forall (j : nat) (m : string), (j < i)%nat -> group !! j = Some m ->
     density_of c m < density_of c sel).

(** Every light of the list is registered and its table has a duration for
    the phase the light is in and for green. *)
Definition readable (s : state) (light_ids : list string) : Prop :=
  Forall (fun light_id =>
            exists l, traffic_lights (snd s) !! light_id = Some l /\
                      is_Some (table (fst s) l !! current_phase l) /\
                      is_Some (table (fst s) l !! "green"))
         light_ids.

(** Whether the override forces a light that is in phase [p] with
    [remaining] seconds left: not when it is green, not when it is red with
    less than 5 seconds left, not when it is yellow. *)
Definition forces (remaining : Q) (p : string) : bool :=
  if decide (p = "green") then false
  else if decide (p = "red") then negb (Qltb remaining 5)
  else if decide (p = "yellow") then false
  else true.

(** A table with a duration for each of the three phases. *)
Definition complete (t : dict) : Prop :=
  is_Some (t !! "green") /\ is_Some (t !! "yellow") /\ is_Some (t !! "red").

End Controller.

(** What [coordinate_lights] may do to a state at time [now]: the tables,
    the densities, the groups and the set of lights stay, and a light either
    stays as it is or, from a phase that is neither green nor yellow, is put
    in green at [now]. *)
Module Coordination.
Import Light Controller.

Definition greened (now : Q) (l l' : TrafficLight) : Prop :=
  l' = l \/
  (l' = set_phase "green" now l /\
   current_phase l <> "green" /\ current_phase l <> "yellow").

Definition greened_only (now : Q) (s s' : state) : Prop :=
  fst s' = fst s /\
  traffic_densities (snd s') = traffic_densities (snd s) /\
  coordination_groups (snd s') = coordination_groups (snd s) /\
  forall light_id,
    match traffic_lights (snd s) !! light_id,
          traffic_lights (snd s') !! light_id with
    | Some l, Some l' => greened now l l'
    | None, None => True
    | _, _ => False
    end.

End Coordination.

(** ** 4. Communication manager: the connection handler *)

Module Comm.

(** What [json.loads] returns. *)
#[local] Unset Elimination Schemes.
Inductive JSON : Type :=
| JNull
| JBool (b : bool)
| JInt (n : Z)
| JFloat (x : Q)
| JStr (s : string)
| JArr (items : list JSON)
| JObj (members : list (string * JSON)).
#[local] Set Elimination Schemes.

(** The outcome of [json.loads(data.decode('utf-8'))]. *)
Inductive loads_result : Type :=
| Loaded (message : JSON)
| JSONDecodeError
| UnicodeDecodeError.

(** A [dict] with string keys, in insertion order. *)
Fixpoint dict_get (k : string) (members : list (string * JSON)) : option JSON :=
  match members with
  | [] => None
  | (k', v) :: rest => if String.eqb k k' then Some v else dict_get k rest
  end.

Fixpoint dict_set (k : string) (v : JSON) (members : list (string * JSON))
  : list (string * JSON) :=
  match members with
  | [] => [(k, v)]
  | (k', v') :: rest =>
      if String.eqb k k' then (k', v) :: rest else (k', v') :: dict_set k v rest
  end.

(** [k in message] *)
Definition contains (k : string) (message : JSON) : result bool :=
  match message with
  | JObj members =>
      Ok (match dict_get k members with Some _ => true | None => false end)
  | JArr items =>
      Ok (existsb (fun v => match v with JStr s => String.eqb s k | _ => false end)
                  items)
  | JStr s =>
      Ok (match String.index 0 k s with Some _ => true | None => false end)
  | _ => Raise TypeError
  end.

(** [message[k]] *)
Definition getitem (k : string) (message : JSON) : result JSON :=
  match message with
  | JObj members =>
      match dict_get k members with
      | Some v => Ok v
      | None => Raise (KeyError k)
      end
  | _ => Raise TypeError
  end.

(** [message[k] = v] *)
Definition setitem (k : string) (v : JSON) (message : JSON) : result JSON :=
  match message with
  | JObj members => Ok (JObj (dict_set k v members))
  | _ => Raise TypeError
  end.

(** Lists and dicts cannot be keys of a dict. *)
Definition hashable (v : JSON) : bool :=
  match v with
  | JArr _ | JObj _ => false
  | _ => true
  end.

Definition number (v : JSON) : option Q :=
  match v with
  | JBool b => Some (if b then 1 else 0)
  | JInt n => Some (inject_Z n)
  | JFloat x => Some x
  | _ => None
  end.

(** Equality of two keys: [True == 1 == 1.0]. *)
Definition key_eqb (a b : JSON) : bool :=
  match a, b with
  | JNull, JNull => true
  | JStr s, JStr t => String.eqb s t
  | _, _ =>
      match number a, number b with
      | Some x, Some y => Qeq_bool x y
      | _, _ => false
      end
  end.

(** The truth value of an object. *)
Definition truth (v : JSON) : bool :=
  match v with
  | JNull => false
  | JBool b => b
  | JInt n => negb (n =? 0)%Z
  | JFloat x => negb (Qeq_bool x 0)
  | JStr s => negb (String.eqb s "")
  | JArr items => match items with [] => false | _ => true end
  | JObj members => match members with [] => false | _ => true end
  end.

(** [client_connections]: id -> socket.  Sockets are numbered. *)
Fixpoint conn_get (k : JSON) (conns : list (JSON * nat)) : option nat :=
  match conns with
  | [] => None
  | (k', sock) :: rest => if key_eqb k k' then Some sock else conn_get k rest
  end.

Fixpoint conn_set (k : JSON) (sock : nat) (conns : list (JSON * nat))
  : list (JSON * nat) :=
  match conns with
  | [] => [(k, sock)]
  | (k', sock') :: rest =>
      if key_eqb k k' then (k', sock) :: rest
      else (k', sock') :: conn_set k sock rest
  end.

Fixpoint conn_del (k : JSON) (conns : list (JSON * nat)) : list (JSON * nat) :=
  match conns with
  | [] => []
  | (k', sock') :: rest =>
      if key_eqb k k' then rest else (k', sock') :: conn_del k rest
  end.

Record CommunicationManager : Type := mkManager {
  client_connections : list (JSON * nat);
  message_queue : list JSON;
  running : bool
}.

(** Where the handler thread of a connection is: blocked in the first
    [recv], blocked in the [recv] of the main loop, or returned. *)
Inductive stage : Type :=
| AwaitingRegistration
| Serving (client_id : JSON)
| Finished.

(** One accepted connection: its socket, the bytes that arrived and were not
    read yet, whether the peer closed its end, the stage of the handler and
    whether the handler closed the socket. *)
Record connection : Type := mkConnection {
  client_socket : nat;
  inbuf : list byte;
  peer_closed : bool;
  handler : stage;
  socket_closed : bool
}.

Definition accept (sock : nat) : connection :=
  {| client_socket := sock; inbuf := []; peer_closed := false;
     handler := AwaitingRegistration; socket_closed := false |}.

Inductive recv_result : Type :=
| Data (data : list byte)
| Eof
| Blocked.

(** [client_socket.recv(bufsize)]: the bytes that have arrived, up to
    [bufsize] of them; [b''] when there are none and the peer closed; the
    thread blocks when there are none and the peer is still there. *)
Definition recv (bufsize : nat) (c : connection) : recv_result * connection :=
  match inbuf c with
  | [] => (if peer_closed c then Eof else Blocked, c)
  | _ =>
      (Data (take bufsize (inbuf c)),
       {| client_socket := client_socket c; inbuf := drop bufsize (inbuf c);
          peer_closed := peer_closed c; handler := handler c;
          socket_closed := socket_closed c |})
  end.

Definition finish (closed : bool) (c : connection) : connection :=
  {| client_socket := client_socket c; inbuf := inbuf c;
     peer_closed := peer_closed c; handler := Finished;
     socket_closed := closed |}.

Definition set_stage (st : stage) (c : connection) : connection :=
  {| client_socket := client_socket c; inbuf := inbuf c;
     peer_closed := peer_closed c; handler := st;
     socket_closed := socket_closed c |}.

Definition set_connections (conns : list (JSON * nat)) (m : CommunicationManager)
  : CommunicationManager :=
  {| client_connections := conns; message_queue := message_queue m;
     running := running m |}.

Definition put (message : JSON) (m : CommunicationManager) : CommunicationManager :=
  {| client_connections := client_connections m;
     message_queue := message_queue m ++ [message];
     running := running m |}.

(** The [finally] block.  The membership test on an id that is true and not
    hashable raises, and the socket is then not closed. *)
Definition cleanup (client_id : option JSON) (m : CommunicationManager)
    (c : connection) : CommunicationManager * connection :=
  match client_id with
  | None => (m, finish true c)
  | Some id =>
      if truth id then
        if hashable id then
          match conn_get id (client_connections m) with
          | Some _ =>
              (set_connections (conn_del id (client_connections m)) m,
               finish true c)
          | None => (m, finish true c)
          end
        else (m, finish false c)
      else (m, finish true c)
  end.

Section Handler.

(** [json.loads] composed with the decoding of the bytes: a function of
    the Python library. *)
Variable loads : list byte -> loads_result.

(** The test [while self.running] at the head of the main loop. *)
Definition loop_head (client_id : JSON) (m : CommunicationManager)
    (c : connection) : CommunicationManager * connection :=
  if running m then (m, set_stage (Serving client_id) c)
  else cleanup (Some client_id) m c.

(** The registration part of [_handle_client], from the data of the first
    [recv]. *)
Definition register (data : list byte) (m : CommunicationManager)
    (c : connection) : CommunicationManager * connection :=
  match loads data with
  | Loaded message =>
      match contains "id" message with
      | Ok true =>
          match getitem "id" message with
          | Ok client_id =>
              if hashable client_id then
                loop_head client_id
                  (set_connections
                     (conn_set client_id (client_socket c) (client_connections m))
                     m) c
              else cleanup (Some client_id) m c
          | Raise _ => cleanup None m c
          end
      | Ok false => cleanup None m c
      | Raise _ => cleanup None m c
      end
  | JSONDecodeError => cleanup None m c
  | UnicodeDecodeError => cleanup None m c
  end.

(** The body of the main loop, from the data of its [recv]. *)
Definition serve (client_id : JSON) (data : list byte) (m : CommunicationManager)
    (c : connection) : CommunicationManager * connection :=
  match loads data with
  | Loaded message =>
      match setitem "sender" client_id message with
      | Ok message => loop_head client_id (put message m) c
      | Raise _ => cleanup (Some client_id) m c
      end
  | JSONDecodeError => loop_head client_id m c
  | UnicodeDecodeError => cleanup (Some client_id) m c
  end.

(** The handler thread runs until its next [recv] has returned and the
    data is processed; a thread that finds nothing to read stays blocked. *)
Definition handler_step (m : CommunicationManager) (c : connection)
  : CommunicationManager * connection :=
  match handler c with
  | Finished => (m, c)
  | AwaitingRegistration =>
      match recv 1024 c with
      | (Blocked, _) => (m, c)
      | (Eof, c1) => cleanup None m c1
      | (Data data, c1) => register data m c1
      end
  | Serving client_id =>
      match recv 1024 c with
      | (Blocked, _) => (m, c)
      | (Eof, c1) => cleanup (Some client_id) m c1
      | (Data data, c1) => serve client_id data m c1
      end
  end.

(** What happens on a connection: bytes of the peer arrive, the peer
    closes, the handler thread runs. *)
Inductive event : Type :=
| Deliver (data : list byte)
| PeerClose
| Step.

Definition deliver (data : list byte) (c : connection) : connection :=
  {| client_socket := client_socket c; inbuf := inbuf c ++ data;
     peer_closed := peer_closed c; handler := handler c;
     socket_closed := socket_closed c |}.

Definition close_peer (c : connection) : connection :=
  {| client_socket := client_socket c; inbuf := inbuf c;
     peer_closed := true; handler := handler c;
     socket_closed := socket_closed c |}.

Definition occur (e : event) (w : CommunicationManager * connection)
  : CommunicationManager * connection :=
  match e with
  | Deliver data => (fst w, deliver data (snd w))
  | PeerClose => (fst w, close_peer (snd w))
  | Step => handler_step (fst w) (snd w)
  end.

Definition run (es : list event) (w : CommunicationManager * connection)
  : CommunicationManager * connection :=
  fold_left (fun w e => occur e w) es w.

(** The peer sends each message with one [sendall] and the handler reads
    it before the next one arrives. *)
Definition one_per_read (texts : list (list byte)) : list event :=
  flat_map (fun text => [Deliver text; Step]) texts.

End Handler.

(** *** A JSON reader for the examples

    [loads_ascii] follows the scanner of Python's [json] module on ASCII
    data: white space, [null], [true], [false], numbers, strings with the
    one-letter escapes, arrays and objects, and the check that nothing but
    white space follows the value.  It does not cover bytes over 127, the
    escape with four hexadecimal digits or the constants [NaN] and
    [Infinity], and answers with an error there. *)

Definition is_ws (b : byte) : bool :=
  match b with
  | x20 | x09 | x0a | x0d => true
  | _ => false
  end.

Fixpoint skip_ws (s : list byte) : list byte :=
  match s with
  | b :: rest => if is_ws b then skip_ws rest else s
  | [] => []
  end.

Definition digit (b : byte) : option Z :=
  let n := Z.of_N (Byte.to_N b) in
  if ((48 <=? n) && (n <=? 57))%Z then Some (n - 48)%Z else None.

(** The digits at the head of [s]: their value after [acc], how many there
    are, and the rest. *)
Fixpoint digits (s : list byte) (acc : Z) (count : nat) : Z * nat * list byte :=
  match s with
  | b :: rest =>
      match digit b with
      | Some d => digits rest (10 * acc + d)%Z (S count)
      | None => (acc, count, s)
      end
  | [] => (acc, count, [])
  end.

(** A number: an optional minus, 0 or digits that do not start with 0, an
    optional fraction and an optional exponent. *)
Definition parse_number (s : list byte) : option (JSON * list byte) :=
  let '(negative, s1) :=
    match s with
    | x2d :: r => (true, r)
    | _ => (false, s)
    end in
  let integer :=
    match s1 with
    | x30 :: r => Some (0%Z, r)
    | _ => let '(n, count, r) := digits s1 0 0 in
           match count with O => None | _ => Some (n, r) end
    end in
  match integer with
  | None => None
  | Some (n, r) =>
      let '(fraction, r1) :=
        match r with
        | x2e :: r' =>
            let '(f, count, r'') := digits r' 0 0 in
            match count with
            | O => (None, r)
            | _ => (Some (inject_Z f / inject_Z (10 ^ Z.of_nat count)), r'')
            end
        | _ => (None, r)
        end in
      let '(exponent, r2) :=
        match r1 with
        | x65 :: r' | x45 :: r' =>
            let '(minus, r'') :=
              match r' with
              | x2d :: t => (true, t)
              | x2b :: t => (false, t)
              | _ => (false, r')
              end in
            let '(e, count, r''') := digits r'' 0 0 in
            match count with
            | O => (None, r1)
            | _ => (Some (if minus then (- e)%Z else e), r''')
            end
        | _ => (None, r1)
        end in
      let sign (x : Q) : Q := if negative then - x else x in
      match fraction, exponent with
      | None, None => Some (JInt (if negative then (- n)%Z else n), r2)
      | _, _ =>
          let mantissa := inject_Z n + default 0 fraction in
          let scale :=
            match exponent with
            | None => 1
            | Some e => if (0 <=? e)%Z then inject_Z (10 ^ e)
                        else / inject_Z (10 ^ (- e))
            end in
          Some (JFloat (sign (mantissa * scale)), r2)
      end
  end.

(** The characters of a string after its opening quote. *)
Fixpoint parse_string (s : list byte) (acc : list byte)
  : option (string * list byte) :=
  match s with
  | [] => None
  | x22 :: rest => Some (string_of_list_byte acc, rest)
  | x5c :: rest =>
      match rest with
      | x22 :: rest' => parse_string rest' (acc ++ [x22])
      | x5c :: rest' => parse_string rest' (acc ++ [x5c])
      | x2f :: rest' => parse_string rest' (acc ++ [x2f])
      | x62 :: rest' => parse_string rest' (acc ++ [x08])
      | x66 :: rest' => parse_string rest' (acc ++ [x0c])
      | x6e :: rest' => parse_string rest' (acc ++ [x0a])
      | x72 :: rest' => parse_string rest' (acc ++ [x0d])
      | x74 :: rest' => parse_string rest' (acc ++ [x09])
      | _ => None
      end
  | b :: rest =>
      if (Byte.to_N b <? 32)%N then None else parse_string rest (acc ++ [b])
  end.

Fixpoint parse_value (fuel : nat) (s : list byte) {struct fuel}
  : option (JSON * list byte) :=
  match fuel with
  | O => None
  | S fuel =>
      match s with
      | x22 :: rest =>
          match parse_string rest [] with
          | Some (str, r) => Some (JStr str, r)
          | None => None
          end
      | x7b :: rest =>
          match skip_ws rest with
          | x7d :: r => Some (JObj [], r)
          | rest' => parse_members fuel rest' []
          end
      | x5b :: rest =>
          match skip_ws rest with
          | x5d :: r => Some (JArr [], r)
          | rest' => parse_items fuel rest' []
          end
      | x6e :: x75 :: x6c :: x6c :: r => Some (JNull, r)
      | x74 :: x72 :: x75 :: x65 :: r => Some (JBool true, r)
      | x66 :: x61 :: x6c :: x73 :: x65 :: r => Some (JBool false, r)
      | _ => parse_number s
      end
  end
with parse_items (fuel : nat) (s : list byte) (acc : list JSON) {struct fuel}
  : option (JSON * list byte) :=
  match fuel with
  | O => None
  | S fuel =>
      match parse_value fuel s with
      | Some (v, r) =>
          match skip_ws r with
          | x2c :: r' => parse_items fuel (skip_ws r') (acc ++ [v])
          | x5d :: r' => Some (JArr (acc ++ [v]), r')
          | _ => None
          end
      | None => None
      end
  end
with parse_members (fuel : nat) (s : list byte) (acc : list (string * JSON))
    {struct fuel} : option (JSON * list byte) :=
  match fuel with
  | O => None
  | S fuel =>
      match s with
      | x22 :: r =>
          match parse_string r [] with
          | Some (k, r1) =>
              match skip_ws r1 with
              | x3a :: r2 =>
                  match parse_value fuel (skip_ws r2) with
                  | Some (v, r3) =>
                      match skip_ws r3 with
                      | x2c :: r4 =>
                          parse_members fuel (skip_ws r4) (dict_set k v acc)
                      | x7d :: r4 => Some (JObj (dict_set k v acc), r4)
                      | _ => None
                      end
                  | None => None
                  end
              | _ => None
              end
          | None => None
          end
      | _ => None
      end
  end.

Definition loads_ascii (data : list byte) : loads_result :=
  if forallb (fun b => (Byte.to_N b <? 128)%N) data then
    match parse_value (2 * length data + 2) (skip_ws data) with
    | Some (v, r) =>
        match skip_ws r with
        | [] => Loaded v
        | _ => JSONDecodeError
        end
    | None => JSONDecodeError
    end
  else UnicodeDecodeError.

(** The bytes of an ASCII text, and of a text between double quotes. *)
Definition bytes (s : string) : list byte := list_byte_of_string s.
Definition quoted (s : string) : list byte := [x22] ++ bytes s ++ [x22].

(** [json.dumps({'id': id}).encode()] *)
Definition register_text (id : string) : list byte :=
  bytes "{" ++ quoted "id" ++ bytes ": " ++ quoted id ++ bytes "}".

(** [json.dumps({'type': 'status_update', 'data': data}).encode()] *)
Definition status_text (data : string) : list byte :=
  bytes "{" ++ quoted "type" ++ bytes ": " ++ quoted "status_update"
  ++ bytes ", " ++ quoted "data" ++ bytes ": " ++ quoted data ++ bytes "}".

Definition status_message (data : string) : JSON :=
  JObj [("type", JStr "status_update"); ("data", JStr data)].

(** A string of [n] letters a. *)
Definition letters (n : nat) : string := string_of_list_byte (repeat x61 n).

End Comm.

(** ** 4, continued. Sending, broadcasting, stopping and dispatching *)

Module Dispatch.
Import Comm.

(** The manager together with what the network shows of it: the messages
    written to each socket, in order; the sockets on which [sendall] raises;
    the sockets that [stop] closed; whether the listening socket is open. *)
Record Server : Type := mkServer {
  manager : CommunicationManager;
  written : list (nat * list byte);
  broken : list nat;
  closed : list nat;
  listening : bool
}.

Definition set_manager (m : CommunicationManager) (sv : Server) : Server :=
  {| manager := m; written := written sv; broken := broken sv;
     closed := closed sv; listening := listening sv |}.

(** [sock.sendall(data)]: [None] when it raises. *)
Definition sendall (sock : nat) (data : list byte) (sv : Server) : option Server :=
  if bool_decide (sock ∈ broken sv) then None
  else Some {| manager := manager sv;
               written := written sv ++ [(sock, data)];
               broken := broken sv; closed := closed sv;
               listening := listening sv |}.

(** Whether a key is in [client_connections]: the test hashes the key. *)
Definition connected (k : JSON) (sv : Server) : result (option nat) :=
  if hashable k then Ok (conn_get k (client_connections (manager sv)))
  else Raise TypeError.

Section Sending.

(** [json.dumps(message).encode('utf-8')], a function of the Python
    library. *)
Variable dumps : JSON -> list byte.

(** [send_message] *)
Definition send_message (target_id message_type data : JSON) (now : Q)
    (sv : Server) : result bool * Server :=
  if negb (running (manager sv)) then (Ok false, sv)
  else
    match connected target_id sv with
    | Raise e => (Raise e, sv)
    | Ok None => (Ok false, sv)
    | Ok (Some sock) =>
        let message :=
          JObj [("type", message_type); ("target", target_id);
                ("data", data); ("timestamp", JFloat now)] in
        match sendall sock (dumps message) sv with
        | Some sv' => (Ok true, sv')
        | None => (Ok false, sv)
        end
    end.

(** The loop of [broadcast_message] over the connections. *)
Fixpoint send_each (encoded_message : list byte) (clients : list (JSON * nat))
    (sv : Server) : Server :=
  match clients with
  | [] => sv
  | (client_id, client_socket) :: rest =>
      match sendall client_socket encoded_message sv with
      | Some sv' => send_each encoded_message rest sv'
      | None => send_each encoded_message rest sv
      end
  end.

(** [broadcast_message] *)
Definition broadcast_message (message_type data : JSON) (now : Q) (sv : Server)
  : Server :=
  if negb (running (manager sv)) then sv
  else
    let message :=
      JObj [("type", message_type); ("data", data); ("timestamp", JFloat now)] in
    let encoded_message := dumps message in
    send_each encoded_message (client_connections (manager sv)) sv.

(** [CommunicationManager.stop] *)
Definition stop (sv : Server) : Server :=
  {| manager :=
       {| client_connections := [];
          message_queue := message_queue (manager sv);
          running := false |};
     written := written sv;
     broken := broken sv;
     closed := closed sv ++ map snd (client_connections (manager sv));
     listening := false |}.

(** [_handle_command]: [None] when the membership test raises. *)
Definition _handle_command (message : JSON) (sv : Server) : option Server :=
  match contains "target" message with
  | Ok true =>
      match getitem "target" message with
      | Ok target =>
          match connected target sv with
          | Ok (Some sock) =>
              match sendall sock (dumps message) sv with
              | Some sv' => Some sv'
              | None => Some sv
              end
          | Ok None => Some sv
          | Raise _ => None
          end
      | Raise _ => None
      end
  | Ok false => Some sv
  | Raise _ => None
  end.

(** [_handle_status_update]: the log line reads [message['sender']]. *)
Definition _handle_status_update (message : JSON) (sv : Server) : option Server :=
  match getitem "sender" message with
  | Ok _ => Some sv
  | Raise _ => None
  end.

(** [v == s] for a string [s]. *)
Definition str_eq (v : JSON) (s : string) : bool :=
  match v with
  | JStr t => String.eqb t s
  | _ => false
  end.

(** One turn of the loop of [_process_messages] while the server runs: the
    message at the head of the queue is taken and handled; an exception of
    the handling is caught and logged. *)
Definition process_one (sv : Server) : Server :=
  match message_queue (manager sv) with
  | [] => sv
  | message :: rest =>
      let sv1 :=
        set_manager {| client_connections := client_connections (manager sv);
                       message_queue := rest;
                       running := running (manager sv) |} sv in
      match contains "type" message with
      | Ok true =>
          match getitem "type" message with
          | Ok type =>
              if str_eq type "status_update" then
                default sv1 (_handle_status_update message sv1)
              else if str_eq type "command" then
                default sv1 (_handle_command message sv1)
              else sv1
          | Raise _ => sv1
          end
      | _ => sv1
      end
  end.

End Sending.

(** Keys of [client_connections] are pairwise different and hashable, as in
    a dict. *)
Fixpoint unique_keys (conns : list (JSON * nat)) : Prop :=
  match conns with
  | [] => True
  | (k, _) :: rest =>
      hashable k = true /\ conn_get k rest = None /\ unique_keys rest
  end.

(** A queued message that carries [sender = client_id]. *)
Definition tagged (client_id : JSON) (message : JSON) : Prop :=
  exists members,
    message = JObj members /\ dict_get "sender" members = Some client_id.

(** The objects among the JSON texts of a list. *)
Definition objects (loads : list byte -> loads_result) (texts : list (list byte))
  : list (list (string * JSON)) :=
  flat_map (fun text => match loads text with
                        | Loaded (JObj members) => [members]
                        | _ => []
                        end) texts.

End Dispatch.

(** ** Configuration *)

Module Config.
Import Comm.

(** [_deep_merge(dict1, dict2)], by recursion on [dict2]: the loop over
    [dict2.items()] updates [result], which starts as a copy of [dict1];
    a key that both hold as dicts gets the merge of the two. *)
Fixpoint merge_into (dict2 : JSON) (dict1 : list (string * JSON)) {struct dict2}
  : list (string * JSON) :=
  match dict2 with
  | JObj members =>
      (fix loop (items : list (string * JSON)) (result : list (string * JSON))
         {struct items} : list (string * JSON) :=
         match items with
         | [] => result
         | (key, value) :: rest =>
             loop rest
               match dict_get key result, value with
               | Some (JObj sub), JObj _ =>
                   dict_set key (JObj (merge_into value sub)) result
               | _, _ => dict_set key value result
               end
         end) members dict1
  | _ => dict1
  end.

(** The loop of [_deep_merge] over [dict2.items()], from [result]. *)
Definition loop : list (string * JSON) -> list (string * JSON) -> list (string * JSON) :=
  fix loop (items : list (string * JSON)) (result : list (string * JSON))
      {struct items} : list (string * JSON) :=
    match items with
    | [] => result
    | (key, value) :: rest =>
        loop rest
          match dict_get key result, value with
          | Some (JObj sub), JObj _ =>
              dict_set key (JObj (merge_into value sub)) result
          | _, _ => dict_set key value result
          end
    end.

Definition _deep_merge (dict1 dict2 : list (string * JSON)) : list (string * JSON) :=
  merge_into (JObj dict2) dict1.

(** The keys of a dict. *)
Definition keys (members : list (string * JSON)) : list string := map fst members.

(** What [_deep_merge] leaves under a key, from what the two dicts hold
    under it. *)
Definition merged (old new : option JSON) : option JSON :=
  match new with
  | None => old
  | Some value =>
      match old, value with
      | Some (JObj sub), JObj members => Some (JObj (_deep_merge sub members))
      | _, _ => Some value
      end
  end.

End Config.

(** ** Vehicle counting *)

Module Detector.

(** A bounding box [[x1, y1, x2, y2]] of [detect_vehicles], in pixels. *)
Definition box : Type := (Z * Z * Z * Z)%type.

(** The test of [count_vehicles] on one box: the centre of the box, with
    [//], lies in the region, borders included. *)
Definition in_roi (roi : box) (b : box) : bool :=
  let '(x1, y1, x2, y2) := b in
  let '(r0, r1, r2, r3) := roi in
  let center_x := ((x1 + x2) / 2)%Z in
  let center_y := ((y1 + y2) / 2)%Z in
  (r0 <=? center_x)%Z && (center_x <=? r2)%Z &&
  (r1 <=? center_y)%Z && (center_y <=? r3)%Z.

(** The count that [count_vehicles] returns for a frame of the given size,
    from the boxes that [detect_vehicles] found in it. *)
Definition count_vehicles (height width : Z) (roi : option box)
    (boxes : list box) : Z :=
  let roi := match roi with
             | None => (0, 0, width, height)%Z
             | Some roi => roi
             end in
  fold_left (fun roi_vehicles b =>
               if in_roi roi b then (roi_vehicles + 1)%Z else roi_vehicles)
            boxes 0%Z.

(** A box of [detect_vehicles] lies in the frame. *)
Definition in_frame (height width : Z) (b : box) : Prop :=
  let '(x1, y1, x2, y2) := b in
  (0 <= x1 <= x2 /\ x2 <= width /\ 0 <= y1 <= y2 /\ y2 <= height)%Z.

End Detector.

(** * Properties *)

(** ** Python arithmetic *)

Lemma Qltb_spec (x y : Q) : Qltb x y = true <-> x < y.
Proof.
  unfold Qltb. rewrite negb_true_iff. split; intros H.
  - apply Qnot_le_lt. intros Hle. apply Qle_bool_iff in Hle. congruence.
  - destruct (Qle_bool y x) eqn:E; [|reflexivity].
    apply Qle_bool_iff in E. exfalso. apply (Qlt_not_le _ _ H E).
Qed.

Lemma Qltb_false (x y : Q) : Qltb x y = false <-> y <= x.
Proof.
  unfold Qltb. rewrite negb_false_iff. apply Qle_bool_iff.
Qed.

Lemma py_min_Qmin (a b : Q) : py_min a b = Qmin a b.
Proof.
  unfold py_min, Qmin, GenericMinMax.gmin.
  destruct (Qlt_le_dec b a) as [Hlt | Hle].
  - apply Qgt_alt in Hlt. now rewrite Hlt.
  - destruct (a ?= b) eqn:E; try reflexivity.
    apply Qgt_alt in E. exfalso. apply (Qlt_not_le _ _ E Hle).
Qed.

Lemma py_max_Qmax (a b : Q) : py_max a b == Qmax a b.
Proof.
  unfold py_max. destruct (Qlt_le_dec a b) as [Hlt | Hle].
  - symmetry. apply Q.max_r. now apply Qlt_le_weak.
  - symmetry. now apply Q.max_l.
Qed.

(** ** Bounded deques *)

Section Deque.
Context {A : Type}.
Implicit Types (d l : list A) (x : A) (n : nat).

Lemma lastn_all n l : (length l <= n)%nat -> lastn n l = l.
Proof.
  intros H. unfold lastn. replace (length l - n)%nat with 0%nat by lia.
  reflexivity.
Qed.

Lemma length_lastn n l : length (lastn n l) = Nat.min n (length l).
Proof. unfold lastn. rewrite length_drop. lia. Qed.

Lemma lastn_app_lastn n l k : lastn n (lastn n l ++ k) = lastn n (l ++ k).
Proof.
  destruct (Nat.le_gt_cases (length l) n) as [Hle | Hgt].
  - now rewrite (lastn_all n l).
  - unfold lastn at 1 3. rewrite !length_app, length_lastn.
    rewrite !drop_app, length_lastn. unfold lastn.
    rewrite drop_drop. f_equal; f_equal; lia.
Qed.

Lemma deque_append_lastn n d x :
  (length d <= n)%nat -> deque_append n d x = lastn n (d ++ [x]).
Proof.
  intros Hlen. unfold deque_append, lastn. rewrite length_app. simpl.
  destruct n as [|n].
  - destruct d; [reflexivity | simpl in Hlen; lia].
  - destruct (Nat.leb_spec (S n) (length d)) as [Hfull | Hroom].
    + replace (length d + 1 - S n)%nat with 1%nat by lia.
      destruct d; [simpl in Hfull; lia | reflexivity].
    + replace (length d + 1 - S n)%nat with 0%nat by lia. reflexivity.
Qed.

Lemma length_deque_append n d x :
  (length d <= n)%nat -> (length (deque_append n d x) <= n)%nat.
Proof.
  intros H. rewrite deque_append_lastn by exact H.
  rewrite length_lastn. lia.
Qed.

Lemma deque_append_elem n d x y :
  y ∈ deque_append n d x -> y ∈ d \/ y = x.
Proof.
  unfold deque_append. destruct n; [now left|].
  destruct (S n <=? length d)%nat; rewrite elem_of_app, list_elem_of_singleton.
  - intros [H | H]; [left | now right].
    destruct d; [exact H | simpl in H; now apply elem_of_cons; right].
  - tauto.
Qed.

Lemma deque_append_Forall (P : A -> Prop) n d x :
  Forall P d -> P x -> Forall P (deque_append n d x).
Proof.
  intros Hd Hx. apply Forall_forall. intros y Hy.
  destruct (deque_append_elem _ _ _ _ Hy) as [H | ->]; [|exact Hx].
  rewrite Forall_forall in Hd. now apply Hd.
Qed.
End Deque.

(** ** Density calculator *)

Module DensityFacts.
Import Density.

Lemma feed_window (samples : list (Q * Z)) (c : TrafficDensityCalculator) :
  (length (vehicle_counts c) <= window_size c)%nat ->
  window_size (snd (feed samples c)) = window_size c /\
  vehicle_counts (snd (feed samples c))
  = lastn (window_size c) (vehicle_counts c ++ map snd samples).
Proof.
  revert c. induction samples as [|[now n] rest IH]; intros c Hlen.
  - simpl. rewrite app_nil_r, lastn_all by exact Hlen. auto.
  - simpl. destruct (update n now c) as [r c1] eqn:Hup.
    destruct (feed rest c1) as [rs c2] eqn:Hfeed. simpl.
    assert (Hc1 : window_size c1 = window_size c /\
                  vehicle_counts c1
                  = deque_append (window_size c) (vehicle_counts c) n).
    { unfold update in Hup.
      destruct (calculate_density _); inversion Hup; subst; simpl; auto. }
    destruct Hc1 as [Hw Hv].
    specialize (IH c1). rewrite Hfeed in IH. simpl in IH.
    rewrite Hw, Hv in IH.
    destruct (IH (length_deque_append _ _ _ Hlen)) as [IHw IHv].
    split; [exact IHw|].
    rewrite IHv, deque_append_lastn by exact Hlen.
    rewrite lastn_app_lastn, <- app_assoc. reflexivity.
Qed.

Lemma sum_nonneg (w : list Z) : Forall (fun n => (0 <= n)%Z) w -> (0 <= sum w)%Z.
Proof. induction 1; simpl; lia. Qed.

Lemma mean_nonneg (w : list Z) : Forall (fun n => (0 <= n)%Z) w -> 0 <= mean w.
Proof.
  intros H. unfold mean. apply sum_nonneg in H.
  destruct w as [|n w].
  - simpl. unfold Qdiv, Qinv. simpl. lra.
  - apply Qle_shift_div_l.
    + replace 0 with (inject_Z 0) by reflexivity. rewrite <- Zlt_Qlt.
      simpl length. lia.
    + rewrite Qmult_0_l. replace 0 with (inject_Z 0) by reflexivity.
      now rewrite <- Zle_Qle.
Qed.

Lemma py_div_ok (a b : Q) : ~ b == 0 -> py_div a b = Ok (a / b).
Proof.
  intros Hb. unfold py_div. destruct (Qeq_bool b 0) eqn:E; [|reflexivity].
  apply Qeq_bool_iff in E. contradiction.
Qed.

Lemma py_div_zero (a b : Q) : b == 0 -> py_div a b = Raise ZeroDivisionError.
Proof.
  intros Hb. unfold py_div. apply Qeq_bool_iff in Hb. now rewrite Hb.
Qed.

Lemma length_nonzero (n : Z) (w : list Z) :
  ~ inject_Z (Z.of_nat (length (n :: w))) == 0.
Proof.
  intros H. unfold Qeq in H. simpl in H. lia.
Qed.

(** The average is computed without an error on a window that is not
    empty. *)
Lemma calculate_density_mean (c : TrafficDensityCalculator) :
  vehicle_counts c <> [] ->
  calculate_density c
  = match py_div (mean (vehicle_counts c)) (congestion_threshold c) with
    | Ok density => Ok (py_min 1 density)
    | Raise e => Raise e
    end.
Proof.
  intros Hw. unfold calculate_density, mean.
  destruct (vehicle_counts c) as [|n w] eqn:E; [congruence|].
  now rewrite (py_div_ok _ _ (length_nonzero n w)).
Qed.

Lemma calculate_density_unit (c : TrafficDensityCalculator) :
  0 < congestion_threshold c ->
  Forall (fun n => (0 <= n)%Z) (vehicle_counts c) ->
  in_unit (calculate_density c).
Proof.
  intros Hthr Hw. unfold in_unit.
  destruct (vehicle_counts c) as [|n w] eqn:E.
  - exists 0. unfold calculate_density. rewrite E. repeat split; lra.
  - rewrite calculate_density_mean by (rewrite E; discriminate).
    rewrite py_div_ok by lra.
    eexists. split; [reflexivity|].
    pose proof (mean_nonneg _ Hw) as Hm. rewrite E.
    assert (0 <= mean (n :: w) / congestion_threshold c).
    { apply Qle_shift_div_l; [exact Hthr | lra]. }
    unfold py_min. destruct (Qlt_le_dec _ _); split; lra.
Qed.

Lemma update_unit (n : Z) (now : Q) (c : TrafficDensityCalculator) :
  0 < congestion_threshold c ->
  Forall (fun n => (0 <= n)%Z) (vehicle_counts c) ->
  Forall (fun d => 0 <= d /\ d <= 1) (density_history c) ->
  (0 <= n)%Z ->
  in_unit (fst (update n now c)) /\
  congestion_threshold (snd (update n now c)) = congestion_threshold c /\
  Forall (fun n => (0 <= n)%Z) (vehicle_counts (snd (update n now c))) /\
  Forall (fun d => 0 <= d /\ d <= 1) (density_history (snd (update n now c))).
Proof.
  intros Hthr Hw Hh Hn. unfold update.
  set (c1 := {| window_size := window_size c;
                congestion_threshold := congestion_threshold c;
                vehicle_counts := deque_append (window_size c) (vehicle_counts c) n;
                density_history := density_history c;
                last_update_time := now |}).
  assert (Hw1 : Forall (fun n => (0 <= n)%Z) (vehicle_counts c1)).
  { apply deque_append_Forall; assumption. }
  destruct (calculate_density_unit c1 Hthr Hw1) as (d & Hd & Hd0 & Hd1).
  rewrite Hd. simpl. repeat split; try assumption.
  - exists d. auto.
  - apply deque_append_Forall; auto.
Qed.

End DensityFacts.

Module DensityClaims.
Import Density DensityFacts.

(** C6.  [calculate_density] returns 0 on an empty window and otherwise
    [min(1.0, mean(window) / congestion_threshold)]; after any run of
    [update] calls on a new calculator the window is exactly the last
    [window_size] samples, oldest first; with samples 5, 10, 15, 100, a
    window of 3 and a threshold of 15 the window is [10, 15, 100] and the
    density is 1. *)
Theorem calculate_density_window
    (c : TrafficDensityCalculator) (W : nat) (thr t0 : Q) (samples : list (Q * Z)) :
  (vehicle_counts c = [] -> calculate_density c = Ok 0) /\
  (vehicle_counts c <> [] ->
   calculate_density c
   = match py_div (mean (vehicle_counts c)) (congestion_threshold c) with
     | Ok density => Ok (Qmin 1 density)
     | Raise e => Raise e
     end /\
   (~ congestion_threshold c == 0 ->
    calculate_density c
    = Ok (Qmin 1 (mean (vehicle_counts c) / congestion_threshold c)))) /\
  vehicle_counts (snd (feed samples (init W thr t0))) = lastn W (map snd samples) /\
  (let e := snd (feed [(1, 5%Z); (2, 10%Z); (3, 15%Z); (4, 100%Z)] (init 3 15 0)) in
   vehicle_counts e = [10; 15; 100]%Z /\ calculate_density e = Ok 1).
Proof.
  split; [|split; [|split]].
  - intros Hw. unfold calculate_density. now rewrite Hw.
  - intros Hw. rewrite (calculate_density_mean c Hw). split.
    + destruct (py_div _ _); [now rewrite py_min_Qmin | reflexivity].
    + intros Hthr. rewrite (py_div_ok _ _ Hthr). now rewrite py_min_Qmin.
  - destruct (feed_window samples (init W thr t0)) as [_ H].
    + simpl. lia.
    + exact H.
  - split; vm_compute; reflexivity.
Qed.

Lemma calculate_density_window_witness :
  calculate_density (snd (update 20 1 (init 10 15 0))) = Ok (Qmin 1 (mean [20%Z] / 15)).
Proof.
  apply (proj1 (proj2 (calculate_density_window
                         (snd (update 20 1 (init 10 15 0))) 10 15 0 []))).
  - vm_compute. discriminate.
  - vm_compute. discriminate.
Defined.


(** The invariant of C7 on valid input.  With a positive congestion
    threshold and counts that are never negative, every density that a run
    of [update] calls returns, every entry of [density_history] and the
    value of [calculate_density] afterwards are in [0, 1]. *)
Theorem density_unit_interval
    (c : TrafficDensityCalculator) (samples : list (Q * Z)) :
  0 < congestion_threshold c ->
  Forall (fun n => (0 <= n)%Z) (vehicle_counts c) ->
  Forall (fun d => 0 <= d /\ d <= 1) (density_history c) ->
  Forall (fun s => (0 <= snd s)%Z) samples ->
  Forall in_unit (fst (feed samples c)) /\
  Forall (fun d => 0 <= d /\ d <= 1) (density_history (snd (feed samples c))) /\
  in_unit (calculate_density (snd (feed samples c))).
Proof.
  revert c. induction samples as [|[now n] rest IH]; intros c Hthr Hw Hh Hs.
  - simpl. repeat split; [constructor | exact Hh |].
    now apply calculate_density_unit.
  - inversion Hs as [|? ? Hn Hrest]; subst. simpl in Hn.
    destruct (update_unit n now c Hthr Hw Hh Hn) as (Hr & Ht & Hw1 & Hh1).
    simpl. destruct (update n now c) as [r c1] eqn:Hup. simpl in *.
    rewrite <- Ht in Hthr.
    specialize (IH c1 Hthr Hw1 Hh1 Hrest).
    destruct (feed rest c1) as [rs c2]. simpl in *.
    destruct IH as (IH1 & IH2 & IH3). repeat split; auto.
Qed.

Lemma density_unit_interval_witness :
  Forall in_unit (fst (feed [(1, 5%Z); (2, 40%Z)] (init 10 15 0))) /\
  Forall (fun d => 0 <= d /\ d <= 1)
         (density_history (snd (feed [(1, 5%Z); (2, 40%Z)] (init 10 15 0)))) /\
  in_unit (calculate_density (snd (feed [(1, 5%Z); (2, 40%Z)] (init 10 15 0)))).
Proof.
  apply (density_unit_interval (init 10 15 0) [(1, 5%Z); (2, 40%Z)]).
  - reflexivity.
  - constructor.
  - constructor.
  - repeat constructor; simpl; lia.
Defined.

End DensityClaims.

(** ** Traffic light *)

Module LightFacts.
Import Light.

Lemma next_phase_green : next_phase "green" = "yellow".
Proof. reflexivity. Qed.

Lemma next_phase_yellow : next_phase "yellow" = "red".
Proof. reflexivity. Qed.

Lemma next_phase_red : next_phase "red" = "green".
Proof. reflexivity. Qed.

(** The successor is one of the three phases, whatever the argument. *)
Lemma next_phase_cases (p : string) :
  (p = "green" /\ next_phase p = "yellow") \/
  (p = "yellow" /\ next_phase p = "red") \/
  (p <> "green" /\ p <> "yellow" /\ next_phase p = "green").
Proof.
  unfold next_phase. repeat case_decide; subst; auto.
Qed.

Lemma next_phase_moves (p : string) : next_phase p <> p.
Proof.
  destruct (next_phase_cases p) as [[-> ->] | [[-> ->] | (Hg & _ & ->)]];
    [discriminate | discriminate | congruence].
Qed.

Lemma next_phase_not_two (p : string) : next_phase p <> next_phase (next_phase p).
Proof. intros H. symmetry in H. exact (next_phase_moves _ H). Qed.

Lemma get_current_phase_cases (now : Q) (h : heap) (l : TrafficLight) :
  (exists e, get_current_phase now h l = (Raise e, l)) \/
  get_current_phase now h l = (Ok (current_phase l), l) \/
  get_current_phase now h l
  = (Ok (next_phase (current_phase l)),
     set_phase (next_phase (current_phase l)) now l).
Proof.
  unfold get_current_phase.
  destruct (table h l !! current_phase l) as [d|]; [|left; eauto].
  destruct (Qle_bool d (now - phase_start_time l)); right; [right | left];
    reflexivity.
Qed.

Lemma adjust_timing_phase (p : string) (x now : Q) (h : heap) (l : TrafficLight) :
  current_phase (snd (adjust_timing p x now h l)) = current_phase l.
Proof.
  unfold adjust_timing. destruct (table h l !! p); reflexivity.
Qed.

(** A call other than [force_phase] either observes nothing and leaves the
    phase, or is a [get_current_phase] that returns the phase it leaves the
    light in, which is the old phase or its successor. *)
Lemma exec_step (c : call) (s : heap * TrafficLight) :
  is_force c = false ->
  let p := current_phase (snd s) in
  let p' := current_phase (snd (snd (exec c s))) in
  (fst (exec c s) = None /\ p' = p) \/
  (fst (exec c s) = Some p' /\ (p' = p \/ p' = next_phase p)).
Proof.
  destruct s as [h l]. destruct c as [now | ph x now | now | ph now];
    simpl; intros Hf; try discriminate.
  - destruct (get_current_phase_cases now h l) as [[e ->] | [-> | ->]]; simpl;
      auto.
  - pose proof (adjust_timing_phase ph x now h l) as Hp.
    destruct (adjust_timing ph x now h l) as [[ok h'] l']. simpl in *. auto.
  - auto.
Qed.

Lemma run_follows_cycle (cs : list call) (s : heap * TrafficLight) :
  forallb (fun c => negb (is_force c)) cs = true ->
  follows_cycle (current_phase (snd s)) (fst (run cs s)).
Proof.
  revert s. induction cs as [|c rest IH]; intros s Hcs; [exact I|].
  simpl in Hcs. apply andb_true_iff in Hcs as [Hc Hrest].
  apply negb_true_iff in Hc.
  pose proof (exec_step c s Hc) as Hstep. simpl in Hstep.
  simpl. destruct (exec c s) as [o s1] eqn:He.
  specialize (IH s1 Hrest). destruct (run rest s1) as [os s2]. simpl in *.
  destruct Hstep as [[-> Hp] | [-> Hp]].
  - now rewrite <- Hp.
  - split; [exact Hp | exact IH].
Qed.

(** [adjust_timing] writes one entry of the table of the light. *)
Lemma adjust_timing_store (p : string) (x now : Q) (h : heap) (l : TrafficLight) :
  let '(ok, h', l') := adjust_timing p x now h l in
  timing l' = timing l /\
  ((ok = false /\ h' = h /\ table h l !! p = None) \/
   (ok = true /\ is_Some (table h l !! p) /\
    exists v, h' = <[timing l := <[p := v]> (table h l)]> h /\
              v = (if decide (p = "yellow")
                   then (if Qltb x 3 then 3 else x) else x))).
Proof.
  unfold adjust_timing. destruct (table h l !! p) as [old|] eqn:E; simpl.
  - split; [reflexivity|]. right. repeat split; eauto.
  - split; [reflexivity|]. now left.
Qed.

Lemma yellow_safe_insert (h : heap) (a : positive) (p : string) (v : Q) :
  yellow_safe h -> (p = "yellow" -> 3 <= v) ->
  yellow_safe (<[a := <[p := v]> (h !!! a)]> h).
Proof.
  intros Hsafe Hv b t y Hb Ht.
  destruct (decide (a = b)) as [<- | Hne].
  - rewrite lookup_insert_eq in Hb. inversion Hb; subst; clear Hb.
    destruct (decide (p = "yellow")) as [-> | Hp].
    + rewrite lookup_insert_eq in Ht. inversion Ht; subst. now apply Hv.
    + rewrite lookup_insert_ne in Ht by exact Hp.
      rewrite lookup_total_alt in Ht.
      destruct (h !! a) as [t0|] eqn:Ha; simpl in Ht.
      * exact (Hsafe a t0 y Ha Ht).
      * rewrite lookup_empty in Ht. discriminate.
  - rewrite lookup_insert_ne in Hb by exact Hne. exact (Hsafe b t y Hb Ht).
Qed.

Lemma yellow_floor_value (x : Q) : 3 <= (if Qltb x 3 then 3 else x).
Proof.
  destruct (Qltb x 3) eqn:E; [lra|]. now apply Qltb_false in E.
Qed.

Lemma adjust_timing_yellow_safe (p : string) (x now : Q) (h : heap) (l : TrafficLight) :
  yellow_safe h -> yellow_safe (snd (fst (adjust_timing p x now h l))).
Proof.
  intros Hsafe. pose proof (adjust_timing_store p x now h l) as H.
  destruct (adjust_timing p x now h l) as [[ok h'] l']. simpl.
  destruct H as [_ [(_ & -> & _) | (_ & _ & v & -> & ->)]]; [exact Hsafe|].
  apply yellow_safe_insert; [exact Hsafe|].
  intros ->. rewrite decide_True by reflexivity. apply yellow_floor_value.
Qed.

Lemma exec_yellow_safe (c : call) (s : heap * TrafficLight) :
  yellow_safe (fst s) -> yellow_safe (fst (snd (exec c s))).
Proof.
  destruct s as [h l]. intros Hsafe.
  destruct c as [now | ph x now | now | ph now]; simpl.
  - destruct (get_current_phase now h l) as [[q | e] l']; exact Hsafe.
  - pose proof (adjust_timing_yellow_safe ph x now h l Hsafe) as H.
    destruct (adjust_timing ph x now h l) as [[ok h'] l']. exact H.
  - exact Hsafe.
  - exact Hsafe.
Qed.

Lemma run_yellow_safe (cs : list call) (s : heap * TrafficLight) :
  yellow_safe (fst s) -> yellow_safe (fst (snd (run cs s))).
Proof.
  revert s. induction cs as [|c rest IH]; intros s Hsafe; [exact Hsafe|].
  simpl. pose proof (exec_yellow_safe c s Hsafe) as H1.
  destruct (exec c s) as [o s1]. specialize (IH s1 H1).
  destruct (run rest s1) as [os s2]. exact IH.
Qed.

(** The phase of a light is one of the three, whatever is called on it:
    the last branch of [transition_to_next_phase] is taken from red only. *)
Lemma next_phase_valid (p : string) : valid_phase (next_phase p).
Proof.
  unfold valid_phase.
  destruct (next_phase_cases p) as [[_ ->] | [[_ ->] | (_ & _ & ->)]];
    set_solver.
Qed.

Lemma exec_valid_phase (c : call) (s : heap * TrafficLight) :
  valid_phase (current_phase (snd s)) ->
  valid_phase (current_phase (snd (snd (exec c s)))).
Proof.
  destruct s as [h l]. intros Hv.
  destruct c as [now | ph x now | now | ph now]; simpl.
  - destruct (get_current_phase_cases now h l) as [[e ->] | [-> | ->]]; simpl;
      [exact Hv | exact Hv | apply next_phase_valid].
  - pose proof (adjust_timing_phase ph x now h l) as Hp.
    destruct (adjust_timing ph x now h l) as [[ok h'] l']. simpl in *.
    now rewrite Hp.
  - exact Hv.
  - unfold force_phase. case_bool_decide as Hin; simpl; [exact Hin | exact Hv].
Qed.

Lemma run_valid_phase (cs : list call) (s : heap * TrafficLight) :
  valid_phase (current_phase (snd s)) ->
  valid_phase (current_phase (snd (snd (run cs s)))).
Proof.
  revert s. induction cs as [|c rest IH]; intros s Hv; [exact Hv|].
  simpl. pose proof (exec_valid_phase c s Hv) as H1.
  destruct (exec c s) as [o s1]. specialize (IH s1 H1).
  destruct (run rest s1) as [os s2]. exact IH.
Qed.

Lemma default_timing_yellow : default_timing !! "yellow" = Some 5.
Proof. reflexivity. Qed.

Lemma init_yellow_safe (id : string) (it : option positive) (now : Q) (h : heap) :
  yellow_safe h -> yellow_safe (fst (init id it now h)).
Proof.
  intros Hsafe. destruct it as [a|]; simpl; [exact Hsafe|].
  intros b t y Hb Ht.
  destruct (decide (fresh (dom h) = b)) as [<- | Hne].
  - rewrite lookup_insert_eq in Hb. inversion Hb; subst.
    rewrite default_timing_yellow in Ht. inversion Ht; subst. lra.
  - rewrite lookup_insert_ne in Hb by exact Hne. exact (Hsafe b t y Hb Ht).
Qed.

End LightFacts.

Module LightClaims.
Import Light LightFacts.

(** C2.  A new light is red.  Over any run of calls without [force_phase],
    the phases returned by [get_current_phase] start from red and each one
    is the phase before it or that phase's successor in the cycle green,
    yellow, red, green; every call other than [force_phase] leaves the
    phase or moves it to the successor, and [force_phase] can enter a phase
    that is neither. *)
Theorem phase_cycle
    (id : string) (initial_timing : option positive) (t0 : Q) (h : heap)
    (cs : list call) :
  forallb (fun c => negb (is_force c)) cs = true ->
  current_phase (snd (init id initial_timing t0 h)) = "red" /\
  follows_cycle "red" (fst (run cs (init id initial_timing t0 h))) /\
  (next_phase "green" = "yellow" /\ next_phase "yellow" = "red" /\
   next_phase "red" = "green") /\
  (forall c s, is_force c = false ->
     current_phase (snd (snd (exec c s))) = current_phase (snd s) \/
     current_phase (snd (snd (exec c s))) = next_phase (current_phase (snd s))) /\
  (exists p now l,
     fst (force_phase p now l) = true /\
     current_phase (snd (force_phase p now l)) <> current_phase l /\
     current_phase (snd (force_phase p now l)) <> next_phase (current_phase l)).
Proof.
  intros Hcs.
  assert (Hred : current_phase (snd (init id initial_timing t0 h)) = "red").
  { unfold init. destruct initial_timing; reflexivity. }
  split; [exact Hred|]. split.
  { rewrite <- Hred. now apply run_follows_cycle. }
  split; [repeat split; reflexivity|]. split.
  - intros c s Hc. destruct (exec_step c s Hc) as [[_ H] | [_ H]]; auto.
  - exists "yellow", 0, (snd (init "L" None 0 ∅)).
    repeat split; vm_compute; discriminate.
Qed.

Lemma phase_cycle_witness :
  follows_cycle "red"
    (fst (run [GetCurrentPhase 10; GetCurrentPhase 31; AdjustTiming "green" 20 32;
               GetCurrentPhase 40; GetCurrentPhase 200; GetCurrentPhase 205]
              (init "L1" None 0 ∅))).
Proof.
  apply (phase_cycle "L1" None 0 ∅
           [GetCurrentPhase 10; GetCurrentPhase 31; AdjustTiming "green" 20 32;
            GetCurrentPhase 40; GetCurrentPhase 200; GetCurrentPhase 205]).
  reflexivity.
Defined.

(** C10.  When the time since the phase started has reached the duration of
    the phase, by however much, one call of [get_current_phase] returns the
    successor of the phase, which is neither the phase itself nor two steps
    ahead, and the phase start becomes the time of the call. *)
Theorem get_current_phase_one_transition
    (now : Q) (h : heap) (l : TrafficLight) (duration : Q) :
  table h l !! current_phase l = Some duration ->
  duration <= now - phase_start_time l ->
  fst (get_current_phase now h l) = Ok (next_phase (current_phase l)) /\
  current_phase (snd (get_current_phase now h l)) = next_phase (current_phase l) /\
  next_phase (current_phase l) <> current_phase l /\
  next_phase (current_phase l) <> next_phase (next_phase (current_phase l)) /\
  phase_start_time (snd (get_current_phase now h l)) = now.
Proof.
  intros Ht Hel. unfold get_current_phase. rewrite Ht.
  apply Qle_bool_iff in Hel. rewrite Hel. simpl.
  repeat split; [apply next_phase_moves | apply next_phase_not_two].
Qed.

Lemma get_current_phase_one_transition_witness :
  fst (get_current_phase 1000 (fst (init "L1" None 0 ∅)) (snd (init "L1" None 0 ∅)))
  = Ok "green".
Proof.
  apply (get_current_phase_one_transition 1000
           (fst (init "L1" None 0 ∅)) (snd (init "L1" None 0 ∅)) 30).
  - reflexivity.
  - vm_compute. discriminate.
Defined.

(** The floor of the yellow time, where the code applies it.  When
    [adjust_timing('yellow', x)] succeeds the yellow time of the light is 3
    for [x < 3] and [x] for [x >= 3].  The constructor with no table gives a
    yellow time of 5; from a store in which every yellow time is at least 3,
    the constructor and every run of calls lead to such a store again. *)
Lemma adjust_timing_yellow_floor
    (h : heap) (l : TrafficLight) (x now : Q) (cs : list call)
    (id : string) (initial_timing : option positive) (t0 : Q) :
  (fst (fst (adjust_timing "yellow" x now h l)) = true ->
   (x < 3 ->
    table (snd (fst (adjust_timing "yellow" x now h l)))
          (snd (adjust_timing "yellow" x now h l)) !! "yellow" = Some 3) /\
   (3 <= x ->
    table (snd (fst (adjust_timing "yellow" x now h l)))
          (snd (adjust_timing "yellow" x now h l)) !! "yellow" = Some x)) /\
  (yellow_safe h ->
   yellow_safe (fst (init id initial_timing t0 h)) /\
   yellow_safe (fst (snd (run cs (h, l))))).
Proof.
  split.
  - intros Hok. pose proof (adjust_timing_store "yellow" x now h l) as H.
    destruct (adjust_timing "yellow" x now h l) as [[ok h'] l']. simpl in *.
    destruct H as [Ht [(Hf & _) | (_ & _ & v & -> & ->)]]; [congruence|].
    unfold table at 1 3. rewrite Ht, lookup_total_insert_eq, lookup_insert_eq.
    split; intros Hx.
    + apply Qltb_spec in Hx. now rewrite Hx.
    + apply Qltb_false in Hx. now rewrite Hx.
  - intros Hsafe. split.
    + now apply init_yellow_safe.
    + now apply (run_yellow_safe cs (h, l)).
Qed.

(** C3, at the failing input.  The constructor called with a table of the
    caller whose yellow time is 1 gives a light whose yellow time is 1,
    under the floor of 3 that [adjust_timing] applies: the yellow time is not
    at least 3 in every reachable state. *)
Theorem init_keeps_short_yellow :
  let caller : heap :=
    {[ 1%positive := <["green" := 30]> (<["yellow" := 1]> (<["red" := 30]> ∅)) ]} in
  let s := init "L1" (Some 1%positive) 0 caller in
  table (fst s) (snd s) !! "yellow" = Some 1 /\
  ~ 3 <= 1 /\
  table (snd (fst (adjust_timing "yellow" 1 0 (fst s) (snd s))))
        (snd (adjust_timing "yellow" 1 0 (fst s) (snd s))) !! "yellow" = Some 3.
Proof.
  split; [reflexivity|]. split; [|reflexivity].
  intros H. vm_compute in H. now apply H.
Qed.

End LightClaims.

(** ** Truncation to integer seconds *)

Lemma py_int_inject_Z (n : Z) : py_int (inject_Z n) = n.
Proof. unfold py_int. simpl. apply Z.quot_1_r. Qed.

Lemma py_int_Qeq (x y : Q) : x == y -> py_int x = py_int y.
Proof.
  unfold Qeq, py_int. intros H.
  rewrite <- (Z.quot_mul_cancel_r (Qnum x) (Zpos (Qden x)) (Zpos (Qden y)))
    by discriminate.
  rewrite H.
  rewrite (Z.mul_comm (Zpos (Qden x)) (Zpos (Qden y))).
  apply Z.quot_mul_cancel_r; discriminate.
Qed.

Lemma py_int_le_upper (x : Q) (n : Z) : x <= inject_Z n -> (py_int x <= n)%Z.
Proof.
  unfold Qle, py_int. simpl. rewrite Z.mul_1_r. intros H.
  rewrite <- (Z.quot_mul n (Zpos (Qden x))) by discriminate.
  apply Z.quot_le_mono; [reflexivity | exact H].
Qed.

Lemma py_int_le_lower (x : Q) (n : Z) : inject_Z n <= x -> (n <= py_int x)%Z.
Proof.
  unfold Qle, py_int. simpl. rewrite Z.mul_1_r. intros H.
  rewrite <- (Z.quot_mul n (Zpos (Qden x))) at 1 by discriminate.
  apply Z.quot_le_mono; [reflexivity | exact H].
Qed.

(** Truncating and then clamping between two integers is clamping and then
    truncating. *)
Lemma py_int_clamp (x : Q) (lo hi : Z) :
  (lo <= hi)%Z ->
  Z.max lo (Z.min hi (py_int x))
  = py_int (Qmax (inject_Z lo) (Qmin (inject_Z hi) x)).
Proof.
  intros Hlh.
  destruct (Qlt_le_dec x (inject_Z lo)) as [Hlow | Hlow].
  - assert (E : Qmax (inject_Z lo) (Qmin (inject_Z hi) x) == inject_Z lo).
    { apply Q.max_l. apply Q.min_le_iff. right. now apply Qlt_le_weak. }
    rewrite (py_int_Qeq _ _ E), py_int_inject_Z.
    pose proof (py_int_le_upper x lo (Qlt_le_weak _ _ Hlow)). lia.
  - destruct (Qlt_le_dec (inject_Z hi) x) as [Hhigh | Hhigh].
    + assert (E : Qmax (inject_Z lo) (Qmin (inject_Z hi) x) == inject_Z hi).
      { rewrite Q.min_l by now apply Qlt_le_weak.
        apply Q.max_r. now rewrite <- Zle_Qle. }
      rewrite (py_int_Qeq _ _ E), py_int_inject_Z.
      pose proof (py_int_le_lower x hi (Qlt_le_weak _ _ Hhigh)). lia.
    + assert (E : Qmax (inject_Z lo) (Qmin (inject_Z hi) x) == x).
      { rewrite Q.min_r by exact Hhigh. now apply Q.max_r. }
      rewrite (py_int_Qeq _ _ E).
      pose proof (py_int_le_upper x hi Hhigh).
      pose proof (py_int_le_lower x lo Hlow). lia.
Qed.

(** ** Float arithmetic *)

Module FloatFacts.
Import Float.

Lemma rne_floor (q : Q) : (Qfloor q <= rne q <= Qfloor q + 1)%Z.
Proof.
  unfold rne. destruct (Qcompare _ _); [destruct (Z.even _)| |]; lia.
Qed.

Lemma rne_comp (q1 q2 : Q) : q1 == q2 -> rne q1 = rne q2.
Proof.
  intros E. unfold rne. rewrite (Qfloor_comp _ _ E).
  assert (E' : q1 - inject_Z (Qfloor q2) == q2 - inject_Z (Qfloor q2))
    by (rewrite E; reflexivity).
  now rewrite (Qcompare_comp _ _ E' _ _ (Qeq_refl (1 # 2))).
Qed.

Lemma rne_Z (n : Z) : rne (inject_Z n) = n.
Proof.
  unfold rne. rewrite Qfloor_Z.
  assert (E : inject_Z n - inject_Z n == 0) by ring.
  rewrite (Qcompare_comp _ _ E _ _ (Qeq_refl _)). reflexivity.
Qed.

Lemma rne_mono (q1 q2 : Q) : q1 <= q2 -> (rne q1 <= rne q2)%Z.
Proof.
  intros Hle. pose proof (Qfloor_resp_le _ _ Hle) as Hf.
  pose proof (rne_floor q1). pose proof (rne_floor q2).
  destruct (Z.eq_dec (Qfloor q1) (Qfloor q2)) as [E | Hne]; [|lia].
  unfold rne in *. rewrite <- E in *.
  destruct (Qcompare (q1 - inject_Z (Qfloor q1)) (1 # 2)) eqn:C1;
    destruct (Qcompare (q2 - inject_Z (Qfloor q1)) (1 # 2)) eqn:C2;
    try lia; try (destruct (Z.even (Qfloor q1)); lia); exfalso.
  - apply Qeq_alt in C1. apply Qlt_alt in C2. lra.
  - apply Qgt_alt in C1. apply Qeq_alt in C2. lra.
  - apply Qgt_alt in C1. apply Qlt_alt in C2. lra.
Qed.

Lemma rne_near (q : Q) :
  q - (1 # 2) <= inject_Z (rne q) /\ inject_Z (rne q) <= q + (1 # 2).
Proof.
  pose proof (Qfloor_le q). pose proof (Qlt_floor q) as Hlt.
  rewrite inject_Z_plus in Hlt. change (inject_Z 1) with 1 in Hlt.
  unfold rne.
  destruct (Qcompare (q - inject_Z (Qfloor q)) (1 # 2)) eqn:C.
  - apply Qeq_alt in C.
    destruct (Z.even _); rewrite ?inject_Z_plus; change (inject_Z 1) with 1; lra.
  - apply Qlt_alt in C. lra.
  - apply Qgt_alt in C. rewrite inject_Z_plus. change (inject_Z 1) with 1. lra.
Qed.

Lemma pow2_pos (k : Z) : (0 <= k)%Z -> 0 < inject_Z (2 ^ k).
Proof.
  intros Hk. change 0 with (inject_Z 0). rewrite <- Zlt_Qlt.
  now apply Z.pow_pos_nonneg.
Qed.

Lemma ulp_exp_nonneg (z : Q) : (0 <= ulp_exp z)%Z.
Proof. unfold ulp_exp. lia. Qed.

Lemma ulp_exp_mono (z1 z2 : Q) : z1 <= z2 -> (ulp_exp z1 <= ulp_exp z2)%Z.
Proof.
  intros H. unfold ulp_exp.
  pose proof (Z.log2_le_mono _ _ (Qfloor_resp_le _ _ H)). lia.
Qed.

Lemma ulp_exp_comp (z1 z2 : Q) : z1 == z2 -> ulp_exp z1 = ulp_exp z2.
Proof. intros E. unfold ulp_exp. now rewrite (Qfloor_comp _ _ E). Qed.

(** A size is under [2^53] units of its last place... *)
Lemma below_top (z : Q) : 0 <= z -> z < inject_Z (2 ^ (ulp_exp z + 53)).
Proof.
  intros Hz. pose proof (Qlt_floor z) as Hlt.
  apply Qlt_le_trans with (1 := Hlt). rewrite <- Zle_Qle.
  assert (Hf : (0 <= Qfloor z)%Z).
  { rewrite <- (Qfloor_Z 0). now apply Qfloor_resp_le. }
  unfold ulp_exp.
  destruct (Z.eq_dec (Qfloor z) 0%Z) as [-> | Hne].
  - change (Z.log2 0%Z) with 0%Z. rewrite Z.max_l by lia.
    change (0 + 1)%Z with (2 ^ 0)%Z. apply Z.pow_le_mono_r; lia.
  - destruct (Z.log2_spec (Qfloor z)) as [_ Hup]; [lia|].
    assert (Hp : (2 ^ Z.succ (Z.log2 (Qfloor z))
                  <= 2 ^ (Z.max 0 (Z.log2 (Qfloor z) - 52) + 53))%Z)
      by (apply Z.pow_le_mono_r; lia).
    lia.
Qed.

(** ... and, over the range of the smallest exponent, at least [2^52]. *)
Lemma above_bottom (z : Q) :
  (0 < ulp_exp z)%Z -> inject_Z (2 ^ (ulp_exp z + 52)) <= z.
Proof.
  unfold ulp_exp. intros Hk.
  apply Qle_trans with (2 := Qfloor_le z). rewrite <- Zle_Qle.
  assert (Hl : (52 < Z.log2 (Qfloor z))%Z) by lia.
  assert (Hf : (0 < Qfloor z)%Z).
  { destruct (Z.lt_ge_cases 0 (Qfloor z)) as [H | H]; [exact H|].
    rewrite Z.log2_nonpos in Hl by exact H. lia. }
  destruct (Z.log2_spec (Qfloor z) Hf) as [Hlow _].
  replace (Z.max 0 (Z.log2 (Qfloor z) - 52) + 52)%Z with (Z.log2 (Qfloor z)) by lia.
  exact Hlow.
Qed.

Lemma div_pow2_le (z : Q) (k n : Z) :
  (0 <= k)%Z -> z <= inject_Z (n * 2 ^ k) -> z / inject_Z (2 ^ k) <= inject_Z n.
Proof.
  intros Hk H. pose proof (pow2_pos k Hk) as Hp.
  apply Qle_shift_div_r; [exact Hp|]. now rewrite <- inject_Z_mult.
Qed.

Lemma div_pow2_ge (z : Q) (k n : Z) :
  (0 <= k)%Z -> inject_Z (n * 2 ^ k) <= z -> inject_Z n <= z / inject_Z (2 ^ k).
Proof.
  intros Hk H. pose proof (pow2_pos k Hk) as Hp.
  apply Qle_shift_div_l; [exact Hp|]. now rewrite <- inject_Z_mult.
Qed.

Lemma scaled_mono (z1 z2 : Q) : 0 <= z1 -> z1 <= z2 -> (scaled z1 <= scaled z2)%Z.
Proof.
  intros H0 Hle. unfold scaled.
  pose proof (ulp_exp_mono _ _ Hle) as Hk.
  pose proof (ulp_exp_nonneg z1) as Hk1.
  destruct (Z.eq_dec (ulp_exp z1) (ulp_exp z2)) as [E | Hne].
  - rewrite <- E. apply Z.mul_le_mono_nonneg_r; [apply Z.pow_nonneg; lia|].
    apply rne_mono. apply Qmult_le_compat_r; [exact Hle|].
    apply Qinv_le_0_compat. apply Qlt_le_weak. now apply pow2_pos.
  - assert (Hlt : (ulp_exp z1 < ulp_exp z2)%Z) by lia.
    assert (H1 : (rne (z1 / inject_Z (2 ^ ulp_exp z1)) <= 2 ^ 53)%Z).
    { rewrite <- (rne_Z (2 ^ 53)). apply rne_mono.
      apply div_pow2_le; [exact Hk1|].
      rewrite <- Z.pow_add_r by lia. rewrite Z.add_comm.
      apply Qlt_le_weak. now apply below_top. }
    assert (H2 : (2 ^ 52 <= rne (z2 / inject_Z (2 ^ ulp_exp z2)))%Z).
    { rewrite <- (rne_Z (2 ^ 52)) at 1. apply rne_mono.
      apply div_pow2_ge; [lia|].
      rewrite <- Z.pow_add_r by lia. rewrite Z.add_comm.
      apply above_bottom. lia. }
    apply Z.le_trans with (2 ^ 53 * 2 ^ ulp_exp z1)%Z.
    { apply Z.mul_le_mono_nonneg_r; [apply Z.pow_nonneg; lia | exact H1]. }
    apply Z.le_trans with (2 ^ 52 * 2 ^ ulp_exp z2)%Z.
    { rewrite <- !Z.pow_add_r by lia. apply Z.pow_le_mono_r; lia. }
    apply Z.mul_le_mono_nonneg_r; [apply Z.pow_nonneg; lia | exact H2].
Qed.

Lemma scaled_comp (z1 z2 : Q) : z1 == z2 -> scaled z1 = scaled z2.
Proof.
  intros E. unfold scaled. rewrite (ulp_exp_comp _ _ E).
  f_equal. apply rne_comp. now rewrite E.
Qed.

Lemma scaled_0 : scaled 0 = 0%Z.
Proof. reflexivity. Qed.

Lemma two_1074_pos : 0 < two_1074.
Proof. apply (pow2_pos 1074). lia. Qed.

Lemma round_pos_mono (x y : Q) : 0 <= x -> x <= y -> round_pos x <= round_pos y.
Proof.
  intros H0 Hle. unfold round_pos. pose proof two_1074_pos as Hp.
  apply Qmult_le_compat_r; [|apply Qinv_le_0_compat; now apply Qlt_le_weak].
  rewrite <- Zle_Qle. apply scaled_mono.
  - apply Qmult_le_0_compat; [exact H0 | now apply Qlt_le_weak].
  - apply Qmult_le_compat_r; [exact Hle | now apply Qlt_le_weak].
Qed.

Lemma round_pos_comp (x y : Q) : x == y -> round_pos x == round_pos y.
Proof.
  intros E. unfold round_pos.
  rewrite (scaled_comp (x * two_1074) (y * two_1074)) by now rewrite E.
  reflexivity.
Qed.

Lemma round_pos_nonneg (x : Q) : 0 <= x -> 0 <= round_pos x.
Proof.
  intros H0. assert (E : round_pos 0 == 0) by reflexivity.
  rewrite <- E. now apply round_pos_mono; [apply Qle_refl|].
Qed.

(** [round] by the sign of its argument. *)
Lemma round_cases (x : Q) :
  (x == 0 /\ round x = 0) \/
  (0 < x /\ round x = round_pos x) \/
  (x < 0 /\ round x = - round_pos (- x)).
Proof.
  destruct x as [n d]. unfold round, Qlt, Qeq. simpl.
  destruct n; [left | right; left | right; right]; split; try reflexivity; lia.
Qed.

Lemma round_mono (x y : Q) : x <= y -> round x <= round y.
Proof.
  intros Hle.
  destruct (round_cases x) as [[Hx ->] | [[Hx ->] | [Hx ->]]];
    destruct (round_cases y) as [[Hy ->] | [[Hy ->] | [Hy ->]]];
    try lra.
  - apply round_pos_nonneg. lra.
  - now apply round_pos_mono; [lra|].
  - pose proof (round_pos_nonneg (- x) ltac:(lra)). lra.
  - pose proof (round_pos_nonneg (- x) ltac:(lra)).
    pose proof (round_pos_nonneg y ltac:(lra)). lra.
  - pose proof (round_pos_mono (- y) (- x) ltac:(lra) ltac:(lra)). lra.
Qed.

Lemma round_comp (x y : Q) : x == y -> round x == round y.
Proof.
  intros E. apply Qle_antisym; apply round_mono; rewrite E; apply Qle_refl.
Qed.

(** *** The error of one rounding *)

Lemma Qeq_le (x y : Q) : x == y -> x <= y.
Proof. intros E. rewrite E. apply Qle_refl. Qed.

Lemma scaled_near (z : Q) :
  z - inject_Z (2 ^ ulp_exp z) / 2 <= inject_Z (scaled z) /\
  inject_Z (scaled z) <= z + inject_Z (2 ^ ulp_exp z) / 2.
Proof.
  pose proof (pow2_pos _ (ulp_exp_nonneg z)) as Hp.
  destruct (rne_near (z / inject_Z (2 ^ ulp_exp z))) as [Hlo Hhi].
  unfold scaled. rewrite inject_Z_mult.
  set (P := inject_Z (2 ^ ulp_exp z)) in *.
  set (R := inject_Z (rne (z / P))) in *.
  assert (Hne : ~ P == 0) by lra.
  split.
  - apply Qle_trans with ((z / P - (1 # 2)) * P).
    + apply Qeq_le. field. exact Hne.
    + apply Qmult_le_compat_r; [exact Hlo | lra].
  - apply Qle_trans with ((z / P + (1 # 2)) * P).
    + apply Qmult_le_compat_r; [exact Hhi | lra].
    + apply Qeq_le. field. exact Hne.
Qed.

Lemma ulp_exp_64 (x : Q) :
  0 <= x -> x <= 64 -> (ulp_exp (x * two_1074) <= 1028)%Z.
Proof.
  intros H0 H64. unfold ulp_exp.
  assert (Hz : x * two_1074 <= inject_Z (2 ^ 1080)).
  { apply Qle_trans with (64 * two_1074).
    - apply Qmult_le_compat_r; [exact H64|]. apply Qlt_le_weak, two_1074_pos.
    - apply Qeq_le. vm_compute. reflexivity. }
  pose proof (Qfloor_resp_le _ _ Hz) as Hf. rewrite Qfloor_Z in Hf.
  pose proof (Z.log2_le_mono _ _ Hf) as Hl.
  rewrite Z.log2_pow2 in Hl by lia. lia.
Qed.

Lemma round_pos_near (x : Q) :
  0 <= x -> x <= 64 ->
  x - (1 # 2 ^ 47) <= round_pos x /\ round_pos x <= x + (1 # 2 ^ 47).
Proof.
  intros H0 H64. unfold round_pos.
  pose proof two_1074_pos as HT.
  destruct (scaled_near (x * two_1074)) as [Hlo Hhi].
  pose proof (ulp_exp_64 x H0 H64) as Hk.
  pose proof (ulp_exp_nonneg (x * two_1074)) as Hk0.
  assert (HP : inject_Z (2 ^ ulp_exp (x * two_1074)) <= inject_Z (2 ^ 1028)).
  { rewrite <- Zle_Qle. apply Z.pow_le_mono_r; lia. }
  assert (Hd : inject_Z (2 ^ 1028) / 2 == (1 # 2 ^ 47) * two_1074)
    by (vm_compute; reflexivity).
  set (P := inject_Z (2 ^ ulp_exp (x * two_1074))) in *.
  set (S := inject_Z (scaled (x * two_1074))) in *.
  set (T := two_1074) in *.
  assert (Hh : P / 2 <= (1 # 2 ^ 47) * T).
  { rewrite <- Hd. apply Qmult_le_compat_r; [exact HP | discriminate]. }
  split.
  - apply Qle_shift_div_l; [exact HT|].
    apply Qle_trans with (2 := Hlo).
    apply Qle_trans with (x * T - (1 # 2 ^ 47) * T); [apply Qeq_le; ring | lra].
  - apply Qle_shift_div_r; [exact HT|].
    apply Qle_trans with (1 := Hhi).
    apply Qle_trans with (x * T + (1 # 2 ^ 47) * T); [lra | apply Qeq_le; ring].
Qed.

(** A number of absolute value up to 64 is rounded to within [2^-47]. *)
Lemma round_near (x : Q) :
  - (64) <= x -> x <= 64 ->
  x - (1 # 2 ^ 47) <= round x /\ round x <= x + (1 # 2 ^ 47).
Proof.
  intros Hlo Hhi.
  destruct (round_cases x) as [[Hx ->] | [[Hx ->] | [Hx ->]]].
  - rewrite Hx. split; discriminate.
  - apply round_pos_near; lra.
  - destruct (round_pos_near (- x)) as [H1 H2]; lra.
Qed.

(** Sums, differences and products of floats, against the exact ones. *)
Lemma literal_half : literal (1 # 2) == 1 # 2.
Proof. vm_compute. reflexivity. Qed.

End FloatFacts.

(** ** Controller *)

Module ControllerFacts.
Import Light LightFacts Controller.

Lemma adjust_timing_ok (p : string) (x now : Q) (h : heap) (l : TrafficLight) (old : Q) :
  table h l !! p = Some old -> p <> "yellow" ->
  adjust_timing p x now h l
  = (true, <[timing l := <[p := x]> (table h l)]> h,
     log_adjustment {| timestamp := now; phase := p; old_value := old;
                       new_value := x |} l).
Proof.
  intros Ht Hp. unfold adjust_timing. rewrite Ht.
  now rewrite decide_False by exact Hp.
Qed.

Lemma light_adjust_timing_ok (light_id p : string) (x now : Q) (s : state)
    (l : TrafficLight) (old : Q) :
  traffic_lights (snd s) !! light_id = Some l ->
  table (fst s) l !! p = Some old -> p <> "yellow" ->
  light_adjust_timing light_id p x now s
  = (Ok true,
     (<[timing l := <[p := x]> (table (fst s) l)]> (fst s),
      set_light light_id
        (log_adjustment {| timestamp := now; phase := p; old_value := old;
                           new_value := x |} l) (snd s))).
Proof.
  intros Hl Ht Hp. unfold light_adjust_timing, bind, get_light.
  rewrite Hl. now rewrite (adjust_timing_ok p x now (fst s) l old Ht Hp).
Qed.

Lemma table_insert (h : heap) (l l' : TrafficLight) (t : dict) :
  timing l' = timing l -> table (<[timing l := t]> h) l' = t.
Proof.
  intros E. unfold table. rewrite E. apply lookup_total_insert_eq.
Qed.

Lemma update_traffic_density_ok (light_id : string) (density now : Q) (s : state)
    (l : TrafficLight) (g r y : Q) :
  traffic_lights (snd s) !! light_id = Some l ->
  table (fst s) l !! "green" = Some g ->
  table (fst s) l !! "red" = Some r ->
  table (fst s) l !! "yellow" = Some y ->
  let G := inject_Z (new_green_time density) in
  let R := inject_Z (red_time density) in
  let l1 := log_adjustment {| timestamp := now; phase := "green";
                              old_value := g; new_value := G |} l in
  let l2 := log_adjustment {| timestamp := now; phase := "red";
                              old_value := r; new_value := R |} l1 in
  let t1 := <["green" := G]> (table (fst s) l) in
  update_traffic_density light_id density now s
  = (Ok true,
     (<[timing l := <["red" := R]> t1]> (<[timing l := t1]> (fst s)),
      set_light light_id l2
        (set_light light_id l1 (set_density light_id density (snd s))))).
Proof.
  intros Hl Hg Hr Hy G R l1 l2 t1. destruct s as [h c]. simpl in *.
  unfold update_traffic_density. simpl. rewrite Hl.
  unfold bind at 1. unfold modify at 1.
  unfold bind at 1. unfold _adjust_timing_based_on_density.
  unfold bind at 1. unfold get_light at 1. simpl. rewrite Hl.
  unfold bind at 1. simpl. rewrite Hy.
  unfold bind at 1.
  rewrite (light_adjust_timing_ok light_id "green" G now _ l g);
    [| exact Hl | exact Hg | discriminate].
  unfold bind at 1.
  rewrite (light_adjust_timing_ok light_id "red" R now _ l1 r).
  - cbn [fst snd]. rewrite (table_insert h l l1 _ eq_refl). reflexivity.
  - apply lookup_insert_eq.
  - cbn [fst snd]. rewrite (table_insert h l l1 _ eq_refl).
    rewrite lookup_insert_ne by discriminate. exact Hr.
  - discriminate.
Qed.

Lemma set_connected_twice (o o' : list string) (l : TrafficLight) :
  set_connected o (set_connected o' l) = set_connected o l.
Proof. reflexivity. Qed.

Lemma connect_lookup (light_ids : list string) (c : TrafficLightController)
    (a id : string) :
  traffic_lights (connect light_ids c a) !! id
  = if decide (a = id)
    then set_connected (filter (fun x => x ≠ id) light_ids)
           <$> traffic_lights c !! id
    else traffic_lights c !! id.
Proof.
  unfold connect. case_decide as E.
  - subst a. destruct (traffic_lights c !! id) as [l|] eqn:El; simpl.
    + apply lookup_insert_eq.
    + exact El.
  - destruct (traffic_lights c !! a); [|reflexivity].
    simpl. now apply lookup_insert_ne.
Qed.

Lemma connect_rest (light_ids : list string) (c : TrafficLightController) (a : string) :
  traffic_densities (connect light_ids c a) = traffic_densities c /\
  coordination_groups (connect light_ids c a) = coordination_groups c.
Proof. unfold connect. destruct (traffic_lights c !! a); auto. Qed.

Lemma connect_all (light_ids ids : list string) (c : TrafficLightController) :
  let c' := fold_left (connect light_ids) ids c in
  (forall id,
     traffic_lights c' !! id
     = if decide (id ∈ ids)
       then set_connected (filter (fun x => x ≠ id) light_ids)
              <$> traffic_lights c !! id
       else traffic_lights c !! id) /\
  traffic_densities c' = traffic_densities c /\
  coordination_groups c' = coordination_groups c.
Proof.
  revert c. induction ids as [|a ids IH]; intros c; cbv zeta;
    cbn [fold_left].
  - split; [|split; reflexivity].
    intros id. rewrite decide_False; [reflexivity|].
    apply not_elem_of_nil.
  - destruct (IH (connect light_ids c a)) as (Hl & Hd & Hg).
    destruct (connect_rest light_ids c a) as [Hd' Hg'].
    split; [|split; congruence].
    intros id. rewrite Hl, connect_lookup.
    destruct (decide (a = id)) as [-> | Hne].
    + rewrite (decide_True (P := id ∈ id :: ids)) by apply list_elem_of_here.
      case_decide; [|reflexivity].
      destruct (traffic_lights c !! id); reflexivity.
    + destruct (decide (id ∈ ids)) as [Hin | Hnin].
      * rewrite decide_True by (now apply list_elem_of_further). reflexivity.
      * rewrite decide_False; [reflexivity|].
        intros Hc. apply elem_of_cons in Hc as [-> | Hc]; congruence.
Qed.

Lemma registered_all (light_ids : list string) (c : TrafficLightController) :
  forallb (fun light_id => bool_decide (is_Some (traffic_lights c !! light_id)))
          light_ids = true
  <-> (forall id, id ∈ light_ids -> is_Some (traffic_lights c !! id)).
Proof.
  rewrite forallb_forall. split; intros H id Hin.
  - apply list_elem_of_In in Hin. apply H in Hin.
    now apply bool_decide_eq_true in Hin.
  - apply bool_decide_eq_true. apply H. now apply list_elem_of_In.
Qed.

(** *** The search for the densest light *)

Lemma find_max_below (c : TrafficLightController) (ids : list string)
    (acc : Q * option string) (D : Q) :
  fst acc < D ->
  Forall (fun m => density_of c m < D) ids ->
  fst (fold_left (find_max_step (traffic_densities c)) ids acc) < D.
Proof.
  revert acc. induction ids as [|a ids IH]; intros [m o] Hacc Hall; [exact Hacc|].
  inversion Hall as [|? ? Ha Hrest]; subst. simpl. apply IH; [|exact Hrest].
  fold (density_of c a). destruct (Qltb m (density_of c a)); simpl; assumption.
Qed.

Lemma find_max_keep (c : TrafficLightController) (ids : list string)
    (D : Q) (o : option string) :
  Forall (fun m => density_of c m <= D) ids ->
  fold_left (find_max_step (traffic_densities c)) ids (D, o) = (D, o).
Proof.
  induction 1 as [|a ids Ha _ IH]; [reflexivity|].
  simpl. fold (density_of c a).
  apply Qltb_false in Ha. rewrite Ha. exact IH.
Qed.

Lemma first_max_split (c : TrafficLightController) (group : list string)
    (i : nat) (sel : string) :
  first_max c group i sel ->
  group = take i group ++ sel :: drop (S i) group /\
  Forall (fun m => density_of c m < density_of c sel) (take i group) /\
  Forall (fun m => density_of c m <= density_of c sel) (drop (S i) group).
Proof.
  intros (Hi & Hmax & Hfirst). split; [|split].
  - symmetry. now apply take_drop_middle.
  - apply Forall_lookup. intros j m Hj.
    apply lookup_take_Some in Hj as [Hj Hlt]. exact (Hfirst j m Hlt Hj).
  - apply Forall_lookup. intros j m Hj.
    rewrite lookup_drop in Hj. exact (Hmax _ m Hj).
Qed.

Lemma find_max_first (c : TrafficLightController) (group : list string)
    (i : nat) (sel : string) :
  first_max c group i sel ->
  - (1) < density_of c sel ->
  find_max (traffic_densities c) group = (density_of c sel, Some sel).
Proof.
  intros Hfm Hd. destruct (first_max_split c group i sel Hfm) as (Hg & Hpre & Hpost).
  unfold find_max. rewrite Hg at 1. rewrite fold_left_app. cbn [fold_left].
  pose proof (find_max_below c (take i group) (- (1), None) _ Hd Hpre) as Hb.
  destruct (fold_left _ (take i group) _) as [m o]. cbn [fst] in Hb.
  apply Qltb_spec in Hb.
  replace (find_max_step (traffic_densities c) (m, o) sel)
    with (density_of c sel, Some sel).
  - now apply find_max_keep.
  - unfold find_max_step. fold (density_of c sel). now rewrite Hb.
Qed.

Lemma find_max_none (c : TrafficLightController) (group : list string)
    (i : nat) (sel : string) :
  first_max c group i sel ->
  density_of c sel <= - (1) ->
  find_max (traffic_densities c) group = (- (1), None).
Proof.
  intros (_ & Hmax & _) Hd. unfold find_max. apply find_max_keep.
  apply Forall_lookup. intros j m Hj. specialize (Hmax j m Hj). lra.
Qed.

(** A group that is not empty has a first member of the largest density. *)
Lemma first_max_exists (c : TrafficLightController) (group : list string) :
  group <> [] -> exists i sel, first_max c group i sel.
Proof.
  induction group as [|a rest IH]; [congruence|]. intros _.
  destruct rest as [|b rest'].
  - exists 0%nat, a. split; [reflexivity|]. split.
    + intros [|j] m Hj; simpl in Hj; [|discriminate].
      inversion Hj; subst. apply Qle_refl.
    + intros j m Hlt. lia.
  - destruct IH as (i & sel & Hi & Hmax & Hfirst); [discriminate|].
    destruct (Qlt_le_dec (density_of c a) (density_of c sel)) as [Hlt | Hle].
    + exists (S i), sel. split; [exact Hi|]. split.
      * intros [|j] m Hj; simpl in Hj.
        -- inversion Hj; subst. now apply Qlt_le_weak.
        -- exact (Hmax j m Hj).
      * intros [|j] m Hj Hm; simpl in Hm.
        -- inversion Hm; subst. exact Hlt.
        -- apply (Hfirst j m); [lia | exact Hm].
    + exists 0%nat, a. split; [reflexivity|]. split.
      * intros [|j] m Hj; simpl in Hj.
        -- inversion Hj; subst. apply Qle_refl.
        -- eapply Qle_trans; [exact (Hmax j m Hj) | exact Hle].
      * intros j m Hlt. lia.
Qed.

(** It is the only one. *)
Lemma first_max_unique (c : TrafficLightController) (group : list string)
    (i j : nat) (a b : string) :
  first_max c group i a -> first_max c group j b -> i = j /\ a = b.
Proof.
  intros (Hi & Hmaxa & Hfa) (Hj & Hmaxb & Hfb).
  destruct (Nat.lt_trichotomy i j) as [Hlt | [-> | Hgt]].
  - pose proof (Hfb i a Hlt Hi). pose proof (Hmaxa j b Hj). lra.
  - split; [reflexivity | congruence].
  - pose proof (Hfa j b Hgt Hj). pose proof (Hmaxb i a Hi). lra.
Qed.

(** *** The green wave *)

Lemma wave_reads (now : Q) (s : state) (ids : list string) :
  readable s ids ->
  for_each ids
    (fun light_id => light <- get_light light_id ;;
                     time_remaining now light ;;; ret tt) s
  = (Ok tt, s).
Proof.
  induction 1 as [|a ids (l & Hl & [d Hd] & _) _ IH]; [reflexivity|].
  cbn [for_each]. unfold bind at 1. unfold bind at 1. unfold get_light at 1.
  rewrite Hl. unfold bind at 1. unfold time_remaining at 1, get_time_remaining.
  rewrite Hd. unfold ret at 1. exact IH.
Qed.

Lemma readable_tail (s : state) (ids : list string) :
  readable s ids -> readable s (tail ids).
Proof. intros H. destruct H; [constructor | assumption]. Qed.

Lemma readable_forced (s : state) (ids : list string) (sel : string)
    (l : TrafficLight) (now : Q) :
  traffic_lights (snd s) !! sel = Some l ->
  readable s ids ->
  readable (fst s, set_light sel (set_phase "green" now l) (snd s)) ids.
Proof.
  intros Hl H. unfold readable in *. eapply Forall_impl; [exact H|].
  intros a (la & Ha & Hcur & Hgreen). cbn [fst snd]. unfold set_light. simpl.
  destruct (decide (sel = a)) as [-> | Hne].
  - rewrite lookup_insert_eq. eexists. split; [reflexivity|].
    assert (la = l) by congruence. subst la.
    unfold table in *. simpl. auto.
  - rewrite lookup_insert_ne by exact Hne. eauto.
Qed.

Lemma force_phase_green (now : Q) (l : TrafficLight) :
  force_phase "green" now l = (true, set_phase "green" now l).
Proof. reflexivity. Qed.

Lemma force_green_wave_eval (group : list string) (sel : string) (now : Q)
    (s : state) (l : TrafficLight) (d : Q) :
  readable s group ->
  traffic_lights (snd s) !! sel = Some l ->
  table (fst s) l !! current_phase l = Some d ->
  _force_green_wave group sel now s
  = (Ok tt,
     if forces (py_max 0 (d - (now - phase_start_time l))) (current_phase l)
     then (fst s, set_light sel (set_phase "green" now l) (snd s))
     else s).
Proof.
  intros Hr Hl Hd. unfold _force_green_wave, forces.
  unfold bind at 1. unfold get_light at 1. rewrite Hl.
  pose proof (wave_reads now s (tail group) (readable_tail _ _ Hr)) as Hs.
  pose proof (wave_reads now _ (tail group)
                (readable_tail _ _ (readable_forced s group sel l now Hl Hr)))
    as Hf.
  destruct (decide (current_phase l = "green")) as [Hg | Hg].
  - rewrite decide_False by tauto. unfold bind at 1, ret at 1. exact Hs.
  - rewrite decide_True by exact Hg.
    destruct (decide (current_phase l = "red")) as [Hred | Hred].
    + unfold bind at 1. unfold bind at 1. unfold bind at 1.
      unfold time_remaining at 1, get_time_remaining. rewrite Hd.
      unfold ret at 1.
      destruct (Qltb (py_max 0 (d - (now - phase_start_time l))) 5); simpl.
      * unfold ret at 1. exact Hs.
      * rewrite decide_False by congruence.
        unfold put_light, modify. exact Hf.
    + unfold bind at 1. unfold bind at 1. unfold ret at 1.
      destruct (decide (current_phase l = "yellow")) as [Hy | Hy].
      * unfold ret at 1. exact Hs.
      * unfold put_light, modify. exact Hf.
Qed.

Lemma coordinate_group_eval (group : list string) (now : Q) (s : state)
    (i : nat) (sel : string) (l : TrafficLight) (d : Q) :
  (2 <= length group)%nat ->
  readable s group ->
  first_max (snd s) group i sel ->
  traffic_lights (snd s) !! sel = Some l ->
  table (fst s) l !! current_phase l = Some d ->
  _coordinate_group group now s
  = if Qltb (7 # 10) (density_of (snd s) sel) && negb (String.eqb sel "")
       && negb (bool_decide (current_phase l = "green"))
    then _force_green_wave group sel now s
    else (Ok tt, s).
Proof.
  intros Hlen Hr Hfm Hl Hd. unfold _coordinate_group.
  destruct (Nat.ltb_spec (length group) 2) as [Hlt | _]; [lia|].
  unfold bind at 1. unfold gets at 1.
  destruct (Qlt_le_dec (- (1)) (density_of (snd s) sel)) as [Hd1 | Hd1].
  - rewrite (find_max_first _ _ _ _ Hfm Hd1). unfold truthy.
    destruct (String.eqb sel "") eqn:He; simpl.
    + now rewrite andb_false_r.
    + rewrite andb_true_r. unfold bind at 1. unfold get_light at 1. rewrite Hl.
      destruct (decide (current_phase l = "green")) as [Hg | Hg].
      * rewrite decide_False by tauto.
        rewrite bool_decide_eq_true_2 by exact Hg. now rewrite andb_false_r.
      * rewrite decide_True by exact Hg.
        rewrite bool_decide_eq_false_2 by exact Hg. rewrite andb_true_r.
        destruct (Qltb (7 # 10) (density_of (snd s) sel)); reflexivity.
  - rewrite (find_max_none _ _ _ _ Hfm Hd1). simpl.
    assert (Hlow : Qltb (7 # 10) (density_of (snd s) sel) = false).
    { apply Qltb_false. lra. }
    now rewrite Hlow.
Qed.

(** *** Loops *)

Lemma for_each_app {S A : Type} (xs ys : list A) (body : A -> M S unit) (s : S) :
  for_each (xs ++ ys) body s
  = match for_each xs body s with
    | (Ok _, s1) => for_each ys body s1
    | (Raise e, s1) => (Raise e, s1)
    end.
Proof.
  revert s. induction xs as [|x xs IH]; intros s; [reflexivity|].
  cbn [app for_each]. unfold bind.
  destruct (body x s) as [[[]|e] s1]; [apply IH | reflexivity].
Qed.

(** *** The timing policy *)

Lemma policy_near (d : Q) :
  - (1) <= d -> d <= 1 ->
  Qabs (Float.add 30 (Float.mul 30 d) - (30 + (60 - 30) * d)) <= 1 # 2 ^ 40 /\
  Qabs (Float.mul 30 (Float.sub 1 (Float.mul d (Float.literal (1 # 2))))
        - 30 * (1 - d * (1 # 2))) <= 1 # 2 ^ 40.
Proof.
  intros Hlo Hhi. unfold Float.add, Float.sub, Float.mul.
  pose proof FloatFacts.literal_half as Hh.
  assert (Hd : 0 <= (1 # 2 ^ 47) /\ (1 # 2 ^ 47) <= 1 # 100 /\
               64 * (1 # 2 ^ 47) <= 1 # 2 ^ 40)
    by (vm_compute; intuition discriminate).
  set (half := Float.literal (1 # 2)) in *.
  destruct (FloatFacts.round_near (30 * d)) as [A1 A2]; [lra | lra |].
  set (a := Float.round (30 * d)) in *.
  set (delta := 1 # 2 ^ 47) in *. set (eps := 1 # 2 ^ 40) in *.
  destruct (FloatFacts.round_near (30 + a)) as [B1 B2]; [lra | lra |].
  fold delta in B1, B2.
  assert (Hm : d * half == d * (1 # 2)) by (rewrite Hh; reflexivity).
  destruct (FloatFacts.round_near (d * half)) as [C1 C2]; [lra | lra |].
  fold delta in C1, C2.
  set (m := Float.round (d * half)) in *.
  destruct (FloatFacts.round_near (1 - m)) as [D1 D2]; [lra | lra |].
  fold delta in D1, D2.
  set (u := Float.round (1 - m)) in *.
  destruct (FloatFacts.round_near (30 * u)) as [E1 E2]; [lra | lra |].
  fold delta in E1, E2.
  split; apply Qabs_Qle_condition; split; lra.
Qed.

End ControllerFacts.

Module ControllerClaims.
Import Light LightFacts Controller ControllerFacts.

(** C5, as stated: the red time is [max(15, 30 * (1 - d * 0.5))].  At a
    density of 0.5 that is 22.5, and the table gets 22. *)
Lemma density_timing_policy_counterexample :
  let s0 := snd (add_traffic_light "L1" None 0 (∅, init)) in
  let s1 := snd (update_traffic_density "L1" (1 # 2) 1 s0) in
  exists l r,
    traffic_lights (snd s1) !! "L1" = Some l /\
    table (fst s1) l !! "red" = Some r /\
    r == 22 /\
    Qmax 15 (30 * (1 - (1 # 2) * (1 # 2))) == 45 # 2 /\
    ~ r == Qmax 15 (30 * (1 - (1 # 2) * (1 # 2))).
Proof.
  eexists. exists 22. split; [vm_compute; reflexivity|].
  split; [vm_compute; reflexivity|].
  split; [reflexivity|].
  assert (E : Qmax 15 (30 * (1 - (1 # 2) * (1 # 2))) == 45 # 2).
  { rewrite Q.max_r; [reflexivity | vm_compute; discriminate]. }
  split; [exact E|]. rewrite E. vm_compute. discriminate.
Qed.

(** C5, amended.  For a registered light whose table has the three phases,
    [update_traffic_density] with density [d] returns [True] and, through
    two calls of [adjust_timing], sets the green time to
    [clamp(int(30 + (60 - 30) * d), 15, 60)] and the red time to
    [max(15, int(30 * (1 - d * 0.5)))], computed in float arithmetic and
    truncated to whole seconds, and leaves the yellow time as it was.  For
    [d] between -1 and 1 the two numbers that are truncated are within
    [2^-40] of the exact [30 + 30 * d] and [30 * (1 - d / 2)].  [d = 0] gives
    30 and 30, [d = 1] gives 60 and 15, [d = 0.5] gives green 45 and
    red 22; the floats 0.7 and 0.2 give green 51 and red 27. *)
Theorem density_timing_policy
    (s : state) (light_id : string) (density now : Q) (l : TrafficLight) :
  traffic_lights (snd s) !! light_id = Some l ->
  complete (table (fst s) l) ->
  fst (update_traffic_density light_id density now s) = Ok true /\
  (exists l' g r,
     let s' := snd (update_traffic_density light_id density now s) in
     traffic_lights (snd s') !! light_id = Some l' /\
     table (fst s') l' !! "green" = Some (inject_Z (new_green_time density)) /\
     table (fst s') l' !! "red" = Some (inject_Z (red_time density)) /\
     table (fst s') l' !! "yellow" = table (fst s) l !! "yellow" /\
     table (fst s) l !! "green" = Some g /\
     table (fst s) l !! "red" = Some r /\
     timing_history l'
     = timing_history l
       ++ [ {| timestamp := now; phase := "green"; old_value := g;
               new_value := inject_Z (new_green_time density) |};
            {| timestamp := now; phase := "red"; old_value := r;
               new_value := inject_Z (red_time density) |} ]) /\
  (let green := Float.add 30 (Float.mul 30 density) in
   let red := Float.mul 30 (Float.sub 1 (Float.mul density (Float.literal (1 # 2)))) in
   new_green_time density = Z.max 15 (Z.min 60 (py_int green)) /\
   red_time density = Z.max 15 (py_int red) /\
   (- (1) <= density -> density <= 1 ->
    Qabs (green - (30 + (60 - 30) * density)) <= 1 # 2 ^ 40 /\
    Qabs (red - 30 * (1 - density * (1 # 2))) <= 1 # 2 ^ 40)) /\
  (new_green_time 0 = 30 /\ red_time 0 = 30 /\
   new_green_time 1 = 60 /\ red_time 1 = 15 /\
   new_green_time (1 # 2) = 45 /\ red_time (1 # 2) = 22 /\
   new_green_time (Float.literal (7 # 10)) = 51 /\
   red_time (Float.literal (2 # 10)) = 27)%Z.
Proof.
  intros Hl ([g Hg] & [y Hy] & [r Hr]).
  rewrite (update_traffic_density_ok light_id density now s l g r y Hl Hg Hr Hy).
  split; [reflexivity|]. split; [|split].
  - eexists. exists g, r. cbn [snd fst]. split.
    { unfold set_light at 1. simpl. apply lookup_insert_eq. }
    rewrite table_insert by reflexivity.
    split; [rewrite lookup_insert_ne by discriminate; apply lookup_insert_eq|].
    split; [apply lookup_insert_eq|].
    split; [now rewrite !lookup_insert_ne by discriminate|].
    split; [exact Hg|]. split; [exact Hr|].
    simpl. now rewrite <- app_assoc.
  - cbv zeta. split; [reflexivity|]. split; [reflexivity|].
    intros Hlo Hhi. exact (policy_near density Hlo Hhi).
  - repeat split; vm_compute; reflexivity.
Qed.

Lemma density_timing_policy_witness :
  fst (update_traffic_density "L1" (Float.literal (9 # 10)) 1
         (snd (add_traffic_light "L1" None 0 (∅, init)))) = Ok true.
Proof.
  apply (density_timing_policy (snd (add_traffic_light "L1" None 0 (∅, init)))
           "L1" (Float.literal (9 # 10)) 1
           (fst (add_traffic_light "L1" None 0 (∅, init)))).
  - vm_compute. reflexivity.
  - repeat split; vm_compute; eexists; reflexivity.
Defined.

(** C8.  [create_coordination_group] returns [False] and changes nothing
    when some id of the list is not registered.  When all are registered it
    returns [True], appends the list to the groups and sets the
    [connected_lights] of every member to the other ids of the list, in list
    order; lights outside the list are untouched. *)
Theorem create_coordination_group_connects
    (light_ids : list string) (c : TrafficLightController) :
  ((exists id, id ∈ light_ids /\ traffic_lights c !! id = None) ->
   create_coordination_group light_ids c = (false, c)) /\
  ((forall id, id ∈ light_ids -> is_Some (traffic_lights c !! id)) ->
   let c' := snd (create_coordination_group light_ids c) in
   fst (create_coordination_group light_ids c) = true /\
   coordination_groups c' = coordination_groups c ++ [light_ids] /\
   (forall id l, id ∈ light_ids -> traffic_lights c !! id = Some l ->
      exists l', traffic_lights c' !! id = Some l' /\
                 l' = set_connected (connected_lights l') l /\
                 connected_lights l' = filter (fun m => m ≠ id) light_ids /\
                 (forall m, m ∈ connected_lights l' <-> m ∈ light_ids /\ m ≠ id)) /\
   (forall id, id ∉ light_ids -> traffic_lights c' !! id = traffic_lights c !! id)).
Proof.
  unfold create_coordination_group. split.
  - intros (id & Hin & Hnone).
    destruct (forallb _ light_ids) eqn:E; [|reflexivity].
    destruct (proj1 (registered_all _ _) E id Hin) as [l Hl]. congruence.
  - intros Hall. rewrite (proj2 (registered_all _ _) Hall). cbn [fst snd].
    set (c1 := {| traffic_lights := traffic_lights c;
                  traffic_densities := traffic_densities c;
                  coordination_groups := coordination_groups c ++ [light_ids] |}).
    destruct (connect_all light_ids light_ids c1) as (Hl & _ & Hg).
    split; [reflexivity|]. split; [exact Hg|]. split.
    + intros id l Hin Hlook. rewrite Hl, decide_True by exact Hin.
      simpl. rewrite Hlook. simpl. eexists. split; [reflexivity|].
      split; [reflexivity|]. split; [reflexivity|].
      intros m. simpl. rewrite list_elem_of_filter. tauto.
    + intros id Hnin. rewrite Hl, decide_False by exact Hnin. reflexivity.
Qed.

Lemma create_coordination_group_connects_witness :
  let c := snd (snd (add_traffic_light "L2" None 0
                       (snd (add_traffic_light "L1" None 0 (∅, init))))) in
  create_coordination_group ["L1"; "L9"] c = (false, c) /\
  fst (create_coordination_group ["L1"; "L2"] c) = true.
Proof.
  intros c. split.
  - apply (proj1 (create_coordination_group_connects ["L1"; "L9"] c)).
    exists "L9". split; [|vm_compute; reflexivity].
    apply list_elem_of_further, list_elem_of_here.
  - apply (proj2 (create_coordination_group_connects ["L1"; "L2"] c)).
    intros id Hin.
    apply elem_of_cons in Hin as [-> | Hin];
      [|apply elem_of_cons in Hin as [-> | Hin]];
      [vm_compute; eexists; reflexivity | vm_compute; eexists; reflexivity |].
    now apply elem_of_nil in Hin.
Defined.

(** C4, as stated: in every group the densest member, when its density is
    over 0.7 and it is red with 5 seconds or more left, is forced to green
    by each call.  A group of one member is skipped: its light stays red.
    And a group is not reached when the coordination of a group before it
    raises: with the groups [L3, L4] and [L1, L2], the table of L3 lacking
    a red time, the call raises [KeyError] and L1 stays red. *)
Lemma coordinate_green_wave_counterexample :
  (let s0 := snd (add_traffic_light "L1" None 0 (∅, init)) in
   let s1 := snd (update_traffic_density "L1" (Float.literal (9 # 10)) 0 s0) in
   let s := (fst s1, snd (create_coordination_group ["L1"] (snd s1))) in
   coordination_groups (snd s) = [["L1"]] /\
   first_max (snd s) ["L1"] 0 "L1" /\
   7 # 10 < density_of (snd s) "L1" /\
   (exists l, traffic_lights (snd s) !! "L1" = Some l /\
              current_phase l = "red" /\
              get_time_remaining 1 (fst s) l = Ok 15) /\
   coordinate_lights 1 s = (Ok tt, s)) /\
  (let caller : heap :=
     {[ 9%positive := <["green" := 30]> (<["yellow" := 5]> ∅) ]} in
   let s0 := snd (add_traffic_light "L4" None 0
               (snd (add_traffic_light "L3" (Some 9%positive) 0
                  (snd (add_traffic_light "L2" None 0
                     (snd (add_traffic_light "L1" None 0 (caller, init)))))))) in
   let s1 := snd (update_traffic_density "L1" (Float.literal (9 # 10)) 0
               (snd (update_traffic_density "L3" (Float.literal (9 # 10)) 0 s0))) in
   let s := (fst s1,
             snd (create_coordination_group ["L1"; "L2"]
                    (snd (create_coordination_group ["L3"; "L4"] (snd s1))))) in
   coordination_groups (snd s) = [["L3"; "L4"]; ["L1"; "L2"]] /\
   first_max (snd s) ["L1"; "L2"] 0 "L1" /\
   7 # 10 < density_of (snd s) "L1" /\
   (exists l, traffic_lights (snd s) !! "L1" = Some l /\
              current_phase l = "red" /\
              get_time_remaining 1 (fst s) l = Ok 15) /\
   coordinate_lights 1 s = (Raise (KeyError "red"), s)).
Proof.
  split.
  - intros s0 s1 s. split; [reflexivity|]. split.
    { split; [reflexivity|]. split.
      - intros j m Hj. destruct j as [|j]; simpl in Hj; [|discriminate].
        inversion Hj; subst. apply Qle_refl.
      - intros j m Hlt. lia. }
    split; [vm_compute; reflexivity|]. split.
    + eexists. split; [vm_compute; reflexivity|].
      split; vm_compute; reflexivity.
    + vm_compute. reflexivity.
  - intros caller s0 s1 s. split; [vm_compute; reflexivity|]. split.
    { split; [reflexivity|]. split.
      - intros j m Hj.
        destruct j as [|[|j]]; simpl in Hj; inversion Hj; subst;
          vm_compute; discriminate.
      - intros j m Hlt. lia. }
    split; [vm_compute; reflexivity|]. split.
    + eexists. split; [vm_compute; reflexivity|].
      split; vm_compute; reflexivity.
    + vm_compute. reflexivity.
Qed.

(** C4, amended.  A call of [coordinate_lights] goes through the groups in
    list order and stops at the first group whose coordination raises.  A
    group that it reaches is coordinated on the state that the groups before
    it left.  A group of fewer than two members is skipped.  In a group of
    at least two members whose lights have durations in their tables, let
    [sel] be the first member of the largest density and let its id not be
    the empty string: the override runs on [sel] when that density is over
    0.7 and [sel] is not green, and nothing is done otherwise.  The override
    leaves [sel] as it is when it is red with less than 5 seconds remaining
    and when it is yellow; otherwise it applies [force_phase('green')] to
    it. *)
Theorem coordinate_lights_green_wave
    (now : Q) (s : state) (before after : list (list string))
    (group : list string) :
  coordination_groups (snd s) = before ++ group :: after ->
  let body := fun g => _coordinate_group g now in
  (forall e s1,
     for_each before body s = (Raise e, s1) ->
     coordinate_lights now s = (Raise e, s1)) /\
  (forall s1,
     for_each before body s = (Ok tt, s1) ->
     coordinate_lights now s
     = (_coordinate_group group now ;;; for_each after body) s1 /\
     ((length group < 2)%nat -> _coordinate_group group now s1 = (Ok tt, s1)) /\
     forall i sel l d,
       (2 <= length group)%nat ->
       readable s1 group ->
       first_max (snd s1) group i sel ->
       sel <> "" ->
       traffic_lights (snd s1) !! sel = Some l ->
       table (fst s1) l !! current_phase l = Some d ->
       let remaining := py_max 0 (d - (now - phase_start_time l)) in
       let forced :=
         (fst s1, set_light sel (snd (force_phase "green" now l)) (snd s1)) in
       get_time_remaining now (fst s1) l = Ok remaining /\
       (7 # 10 < density_of (snd s1) sel /\ current_phase l <> "green" ->
        _coordinate_group group now s1 = _force_green_wave group sel now s1) /\
       (~ (7 # 10 < density_of (snd s1) sel /\ current_phase l <> "green") ->
        _coordinate_group group now s1 = (Ok tt, s1)) /\
       (current_phase l = "red" -> remaining < 5 ->
        _force_green_wave group sel now s1 = (Ok tt, s1)) /\
       (current_phase l = "yellow" ->
        _force_green_wave group sel now s1 = (Ok tt, s1)) /\
       (current_phase l <> "green" -> current_phase l <> "yellow" ->
        (current_phase l = "red" -> 5 <= remaining) ->
        _force_green_wave group sel now s1 = (Ok tt, forced))).
Proof.
  intros Hgroups body.
  assert (Hcall : coordinate_lights now s
                  = match for_each before body s with
                    | (Ok _, s1) => for_each (group :: after) body s1
                    | (Raise e, s1) => (Raise e, s1)
                    end).
  { unfold coordinate_lights. unfold bind at 1. unfold gets at 1.
    rewrite Hgroups. apply for_each_app. }
  split.
  - intros e s1 Hbefore. now rewrite Hcall, Hbefore.
  - intros s1 Hbefore. split; [now rewrite Hcall, Hbefore|]. split.
    { intros Hshort. unfold _coordinate_group.
      destruct (Nat.ltb_spec (length group) 2) as [_ | Hge]; [reflexivity | lia]. }
    intros i sel l d Hlen Hr Hfm Hsel Hl Hd remaining forced.
    pose proof (coordinate_group_eval group now s1 i sel l d Hlen Hr Hfm Hl Hd) as Hc.
    pose proof (force_green_wave_eval group sel now s1 l d Hr Hl Hd) as Hw.
    fold remaining in Hw. unfold forces in Hw.
    assert (He : String.eqb sel "" = false) by now apply String.eqb_neq.
    rewrite He in Hc. simpl in Hc. rewrite andb_true_r in Hc.
    split; [unfold get_time_remaining; now rewrite Hd|].
    split; [|split; [|split; [|split]]].
    + intros [Hdens Hg]. rewrite Hc. apply Qltb_spec in Hdens. rewrite Hdens.
      now rewrite bool_decide_eq_false_2 by exact Hg.
    + intros Hno. rewrite Hc.
      destruct (Qltb (7 # 10) (density_of (snd s1) sel)) eqn:Hdens; [|reflexivity].
      apply Qltb_spec in Hdens.
      destruct (decide (current_phase l = "green")) as [Hg | Hg].
      * now rewrite bool_decide_eq_true_2 by exact Hg.
      * exfalso. apply Hno. split; assumption.
    + intros Hred Hrem. rewrite Hw, Hred. simpl.
      apply Qltb_spec in Hrem. now rewrite Hrem.
    + intros Hy. rewrite Hw, Hy. reflexivity.
    + intros Hg Hy Hrem. rewrite Hw.
      rewrite decide_False by exact Hg.
      destruct (decide (current_phase l = "red")) as [Hred | Hred].
      * apply Hrem in Hred. apply Qltb_false in Hred. now rewrite Hred.
      * now rewrite decide_False by exact Hy.
Qed.

Lemma coordinate_lights_green_wave_witness :
  let s0 := snd (add_traffic_light "L4" None 0
              (snd (add_traffic_light "L3" None 0
                 (snd (add_traffic_light "L2" None 0
                    (snd (add_traffic_light "L1" None 0 (∅, init)))))))) in
  let s1 := snd (update_traffic_density "L1" (Float.literal (9 # 10)) 0 s0) in
  let s := (fst s1,
            snd (create_coordination_group ["L1"; "L2"]
                   (snd (create_coordination_group ["L3"; "L4"] (snd s1))))) in
  coordinate_lights 1 s
  = (_coordinate_group ["L1"; "L2"] 1 ;;;
     for_each [] (fun g => _coordinate_group g 1)) s /\
  _coordinate_group ["L1"; "L2"] 1 s = _force_green_wave ["L1"; "L2"] "L1" 1 s.
Proof.
  intros s0 s1 s.
  destruct (proj2 (coordinate_lights_green_wave 1 s [["L3"; "L4"]] []
                     ["L1"; "L2"] ltac:(vm_compute; reflexivity)) s
              ltac:(vm_compute; reflexivity)) as (Hcall & _ & Hgroup).
  split; [exact Hcall|].
  assert (Hl : exists l, traffic_lights (snd s) !! "L1" = Some l /\
                         current_phase l = "red" /\
                         table (fst s) l !! "red" = Some 16 /\
                         is_Some (table (fst s) l !! "green")).
  { eexists. split; [vm_compute; reflexivity|].
    split; [reflexivity|]. split; [vm_compute; reflexivity|].
    vm_compute. eexists. reflexivity. }
  destruct Hl as (l & Hl & Hp & Ht & Hg).
  refine (proj1 (proj2 (Hgroup 0%nat "L1" l 16 _ _ _ _ Hl _)) _).
  - simpl. lia.
  - constructor; [|constructor; [|constructor]].
    + exists l. rewrite Hp. split; [exact Hl|]. split; [|exact Hg].
      rewrite Ht. eexists. reflexivity.
    + eexists. split; [vm_compute; reflexivity|].
      split; vm_compute; eexists; reflexivity.
  - split; [reflexivity|]. split.
    + intros j m Hj.
      destruct j as [|[|j]]; simpl in Hj; inversion Hj; subst;
        vm_compute; discriminate.
    + intros j m Hlt. lia.
  - discriminate.
  - rewrite Hp. exact Ht.
  - split; [vm_compute; reflexivity|]. rewrite Hp. discriminate.
Defined.

End ControllerClaims.

(** ** Connection handler *)

Module CommFacts.
Import Comm.

Lemma key_eqb_refl (k : JSON) : hashable k = true -> key_eqb k k = true.
Proof.
  destruct k; simpl; intros H; try discriminate; try reflexivity.
  - destruct b; reflexivity.
  - apply Qeq_bool_iff. reflexivity.
  - apply Qeq_bool_iff. reflexivity.
  - apply String.eqb_refl.
Qed.

Lemma conn_get_set (k : JSON) (sock : nat) (conns : list (JSON * nat)) :
  hashable k = true -> conn_get k (conn_set k sock conns) = Some sock.
Proof.
  intros Hk. induction conns as [|[k' s'] rest IH]; simpl.
  - now rewrite key_eqb_refl.
  - destruct (key_eqb k k') eqn:E; simpl; rewrite E; [reflexivity | exact IH].
Qed.

Lemma cleanup_None (m : CommunicationManager) (c : connection) :
  cleanup None m c = (m, finish true c).
Proof. reflexivity. Qed.

(** A [recv] on a connection with bytes to read returns the first 1024 of
    them. *)
Lemma recv_data (c : connection) :
  inbuf c <> [] ->
  recv 1024 c
  = (Data (take 1024 (inbuf c)),
     {| client_socket := client_socket c; inbuf := drop 1024 (inbuf c);
        peer_closed := peer_closed c; handler := handler c;
        socket_closed := socket_closed c |}).
Proof. unfold recv. destruct (inbuf c); [congruence | reflexivity]. Qed.

Lemma recv_deliver (c : connection) (text : list byte) :
  inbuf c = [] -> text <> [] -> (length text <= 1024)%nat ->
  recv 1024 (deliver text c)
  = (Data text,
     {| client_socket := client_socket c; inbuf := [];
        peer_closed := peer_closed c; handler := handler c;
        socket_closed := socket_closed c |}).
Proof.
  intros Hbuf Htext Hlen. rewrite recv_data; simpl; rewrite Hbuf; simpl.
  - rewrite take_ge, drop_ge by exact Hlen. reflexivity.
  - exact Htext.
Qed.

Section WithLoads.
Variable loads : list byte -> loads_result.




Lemma register_accepted (data : list byte) (m : CommunicationManager)
    (c : connection) (members : list (string * JSON)) (client_id : JSON) :
  running m = true ->
  loads data = Loaded (JObj members) ->
  dict_get "id" members = Some client_id ->
  hashable client_id = true ->
  register loads data m c
  = (set_connections
       (conn_set client_id (client_socket c) (client_connections m)) m,
     set_stage (Serving client_id) c).
Proof.
  intros Hrun Hl Hid Hh. unfold register. rewrite Hl. simpl.
  rewrite Hid, Hh. unfold loop_head. simpl. now rewrite Hrun.
Qed.

Lemma serve_object (client_id : JSON) (data : list byte)
    (m : CommunicationManager) (c : connection) (members : list (string * JSON)) :
  running m = true ->
  loads data = Loaded (JObj members) ->
  serve loads client_id data m c
  = (put (JObj (dict_set "sender" client_id members)) m,
     set_stage (Serving client_id) c).
Proof.
  intros Hrun Hl. unfold serve. rewrite Hl. simpl.
  unfold loop_head. simpl. now rewrite Hrun.
Qed.

Lemma run_one_per_read_cons (text : list byte) (texts : list (list byte))
    (w : CommunicationManager * connection) :
  run loads (one_per_read (text :: texts)) w
  = run loads (one_per_read texts)
        (handler_step loads (fst w) (deliver text (snd w))).
Proof. reflexivity. Qed.

(** Messages that arrive one per read are queued one by one. *)
Lemma serve_one_per_read (client_id : JSON) (texts : list (list byte))
    (messages : list (list (string * JSON)))
    (m : CommunicationManager) (c : connection) :
  running m = true ->
  handler c = Serving client_id ->
  inbuf c = [] ->
  Forall2 (fun text members =>
             text <> [] /\ (length text <= 1024)%nat /\
             loads text = Loaded (JObj members)) texts messages ->
  let w := run loads (one_per_read texts) (m, c) in
  message_queue (fst w)
  = message_queue m
    ++ map (fun members => JObj (dict_set "sender" client_id members)) messages /\
  client_connections (fst w) = client_connections m /\
  running (fst w) = true /\
  handler (snd w) = Serving client_id /\
  inbuf (snd w) = [] /\
  client_socket (snd w) = client_socket c.
Proof.
  intros Hrun Hst Hbuf Hall. revert m c Hrun Hst Hbuf.
  induction Hall as [|text members texts messages (Hne & Hlen & Hl) _ IH];
    intros m c Hrun Hst Hbuf.
  - simpl. rewrite app_nil_r. repeat split; assumption.
  - cbv zeta. rewrite run_one_per_read_cons. cbn [fst snd].
    unfold handler_step. cbn [deliver handler]. rewrite Hst.
    rewrite (recv_deliver c text Hbuf Hne Hlen).
    rewrite (serve_object client_id text m _ members Hrun Hl).
    match goal with
    | |- context [run loads _ (?m1, ?c1)] =>
        destruct (IH m1 c1 Hrun eq_refl eq_refl)
          as (Hq & Hc & Hr & Hs & Hb & Hk)
    end.
    rewrite Hq, Hc, Hr, Hs, Hb, Hk. simpl.
    rewrite <- app_assoc. repeat split; reflexivity.
Qed.

End WithLoads.

End CommFacts.

Module CommClaims.
Import Comm CommFacts.




(** C1, as stated: every message of the byte stream is parsed exactly once,
    also two messages that arrive in one read and a message longer than one
    read.  With two status messages in one read, and with one status message
    of 1137 bytes, the handler reads all the bytes and queues nothing. *)
Lemma message_framing_counterexample :
  let m := {| client_connections := []; message_queue := []; running := true |} in
  let w := run loads_ascii [Deliver (register_text "L1"); Step] (m, accept 1) in
  let two := status_text "a" ++ status_text "b" in
  let long := status_text (letters 1100) in
  handler (snd w) = Serving (JStr "L1") /\
  (loads_ascii (status_text "a") = Loaded (status_message "a") /\
   loads_ascii (status_text "b") = Loaded (status_message "b") /\
   (length two <= 1024)%nat /\
   message_queue (fst (run loads_ascii [Deliver two; Step; Step] w)) = [] /\
   inbuf (snd (run loads_ascii [Deliver two; Step; Step] w)) = []) /\
  (loads_ascii long = Loaded (status_message (letters 1100)) /\
   length long = 1137%nat /\
   message_queue (fst (run loads_ascii [Deliver long; Step; Step; Step] w)) = [] /\
   inbuf (snd (run loads_ascii [Deliver long; Step; Step; Step] w)) = []).
Proof.
  intros m w two long. split; [reflexivity|]. split.
  - split; [vm_compute; reflexivity|]. split; [vm_compute; reflexivity|].
    split; [vm_compute; lia|]. split; vm_compute; reflexivity.
  - repeat split; vm_compute; reflexivity.
Qed.

(** C1, amended.  The handler makes one [recv] of at most 1024 bytes per
    message and parses the data of each read as one JSON text.  When every
    message arrives whole and alone in its read, each is parsed exactly once:
    the first registers the connection under its [id] and every later one is
    put on the queue once, in order, with [sender] set to that id. *)
Theorem one_read_per_message
    (loads : list byte -> loads_result) (m : CommunicationManager)
    (c : connection) (reg : list byte) (rmembers : list (string * JSON))
    (client_id : JSON) (texts : list (list byte))
    (messages : list (list (string * JSON))) :
  running m = true ->
  handler c = AwaitingRegistration ->
  inbuf c = [] ->
  reg <> [] -> (length reg <= 1024)%nat ->
  loads reg = Loaded (JObj rmembers) ->
  dict_get "id" rmembers = Some client_id ->
  hashable client_id = true ->
  Forall2 (fun text members =>
             text <> [] /\ (length text <= 1024)%nat /\
             loads text = Loaded (JObj members)) texts messages ->
  let w := run loads (one_per_read (reg :: texts)) (m, c) in
  conn_get client_id (client_connections (fst w)) = Some (client_socket c) /\
  message_queue (fst w)
  = message_queue m
    ++ map (fun members => JObj (dict_set "sender" client_id members)) messages /\
  handler (snd w) = Serving client_id /\
  inbuf (snd w) = [].
Proof.
  intros Hrun Hst Hbuf Hne Hlen Hl Hid Hh Hall w. subst w.
  rewrite run_one_per_read_cons. cbn [fst snd].
  unfold handler_step. cbn [deliver handler]. rewrite Hst.
  rewrite (recv_deliver c reg Hbuf Hne Hlen).
  rewrite (register_accepted loads reg m _ rmembers client_id Hrun Hl Hid Hh).
  match goal with
  | |- context [run loads _ (?m1, ?c1)] =>
      destruct (serve_one_per_read loads client_id texts messages m1 c1
                  Hrun eq_refl eq_refl Hall) as (Hq & Hc & _ & Hs & Hb & _)
  end.
  rewrite Hq, Hc, Hs, Hb. simpl.
  repeat split. now apply conn_get_set.
Qed.

Lemma one_read_per_message_witness :
  let m := {| client_connections := []; message_queue := []; running := true |} in
  message_queue
    (fst (run loads_ascii
            (one_per_read [register_text "L1"; status_text "a"; status_text "b"])
            (m, accept 1)))
  = [JObj (dict_set "sender" (JStr "L1") [("type", JStr "status_update"); ("data", JStr "a")]);
     JObj (dict_set "sender" (JStr "L1") [("type", JStr "status_update"); ("data", JStr "b")])].
Proof.
  intros m.
  refine (proj1 (proj2 (one_read_per_message loads_ascii m (accept 1)
                          (register_text "L1") [("id", JStr "L1")] (JStr "L1")
                          [status_text "a"; status_text "b"]
                          [[("type", JStr "status_update"); ("data", JStr "a")];
                           [("type", JStr "status_update"); ("data", JStr "b")]]
                          _ _ _ _ _ _ _ _ _))); try reflexivity.
  - vm_compute. discriminate.
  - vm_compute. lia.
  - repeat constructor; try (vm_compute; discriminate);
      try (vm_compute; reflexivity); vm_compute; lia.
Defined.

End CommClaims.

(** * Further properties *)

(** ** Congestion level, trend and history of the density calculator *)

Module TrendFacts.
Import Density DensityFacts Trend.

Lemma Qltb_proper (a a' b b' : Q) : a == a' -> b == b' -> Qltb a b = Qltb a' b'.
Proof.
  intros Ha Hb. destruct (Qltb a' b') eqn:E.
  - apply Qltb_spec. apply Qltb_spec in E. now rewrite Ha, Hb.
  - apply Qltb_false. apply Qltb_false in E. now rewrite Ha, Hb.
Qed.




Lemma feed_history (samples : list (Q * Z)) (c : TrafficDensityCalculator) :
  (length (density_history c) <= 100)%nat ->
  density_history (snd (feed samples c))
  = lastn 100 (density_history c ++ returned (fst (feed samples c))).
Proof.
  revert c. induction samples as [|[now n] rest IH]; intros c Hlen.
  - simpl. now rewrite app_nil_r, lastn_all.
  - simpl. destruct (update n now c) as [r c1] eqn:Hup.
    destruct (feed rest c1) as [rs c2] eqn:Hfeed. simpl.
    specialize (IH c1). rewrite Hfeed in IH. simpl in IH.
    unfold update in Hup.
    destruct (calculate_density _) as [d | e]; inversion Hup; subst; clear Hup;
      simpl in IH |- *.
    + rewrite IH by (now apply length_deque_append).
      rewrite deque_append_lastn by exact Hlen.
      rewrite lastn_app_lastn, <- app_assoc. reflexivity.
    + now apply IH.
Qed.

Lemma deque_append_last {A : Type} (n : nat) (d : list A) (x : A) :
  n <> 0%nat -> last (deque_append n d x) = Some x.
Proof.
  intros Hn. unfold deque_append. destruct n; [congruence|].
  destruct (S n <=? length d)%nat; apply last_snoc.
Qed.

End TrendFacts.

Module DensityExtras.
Import Density DensityFacts Trend TrendFacts.



(** X2.  After any run of [update] calls, failed ones included,
    [density_history] is the last 100 of the densities recorded before and
    returned since, oldest first, and never holds more than 100. *)
Theorem density_history_last_100
    (samples : list (Q * Z)) (c : TrafficDensityCalculator) :
  (length (density_history c) <= 100)%nat ->
  density_history (snd (feed samples c))
  = lastn 100 (density_history c ++ returned (fst (feed samples c))) /\
  (length (density_history (snd (feed samples c))) <= 100)%nat.
Proof.
  intros Hlen. rewrite (feed_history samples c Hlen). split; [reflexivity|].
  rewrite length_lastn. lia.
Qed.

Lemma density_history_last_100_witness :
  density_history (snd (feed [(1, 5%Z); (2, 10%Z)] (init 3 15 0)))
  = lastn 100 ([] ++ returned (fst (feed [(1, 5%Z); (2, 10%Z)] (init 3 15 0)))).
Proof.
  apply (density_history_last_100 [(1, 5%Z); (2, 10%Z)] (init 3 15 0)).
  simpl. lia.
Defined.

(** X3.  The two degenerate settings of [update].  With a window size of 0
    nothing is ever stored and every update returns 0.  With a threshold of
    0 and a window size that is not 0, [update] raises [ZeroDivisionError],
    yet the sample is already the newest entry of the window; the history
    is not touched. *)
Theorem update_degenerate (n : Z) (now : Q) (c : TrafficDensityCalculator) :
  (window_size c = 0%nat -> vehicle_counts c = [] ->
   fst (update n now c) = Ok 0 /\ vehicle_counts (snd (update n now c)) = []) /\
  (window_size c <> 0%nat -> congestion_threshold c == 0 ->
   fst (update n now c) = Raise ZeroDivisionError /\
   last (vehicle_counts (snd (update n now c))) = Some n /\
   density_history (snd (update n now c)) = density_history c).
Proof.
  split.
  - intros HW Hw. unfold update, calculate_density. simpl.
    rewrite HW, Hw. unfold deque_append. simpl. auto.
  - intros HW Hz. unfold update.
    set (c1 := {| window_size := window_size c;
                  congestion_threshold := congestion_threshold c;
                  vehicle_counts :=
                    deque_append (window_size c) (vehicle_counts c) n;
                  density_history := density_history c;
                  last_update_time := now |}).
    assert (Hlast : last (vehicle_counts c1) = Some n)
      by (now apply deque_append_last).
    assert (Hne : vehicle_counts c1 <> []).
    { intros E. rewrite E in Hlast. discriminate. }
    rewrite (calculate_density_mean c1 Hne).
    rewrite (py_div_zero _ (congestion_threshold c1) Hz). auto.
Qed.

Lemma update_degenerate_witness :
  fst (update 7 1 (init 0 15 0)) = Ok 0 /\
  fst (update 7 1 (init 10 0 0)) = Raise ZeroDivisionError.
Proof.
  split.
  - apply (proj1 (update_degenerate 7 1 (init 0 15 0))); reflexivity.
  - apply (proj2 (update_degenerate 7 1 (init 10 0 0))).
    + discriminate.
    + reflexivity.
Defined.

End DensityExtras.
Module TrendExtras.
Import Density DensityFacts Trend TrendFacts.

Lemma range_5 : range 5 = [0; 1; 2; 3; 4]%Z.
Proof. reflexivity. Qed.

Lemma lastn_app_exact {A : Type} (l k : list A) : lastn (length k) (l ++ k) = k.
Proof.
  unfold lastn. rewrite length_app.
  replace (length l + length k - length k)%nat with (length l) by lia.
  apply drop_app_length.
Qed.

(** The constants of the error analysis: one rounding, one sum, and the
    float nearest to 0.05. *)
Lemma trend_constants :
  0 <= (1 # 2 ^ 47) /\ 128 * (1 # 2 ^ 47) <= 1 # 2 ^ 40 /\
  (1 # 2 ^ 40) <= 1 # 1000 /\
  100 * (1 # 2 ^ 40) <= 1 # 2 ^ 30 /\
  1 # 20 <= Float.literal (5 # 100) /\
  Float.literal (5 # 100) <= (1 # 20) + (1 # 2 ^ 40) /\
  0 < (1 # 2 ^ 40).
Proof. repeat split; vm_compute; solve [discriminate | reflexivity]. Qed.

(** The sum of CPython up to 3.11 is accurate. *)
Lemma naive_sum_accurate : accurate naive_sum.
Proof.
  intros l Hlen Hall.
  destruct l as [|a [|b [|c [|d [|e [|? ?]]]]]]; try discriminate.
  inversion Hall as [|? ? [Ha1 Ha2] Hall1]; subst.
  inversion Hall1 as [|? ? [Hb1 Hb2] Hall2]; subst.
  inversion Hall2 as [|? ? [Hc1 Hc2] Hall3]; subst.
  inversion Hall3 as [|? ? [Hd1 Hd2] Hall4]; subst.
  inversion Hall4 as [|? ? [He1 He2] _]; subst.
  destruct trend_constants as (K1 & K2 & K3 & _).
  unfold naive_sum, exact_sum. cbn [fold_left fold_right]. unfold Float.add.
  set (delta := 1 # 2 ^ 47) in *. set (eps := 1 # 2 ^ 40) in *.
  destruct (FloatFacts.round_near (0 + a)) as [A1 A2]; [lra | lra |].
  fold delta in A1, A2. set (s1 := Float.round (0 + a)) in *.
  destruct (FloatFacts.round_near (s1 + b)) as [B1 B2]; [lra | lra |].
  fold delta in B1, B2. set (s2 := Float.round (s1 + b)) in *.
  destruct (FloatFacts.round_near (s2 + c)) as [C1 C2]; [lra | lra |].
  fold delta in C1, C2. set (s3 := Float.round (s2 + c)) in *.
  destruct (FloatFacts.round_near (s3 + d)) as [D1 D2]; [lra | lra |].
  fold delta in D1, D2. set (s4 := Float.round (s3 + d)) in *.
  destruct (FloatFacts.round_near (s4 + e)) as [E1 E2]; [lra | lra |].
  fold delta in E1, E2. set (s5 := Float.round (s4 + e)) in *.
  apply Qabs_Qle_condition. split; lra.
Qed.

(** The slope that [get_density_trend] computes from five densities
    between -1 and 1 is within [2^-40] of the exact one, a tenth of
    [2 * (y4 - y0) + (y3 - y1)]. *)
Lemma trend_slope (float_sum : list Q -> Q) (y0 y1 y2 y3 y4 : Q) :
  accurate float_sum ->
  Forall (fun y => - (1) <= y /\ y <= 1) [y0; y1; y2; y3; y4] ->
  let x := range 5 in
  let y := [y0; y1; y2; y3; y4] in
  let n := Z.of_nat (length x) in
  exists slope,
    Float.div
      (Float.sub
         (Float.mul (inject_Z n)
            (float_sum (zip_with (fun x_i y_i => Float.mul (inject_Z x_i) y_i) x y)))
         (Float.mul (inject_Z (int_sum x)) (float_sum y)))
      (inject_Z (n * int_sum (map (fun x_i => (x_i * x_i)%Z) x) - int_sum x * int_sum x))
    = Ok slope /\
    tilt y0 y1 y3 y4 * (1 # 10) - (1 # 2 ^ 40) <= slope /\
    slope <= tilt y0 y1 y3 y4 * (1 # 10) + (1 # 2 ^ 40).
Proof.
  intros Hacc Hall x y n. subst x y n. rewrite range_5.
  cbn [length zip_with map int_sum fold_left].
  match goal with
  | |- context [Float.div _ ?d] => change d with 50
  end.
  match goal with
  | |- context [Float.mul ?k (float_sum [y0; y1; y2; y3; y4])] => change k with 10
  end.
  change (inject_Z (Z.of_nat 5)) with 5.
  change (inject_Z 0) with 0. change (inject_Z 1) with 1.
  change (inject_Z 2) with 2. change (inject_Z 3) with 3.
  change (inject_Z 4) with 4.
  unfold Float.div. change (Qeq_bool 50 0) with false. cbv iota.
  eexists. split; [reflexivity|].
  inversion Hall as [|? ? [Ha1 Ha2] Hall1]; subst.
  inversion Hall1 as [|? ? [Hb1 Hb2] Hall2]; subst.
  inversion Hall2 as [|? ? [Hc1 Hc2] Hall3]; subst.
  inversion Hall3 as [|? ? [Hd1 Hd2] Hall4]; subst.
  inversion Hall4 as [|? ? [He1 He2] _]; subst.
  destruct trend_constants as (K1 & K2 & K3 & _).
  unfold Float.sub, Float.mul, tilt.
  set (delta := 1 # 2 ^ 47) in *. set (eps := 1 # 2 ^ 40) in *.
  destruct (FloatFacts.round_near (0 * y0)) as [P01 P02]; [lra | lra |].
  fold delta in P01, P02. set (p0 := Float.round (0 * y0)) in *.
  destruct (FloatFacts.round_near (1 * y1)) as [P11 P12]; [lra | lra |].
  fold delta in P11, P12. set (p1 := Float.round (1 * y1)) in *.
  destruct (FloatFacts.round_near (2 * y2)) as [P21 P22]; [lra | lra |].
  fold delta in P21, P22. set (p2 := Float.round (2 * y2)) in *.
  destruct (FloatFacts.round_near (3 * y3)) as [P31 P32]; [lra | lra |].
  fold delta in P31, P32. set (p3 := Float.round (3 * y3)) in *.
  destruct (FloatFacts.round_near (4 * y4)) as [P41 P42]; [lra | lra |].
  fold delta in P41, P42. set (p4 := Float.round (4 * y4)) in *.
  pose proof (Hacc [p0; p1; p2; p3; p4] eq_refl) as Hxy.
  pose proof (Hacc [y0; y1; y2; y3; y4] eq_refl) as Hy.
  apply Qabs_Qle_condition in Hxy;
    [|repeat (constructor; [split; lra|]); constructor].
  apply Qabs_Qle_condition in Hy;
    [|repeat (constructor; [split; lra|]); constructor].
  unfold exact_sum in Hxy, Hy. cbn [fold_right] in Hxy, Hy.
  fold eps in Hxy, Hy. destruct Hxy as [Hxy1 Hxy2]. destruct Hy as [Hy1 Hy2].
  set (sxy := float_sum [p0; p1; p2; p3; p4]) in *.
  set (sy := float_sum [y0; y1; y2; y3; y4]) in *.
  destruct (FloatFacts.round_near (5 * sxy)) as [A1 A2]; [lra | lra |].
  fold delta in A1, A2. set (a := Float.round (5 * sxy)) in *.
  destruct (FloatFacts.round_near (10 * sy)) as [B1 B2]; [lra | lra |].
  fold delta in B1, B2. set (b := Float.round (10 * sy)) in *.
  destruct (FloatFacts.round_near (a - b)) as [N1 N2]; [lra | lra |].
  fold delta in N1, N2. set (num := Float.round (a - b)) in *.
  assert (E : num / 50 == num * (1 # 50)) by (field; discriminate).
  destruct (FloatFacts.round_near (num / 50)) as [S1 S2]; [lra | lra |].
  fold delta in S1, S2. set (slope := Float.round (num / 50)) in *.
  split; lra.
Qed.

(** X4.  With fewer than five densities in the history the trend is
    stable. *)
Theorem trend_short_history
    (float_sum : list Q -> Q) (c : TrafficDensityCalculator) :
  (length (density_history c) < 5)%nat ->
  get_density_trend float_sum c = Ok "stable".
Proof.
  intros Hlen. unfold get_density_trend.
  destruct (length (density_history c) <? 2)%nat; [reflexivity|].
  rewrite length_lastn.
  destruct (Nat.ltb_spec (Nat.min 5 (length (density_history c))) 5);
    [reflexivity | lia].
Qed.

Lemma trend_short_history_witness :
  get_density_trend naive_sum
    (snd (feed [(1, 5%Z); (2, 40%Z); (3, 1%Z); (4, 9%Z)] (init 10 15 0)))
  = Ok "stable".
Proof.
  apply trend_short_history. vm_compute. lia.
Defined.

(** X5.  With five densities or more in the history, the last five, [y0]
    to [y4], between -1 and 1, and a [sum] that is accurate,
    [get_density_trend] does not raise and its answer depends on the last
    five alone.  It follows [t = 2 * (y4 - y0) + (y3 - y1)] as far as the
    rounding of the float operations allows: increasing when [t] is at least
    [0.5 + 2^-30], decreasing when [t] is at most [-0.5 - 2^-30], stable
    when [t] is between [-0.5 + 2^-30] and [0.5 - 2^-30]; nearer to 0.5 and
    to -0.5 the rounding decides.  Five densities that never go down are
    never reported as decreasing. *)
Theorem trend_last_five
    (float_sum : list Q -> Q) (c : TrafficDensityCalculator) (older : list Q)
    (y0 y1 y2 y3 y4 : Q) :
  accurate float_sum ->
  density_history c = older ++ [y0; y1; y2; y3; y4] ->
  Forall (fun y => - (1) <= y /\ y <= 1) [y0; y1; y2; y3; y4] ->
  let t := tilt y0 y1 y3 y4 in
  let trend := get_density_trend float_sum c in
  (exists s, trend = Ok s) /\
  ((1 # 2) + (1 # 2 ^ 30) <= t -> trend = Ok "increasing") /\
  (t <= - (1 # 2) - (1 # 2 ^ 30) -> trend = Ok "decreasing") /\
  (- (1 # 2) + (1 # 2 ^ 30) <= t -> t <= (1 # 2) - (1 # 2 ^ 30) ->
   trend = Ok "stable") /\
  (y0 <= y1 -> y1 <= y3 -> y3 <= y4 -> trend <> Ok "decreasing").
Proof.
  intros Hacc Hh Hall t trend.
  destruct (trend_slope float_sum y0 y1 y2 y3 y4 Hacc Hall)
    as (slope & Hs & Hlo & Hhi).
  cbv zeta in Hs.
  assert (Heq : trend
                = Ok (if Qltb (Float.literal (5 # 100)) slope then "increasing"
                      else if Qltb slope (- Float.literal (5 # 100)) then "decreasing"
                      else "stable")).
  { unfold trend, get_density_trend. rewrite Hh, length_app.
    destruct (Nat.ltb_spec (length older + length [y0; y1; y2; y3; y4]) 2)
      as [Hlt | _]; [simpl in Hlt; lia|].
    assert (Hl : lastn 5 (older ++ [y0; y1; y2; y3; y4]) = [y0; y1; y2; y3; y4])
      by exact (lastn_app_exact older [y0; y1; y2; y3; y4]).
    rewrite !Hl. cbn [length Nat.ltb Nat.leb]. now rewrite Hs. }
  destruct trend_constants as (K1 & K2 & K3 & K4 & K5 & K6 & K7).
  fold t in Hlo, Hhi.
  assert (Hup : y0 <= y1 -> y1 <= y3 -> y3 <= y4 -> 0 <= t)
    by (unfold t, tilt; intros; lra).
  clearbody t trend. clear Hs Hh.
  set (lit := Float.literal (5 # 100)) in *.
  set (eps := 1 # 2 ^ 40) in *. set (eta := 1 # 2 ^ 30) in *.
  rewrite Heq. split; [eexists; reflexivity|].
  split; [|split; [|split]].
  - intros Ht. assert (H : lit < slope) by lra.
    apply Qltb_spec in H. now rewrite H.
  - intros Ht. assert (H1 : slope <= lit) by lra.
    assert (H2 : slope < - lit) by lra.
    apply Qltb_false in H1. apply Qltb_spec in H2. now rewrite H1, H2.
  - intros Ht1 Ht2. assert (H1 : slope <= lit) by lra.
    assert (H2 : - lit <= slope) by lra.
    apply Qltb_false in H1. apply Qltb_false in H2. now rewrite H1, H2.
  - intros H01 H13 H34. pose proof (Hup H01 H13 H34) as Ht.
    assert (H2 : - lit <= slope) by lra.
    apply Qltb_false in H2. rewrite H2.
    destruct (Qltb lit slope); discriminate.
Qed.

Lemma trend_last_five_witness :
  get_density_trend naive_sum
    (snd (feed [(1, 1%Z); (2, 3%Z); (3, 8%Z); (4, 20%Z); (5, 40%Z)] (init 1 15 0)))
  = Ok "increasing".
Proof.
  refine (proj1 (proj2 (trend_last_five naive_sum
            (snd (feed [(1, 1%Z); (2, 3%Z); (3, 8%Z); (4, 20%Z); (5, 40%Z)]
                       (init 1 15 0)))
            [] (1 # 15) (3 # 15) (8 # 15) 1 1 naive_sum_accurate _ _)) _).
  - vm_compute. reflexivity.
  - repeat (constructor; [split; vm_compute; discriminate|]). constructor.
  - vm_compute. discriminate.
Defined.

End TrendExtras.

(** ** Further properties of a traffic light *)

Module LightExtras.
Import Light LightFacts.

Lemma py_max_zero (x : Q) :
  0 <= py_max 0 x /\ (py_max 0 x == 0 <-> x <= 0) /\ (0 < x -> py_max 0 x = x).
Proof.
  unfold py_max. destruct (Qlt_le_dec 0 x) as [H | H];
    (split; [lra|]; split; [split; intros; lra|]);
    intros; [reflexivity | lra].
Qed.

(** X6.  [get_time_remaining] and [get_current_phase] agree.  When the table
    has a duration for the phase of the light, the time remaining is never
    negative, and it is 0 exactly when [get_current_phase], called at the
    same instant, moves the light to the next phase; with time remaining the
    light is left as it is.  When the table has no duration for the phase,
    both raise [KeyError] and the light is left as it is. *)
Theorem time_remaining_and_transition
    (now : Q) (h : heap) (l : TrafficLight) :
  (forall d, table h l !! current_phase l = Some d ->
     exists r,
       get_time_remaining now h l = Ok r /\
       0 <= r /\
       (r == 0 <->
        current_phase (snd (get_current_phase now h l))
        = next_phase (current_phase l)) /\
       (0 < r -> get_current_phase now h l = (Ok (current_phase l), l))) /\
  (table h l !! current_phase l = None ->
   get_time_remaining now h l = Raise (KeyError (current_phase l)) /\
   get_current_phase now h l = (Raise (KeyError (current_phase l)), l)).
Proof.
  unfold get_time_remaining, get_current_phase. split.
  - intros d Hd. rewrite Hd. eexists. split; [reflexivity|].
    set (e := now - phase_start_time l).
    destruct (py_max_zero (d - e)) as (H0 & Hz & Hpos).
    split; [exact H0|]. split; [split|].
    + intros Hr. apply Hz in Hr.
      assert (Hle : d <= e) by lra. apply Qle_bool_iff in Hle.
      now rewrite Hle.
    + destruct (Qle_bool d e) eqn:E; simpl.
      * intros _. apply Hz. apply Qle_bool_iff in E. lra.
      * intros Hp. symmetry in Hp. now apply next_phase_moves in Hp.
    + intros Hr. destruct (Qle_bool d e) eqn:E; [|reflexivity].
      apply Qle_bool_iff in E. assert (d - e <= 0) by lra.
      apply Hz in H. lra.
  - intros Hd. now rewrite Hd.
Qed.

Lemma time_remaining_and_transition_witness :
  exists r,
    get_time_remaining 10 (fst (init "L1" None 0 ∅)) (snd (init "L1" None 0 ∅)) = Ok r /\
    0 <= r.
Proof.
  destruct (proj1 (time_remaining_and_transition 10
                     (fst (init "L1" None 0 ∅)) (snd (init "L1" None 0 ∅))) 30)
    as (r & Hr & H0 & _).
  - reflexivity.
  - exists r. split; assumption.
Defined.

(** X7.  [force_phase] with a name that is not one of the three phases
    returns [False] and changes nothing.  With one of the three it returns
    [True]; the light is then in that phase with the whole duration of the
    phase remaining, when that duration is positive, and a call of
    [get_current_phase] at the same instant returns the forced phase. *)
Theorem force_phase_effect
    (new_phase : string) (now : Q) (h : heap) (l : TrafficLight) :
  (~ valid_phase new_phase -> force_phase new_phase now l = (false, l)) /\
  (valid_phase new_phase ->
   force_phase new_phase now l = (true, set_phase new_phase now l) /\
   forall d, table h l !! new_phase = Some d -> 0 < d ->
     (exists r, get_time_remaining now h (snd (force_phase new_phase now l)) = Ok r /\
                r == d) /\
     fst (get_current_phase now h (snd (force_phase new_phase now l)))
     = Ok new_phase).
Proof.
  unfold force_phase, valid_phase. split; intros Hv.
  - now rewrite bool_decide_eq_false_2.
  - rewrite bool_decide_eq_true_2 by exact Hv. split; [reflexivity|].
    intros d Hd Hpos. cbn [snd].
    unfold get_time_remaining, get_current_phase, table in *. cbn.
    rewrite Hd. split.
    + eexists. split; [reflexivity|].
      destruct (py_max_zero (d - (now - now))) as (_ & _ & Hp).
      rewrite Hp by lra. lra.
    + destruct (Qle_bool d (now - now)) eqn:E; [|reflexivity].
      apply Qle_bool_iff in E. lra.
Qed.

Lemma force_phase_effect_witness :
  force_phase "blue" 1 (snd (init "L1" None 0 ∅)) = (false, snd (init "L1" None 0 ∅)) /\
  fst (get_current_phase 1 (fst (init "L1" None 0 ∅))
         (snd (force_phase "yellow" 1 (snd (init "L1" None 0 ∅))))) = Ok "yellow".
Proof.
  pose proof (force_phase_effect "blue" 1 (fst (init "L1" None 0 ∅))
                (snd (init "L1" None 0 ∅))) as [Hbad _].
  pose proof (force_phase_effect "yellow" 1 (fst (init "L1" None 0 ∅))
                (snd (init "L1" None 0 ∅))) as [_ Hgood].
  split.
  - apply Hbad. unfold valid_phase. intros H. vm_compute in H.
    repeat (apply elem_of_cons in H as [H | H]; [discriminate|]).
    now apply elem_of_nil in H.
  - destruct Hgood as [_ Hd].
    + unfold valid_phase. apply list_elem_of_further, list_elem_of_here.
    + apply (Hd 5); reflexivity.
Defined.

(** What a call leaves of the table of the light and of its history. *)
Lemma exec_history (c : call) (s : heap * TrafficLight) :
  let s' := snd (exec c s) in
  timing (snd s') = timing (snd s) /\
  dom (table (fst s') (snd s')) = dom (table (fst s) (snd s)) /\
  exists recs,
    timing_history (snd s') = timing_history (snd s) ++ recs /\
    Forall (fun r => phase r = "yellow" -> 3 <= new_value r) recs.
Proof.
  destruct s as [h l]. destruct c as [now | ph x now | now | ph now]; cbn [exec].
  - destruct (get_current_phase_cases now h l) as [[e ->] | [-> | ->]]; simpl;
      (split; [reflexivity|]; split; [reflexivity|]);
      exists []; rewrite app_nil_r; auto.
  - unfold adjust_timing. destruct (table h l !! ph) as [old|] eqn:E; simpl.
    + split; [reflexivity|]. split.
      * unfold table. simpl. rewrite lookup_total_insert_eq, dom_insert_L.
        assert (Hin : ph ∈ dom (h !!! timing l)) by (apply elem_of_dom; eauto).
        apply subseteq_union_1_L. now apply singleton_subseteq_l.
      * eexists. split; [reflexivity|]. constructor; [|constructor].
        simpl. intros ->. rewrite decide_True by reflexivity.
        apply yellow_floor_value.
    + split; [reflexivity|]. split; [reflexivity|].
      exists []. rewrite app_nil_r. auto.
  - simpl. split; [reflexivity|]. split; [reflexivity|].
    exists []. rewrite app_nil_r. auto.
  - unfold force_phase. case_bool_decide; simpl;
      (split; [reflexivity|]; split; [reflexivity|]);
      exists []; rewrite app_nil_r; auto.
Qed.

(** X8.  Over any run of calls on a light, [timing_history] only grows at
    its end and no record of a yellow adjustment has a new value under 3;
    the table of the light keeps exactly the phases it had, none added and
    none removed.  [adjust_timing] on a phase that the table does not have
    returns [False] and changes nothing. *)
Theorem timing_history_append_only
    (cs : list call) (h : heap) (l : TrafficLight) (ph : string) (x now : Q) :
  (exists recs,
     timing_history (snd (snd (run cs (h, l)))) = timing_history l ++ recs /\
     Forall (fun r => phase r = "yellow" -> 3 <= new_value r) recs) /\
  dom (table (fst (snd (run cs (h, l)))) (snd (snd (run cs (h, l)))))
  = dom (table h l) /\
  (table h l !! ph = None -> adjust_timing ph x now h l = (false, h, l)).
Proof.
  split; [|split].
  - change l with (snd (h, l)) at 2. generalize (h, l) as s. clear.
    induction cs as [|c rest IH]; intros s.
    + exists []. simpl. rewrite app_nil_r. auto.
    + simpl. pose proof (exec_history c s) as (_ & _ & recs1 & H1 & F1).
      destruct (exec c s) as [o s1]. simpl in *.
      destruct (IH s1) as (recs2 & H2 & F2).
      destruct (run rest s1) as [os s2]. simpl in *.
      exists (recs1 ++ recs2). rewrite H2, H1, app_assoc. split; [reflexivity|].
      now apply Forall_app.
  - change (table h l) with (table (fst (h, l)) (snd (h, l))).
    generalize (h, l) as s. clear.
    induction cs as [|c rest IH]; intros s; [reflexivity|].
    simpl. pose proof (exec_history c s) as (_ & Hd & _).
    destruct (exec c s) as [o s1]. simpl in *.
    specialize (IH s1). destruct (run rest s1) as [os s2]. simpl in *.
    now rewrite IH.
  - intros Hn. unfold adjust_timing. now rewrite Hn.
Qed.

Lemma timing_history_append_only_witness :
  adjust_timing "blue" 4 1 (fst (init "L1" None 0 ∅)) (snd (init "L1" None 0 ∅))
  = (false, fst (init "L1" None 0 ∅), snd (init "L1" None 0 ∅)).
Proof.
  apply (proj2 (proj2 (timing_history_append_only []
                         (fst (init "L1" None 0 ∅)) (snd (init "L1" None 0 ∅))
                         "blue" 4 1))).
  reflexivity.
Defined.

End LightExtras.

(** ** Further properties of the controller *)

Module ControllerExtras.
Import Light LightFacts Controller ControllerFacts Coordination.

Lemma py_int_mono (x y : Q) : x <= y -> (py_int x <= py_int y)%Z.
Proof.
  unfold Qle, py_int. intros H.
  rewrite <- (Z.quot_mul_cancel_r (Qnum x) (Zpos (Qden x)) (Zpos (Qden y)))
    by discriminate.
  rewrite <- (Z.quot_mul_cancel_r (Qnum y) (Zpos (Qden y)) (Zpos (Qden x)))
    by discriminate.
  rewrite (Z.mul_comm (Zpos (Qden y)) (Zpos (Qden x))).
  apply Z.quot_le_mono; [lia | exact H].
Qed.

(** The two floats that the policy truncates. *)
Lemma new_green_time_eq (d : Q) :
  new_green_time d
  = Z.max 15 (Z.min 60 (py_int (Float.add 30 (Float.mul 30 d)))).
Proof. reflexivity. Qed.

Lemma red_time_eq (d : Q) :
  red_time d
  = Z.max 15 (py_int (Float.mul 30
                        (Float.sub 1 (Float.mul d (Float.literal (1 # 2)))))).
Proof. reflexivity. Qed.

Lemma green_float_mono (d1 d2 : Q) :
  d1 <= d2 ->
  Float.add 30 (Float.mul 30 d1) <= Float.add 30 (Float.mul 30 d2).
Proof.
  intros Hd. unfold Float.add, Float.mul.
  apply FloatFacts.round_mono.
  pose proof (FloatFacts.round_mono (30 * d1) (30 * d2) ltac:(lra)). lra.
Qed.

Lemma red_float_anti (d1 d2 : Q) :
  d1 <= d2 ->
  Float.mul 30 (Float.sub 1 (Float.mul d2 (Float.literal (1 # 2))))
  <= Float.mul 30 (Float.sub 1 (Float.mul d1 (Float.literal (1 # 2)))).
Proof.
  intros Hd. unfold Float.sub, Float.mul.
  pose proof FloatFacts.literal_half as Hh.
  set (half := Float.literal (1 # 2)) in *.
  assert (H1 : d1 * half <= d2 * half).
  { apply Qmult_le_compat_r; [exact Hd|]. rewrite Hh. discriminate. }
  pose proof (FloatFacts.round_mono _ _ H1) as H2.
  pose proof (FloatFacts.round_mono (1 - Float.round (d2 * half))
                (1 - Float.round (d1 * half)) ltac:(lra)) as H3.
  apply FloatFacts.round_mono. lra.
Qed.

(** The floats of the policy at densities 0, 1 and -0.5. *)
Lemma policy_values :
  Float.add 30 (Float.mul 30 0) == 30 /\
  Float.add 30 (Float.mul 30 1) == 60 /\
  Float.add 30 (Float.mul 30 (- (1 # 2))) == 15 /\
  Float.mul 30 (Float.sub 1 (Float.mul 0 (Float.literal (1 # 2)))) == 30 /\
  Float.mul 30 (Float.sub 1 (Float.mul 1 (Float.literal (1 # 2)))) == 15.
Proof. repeat split; vm_compute; reflexivity. Qed.

(** X12.  The green time set by the density policy is between 15 and 60
    and the red time is at least 15, whatever the density.  A larger density
    never gives a shorter green or a longer red.  A density that is not
    negative gives a green of at least 30 and a red of at most 30; from
    density 1 on the green is 60 and the red 15; at density -0.5 and under
    the green is 15. *)
Theorem timing_bounds (d1 d2 : Q) :
  (15 <= new_green_time d1 <= 60)%Z /\
  (15 <= red_time d1)%Z /\
  (d1 <= d2 ->
   (new_green_time d1 <= new_green_time d2)%Z /\ (red_time d2 <= red_time d1)%Z) /\
  (0 <= d1 -> (30 <= new_green_time d1)%Z /\ (red_time d1 <= 30)%Z) /\
  (1 <= d1 -> new_green_time d1 = 60%Z /\ red_time d1 = 15%Z) /\
  (d1 <= - (1 # 2) -> new_green_time d1 = 15%Z).
Proof.
  rewrite !new_green_time_eq, !red_time_eq.
  destruct policy_values as (G0 & G1 & Gm & R0 & R1).
  split; [lia|]. split; [lia|]. split; [|split; [|split]].
  - intros Hd.
    pose proof (py_int_mono _ _ (green_float_mono d1 d2 Hd)).
    pose proof (py_int_mono _ _ (red_float_anti d1 d2 Hd)).
    lia.
  - intros Hd.
    pose proof (green_float_mono 0 d1 Hd) as Hg. rewrite G0 in Hg.
    pose proof (red_float_anti 0 d1 Hd) as Hr. rewrite R0 in Hr.
    pose proof (py_int_le_lower _ 30 Hg). pose proof (py_int_le_upper _ 30 Hr).
    lia.
  - intros Hd.
    pose proof (green_float_mono 1 d1 Hd) as Hg. rewrite G1 in Hg.
    pose proof (red_float_anti 1 d1 Hd) as Hr. rewrite R1 in Hr.
    pose proof (py_int_le_lower _ 60 Hg). pose proof (py_int_le_upper _ 15 Hr).
    lia.
  - intros Hd.
    pose proof (green_float_mono d1 (- (1 # 2)) Hd) as Hg. rewrite Gm in Hg.
    pose proof (py_int_le_upper _ 15 Hg). lia.
Qed.

Lemma timing_bounds_witness :
  (new_green_time (1 # 4) <= new_green_time (3 # 4))%Z /\
  (red_time (3 # 4) <= red_time (1 # 4))%Z /\
  new_green_time 2 = 60%Z.
Proof.
  pose proof (timing_bounds (1 # 4) (3 # 4)) as (_ & _ & Hmono & _).
  pose proof (timing_bounds 2 2) as (_ & _ & _ & _ & Hone & _).
  destruct Hmono as [Hg Hr]; [vm_compute; discriminate|].
  destruct Hone as [H60 _]; [vm_compute; discriminate|].
  split; [exact Hg|]. split; [exact Hr | exact H60].
Defined.


Lemma greened_refl (now : Q) (l : TrafficLight) : greened now l l.
Proof. now left. Qed.

Lemma greened_trans (now : Q) (l1 l2 l3 : TrafficLight) :
  greened now l1 l2 -> greened now l2 l3 -> greened now l1 l3.
Proof.
  intros [-> | (-> & Hg & Hy)] [-> | (-> & Hg' & Hy')].
  - now left.
  - right. auto.
  - right. auto.
  - simpl in Hg'. congruence.
Qed.

Lemma greened_only_refl (now : Q) (s : state) : greened_only now s s.
Proof.
  repeat split. intros id. destruct (traffic_lights (snd s) !! id); [|exact I].
  apply greened_refl.
Qed.

Lemma greened_only_trans (now : Q) (s1 s2 s3 : state) :
  greened_only now s1 s2 -> greened_only now s2 s3 -> greened_only now s1 s3.
Proof.
  intros (Hh & Hd & Hg & Hl) (Hh' & Hd' & Hg' & Hl').
  split; [congruence|]. split; [congruence|]. split; [congruence|].
  intros id. specialize (Hl id). specialize (Hl' id).
  destruct (traffic_lights (snd s1) !! id), (traffic_lights (snd s2) !! id),
    (traffic_lights (snd s3) !! id); try tauto.
  eapply greened_trans; eassumption.
Qed.

(** The loop of [_force_green_wave] over the other lights reads only. *)
Lemma wave_loop_state (now : Q) (ids : list string) (s : state) :
  snd (for_each ids
         (fun light_id => light <- get_light light_id ;;
                          time_remaining now light ;;; ret tt) s) = s.
Proof.
  induction ids as [|a ids IH]; [reflexivity|].
  cbn [for_each]. unfold bind at 1. unfold bind at 1. unfold get_light at 1.
  destruct (traffic_lights (snd s) !! a) as [l|]; [|reflexivity].
  unfold bind at 1. unfold time_remaining at 1.
  destruct (get_time_remaining now (fst s) l); [|reflexivity].
  unfold ret at 1. exact IH.
Qed.

Lemma put_green_greened (now : Q) (s : state) (sel : string) (l : TrafficLight) :
  traffic_lights (snd s) !! sel = Some l ->
  current_phase l <> "green" -> current_phase l <> "yellow" ->
  greened_only now s (fst s, set_light sel (set_phase "green" now l) (snd s)).
Proof.
  intros Hl Hg Hy. repeat split. intros id. cbn [snd]. unfold set_light. simpl.
  destruct (decide (sel = id)) as [<- | Hne].
  - rewrite Hl, lookup_insert_eq. right. auto.
  - rewrite lookup_insert_ne by exact Hne.
    destruct (traffic_lights (snd s) !! id); [apply greened_refl | exact I].
Qed.

Lemma force_green_wave_greened (group : list string) (sel : string) (now : Q)
    (s : state) :
  greened_only now s (snd (_force_green_wave group sel now s)).
Proof.
  unfold _force_green_wave. unfold bind at 1. unfold get_light at 1.
  destruct (traffic_lights (snd s) !! sel) as [l|] eqn:Hl;
    [|apply greened_only_refl].
  destruct (decide (current_phase l ≠ "green")) as [Hg | Hg].
  - destruct (decide (current_phase l = "red")) as [Hred | Hred].
    + unfold bind at 1. unfold bind at 1. unfold bind at 1.
      unfold time_remaining at 1.
      destruct (get_time_remaining now (fst s) l) as [r | e];
        [|apply greened_only_refl].
      unfold ret at 1. destruct (Qltb r 5).
      * unfold ret at 1. rewrite wave_loop_state. apply greened_only_refl.
      * rewrite decide_False by congruence.
        unfold put_light, modify. rewrite wave_loop_state.
        apply put_green_greened; [exact Hl | exact Hg | congruence].
    + unfold bind at 1. unfold bind at 1. unfold ret at 1.
      destruct (decide (current_phase l = "yellow")) as [Hy | Hy].
      * unfold ret at 1. rewrite wave_loop_state. apply greened_only_refl.
      * unfold put_light, modify. rewrite wave_loop_state.
        now apply put_green_greened.
  - unfold bind at 1, ret at 1. rewrite wave_loop_state.
    apply greened_only_refl.
Qed.

Lemma coordinate_group_greened (group : list string) (now : Q) (s : state) :
  greened_only now s (snd (_coordinate_group group now s)).
Proof.
  unfold _coordinate_group.
  destruct (length group <? 2)%nat; [apply greened_only_refl|].
  unfold bind at 1. unfold gets at 1.
  destruct (find_max (traffic_densities (snd s)) group) as [m o].
  destruct (negb (truthy o)); [apply greened_only_refl|].
  unfold bind at 1. unfold get_light at 1.
  destruct (traffic_lights (snd s) !! default "" o) as [l|];
    [|apply greened_only_refl].
  destruct (decide (current_phase l ≠ "green")); [|apply greened_only_refl].
  destruct (Qltb (7 # 10) m); [|apply greened_only_refl].
  apply force_green_wave_greened.
Qed.

Lemma for_each_greened (now : Q) (groups : list (list string)) (s : state) :
  greened_only now s
    (snd (for_each groups (fun group => _coordinate_group group now) s)).
Proof.
  revert s. induction groups as [|g groups IH]; intros s;
    [apply greened_only_refl|].
  cbn [for_each]. unfold bind at 1.
  pose proof (coordinate_group_greened g now s) as H1.
  destruct (_coordinate_group g now s) as [[[]|e] s1]; cbn [snd] in *.
  - eapply greened_only_trans; [exact H1 | apply IH].
  - exact H1.
Qed.

(** X13.  Whatever the state, and also when it raises, [coordinate_lights]
    leaves the timing tables, the densities, the groups and the set of
    registered lights as they are; each light is either untouched or was
    in a phase other than green and yellow and is now green since the time
    of the call.  So a yellow light is never cut short. *)
Theorem coordinate_lights_only_greens (now : Q) (s : state) :
  greened_only now s (snd (coordinate_lights now s)) /\
  (forall light_id l l',
     traffic_lights (snd s) !! light_id = Some l ->
     traffic_lights (snd (snd (coordinate_lights now s))) !! light_id = Some l' ->
     current_phase l = "yellow" -> l' = l).
Proof.
  assert (H : greened_only now s (snd (coordinate_lights now s))).
  { unfold coordinate_lights. unfold bind at 1. unfold gets at 1.
    apply for_each_greened. }
  split; [exact H|].
  intros id l l' Hl Hl' Hy. destruct H as (_ & _ & _ & H). specialize (H id).
  rewrite Hl, Hl' in H. destruct H as [-> | (_ & _ & Hny)]; congruence.
Qed.

Lemma coordinate_lights_only_greens_witness :
  let s0 := snd (add_traffic_light "L2" None 0
                   (snd (add_traffic_light "L1" None 0 (∅, init)))) in
  let s1 := snd (update_traffic_density "L1" (9 # 10) 0 s0) in
  let l2 := snd (force_phase "yellow" 0 (fst (add_traffic_light "L2" None 0 s0))) in
  let s := (fst s1, snd (create_coordination_group ["L1"; "L2"]
                           (set_density "L2" 1 (set_light "L2" l2 (snd s1))))) in
  traffic_lights (snd (snd (coordinate_lights 1 s))) !! "L2"
  = traffic_lights (snd s) !! "L2".
Proof.
  intros s0 s1 l2 s.
  assert (Hl : exists l, traffic_lights (snd s) !! "L2" = Some l /\
                         current_phase l = "yellow").
  { eexists. split; vm_compute; reflexivity. }
  destruct Hl as (l & Hl & Hy). rewrite Hl.
  pose proof (proj1 (coordinate_lights_only_greens 1 s)) as (_ & _ & _ & Hs).
  specialize (Hs "L2"). rewrite Hl in Hs.
  destruct (traffic_lights (snd (snd (coordinate_lights 1 s))) !! "L2")
    as [l'|] eqn:Hl'; [|contradiction].
  f_equal. exact (proj2 (coordinate_lights_only_greens 1 s) "L2" l l' Hl Hl' Hy).
Defined.


Lemma find_max_bound (c : TrafficLightController) (ids : list string)
    (acc : Q * option string) (B : Q) :
  fst acc <= B -> (forall id, density_of c id <= B) ->
  fst (fold_left (find_max_step (traffic_densities c)) ids acc) <= B.
Proof.
  intros Hacc Hall. revert acc Hacc.
  induction ids as [|a ids IH]; intros [m o] Hacc; [exact Hacc|].
  simpl. apply IH. fold (density_of c a).
  destruct (Qltb m (density_of c a)); simpl; [apply Hall | exact Hacc].
Qed.

Lemma coordinate_group_inert (group : list string) (now : Q) (s : state) :
  (forall id, density_of (snd s) id <= 7 # 10) ->
  snd (_coordinate_group group now s) = s.
Proof.
  intros Hlow. unfold _coordinate_group.
  destruct (length group <? 2)%nat; [reflexivity|].
  unfold bind at 1. unfold gets at 1.
  pose proof (find_max_bound (snd s) group (- (1), None) (7 # 10)
                ltac:(simpl; lra) Hlow) as Hm.
  fold (find_max (traffic_densities (snd s)) group) in Hm.
  destruct (find_max (traffic_densities (snd s)) group) as [m o].
  simpl in Hm. apply Qltb_false in Hm.
  destruct (negb (truthy o)); [reflexivity|].
  unfold bind at 1. unfold get_light at 1.
  destruct (traffic_lights (snd s) !! default "" o) as [l|]; [|reflexivity].
  destruct (decide (current_phase l ≠ "green")); [|reflexivity].
  now rewrite Hm.
Qed.

(** X14.  When no density is over 0.7, [coordinate_lights] changes
    nothing, whatever the groups and the phases are. *)
Theorem coordinate_lights_inert (now : Q) (s : state) :
  (forall light_id, density_of (snd s) light_id <= 7 # 10) ->
  snd (coordinate_lights now s) = s.
Proof.
  intros Hlow. unfold coordinate_lights. unfold bind at 1. unfold gets at 1.
  generalize (coordination_groups (snd s)) as groups.
  induction groups as [|g groups IH]; [reflexivity|].
  cbn [for_each]. unfold bind at 1.
  pose proof (coordinate_group_inert g now s Hlow) as Hg.
  destruct (_coordinate_group g now s) as [[[]|e] s1]; cbn [snd] in Hg; subst s1.
  - exact IH.
  - reflexivity.
Qed.

Lemma coordinate_lights_inert_witness :
  let s0 := snd (add_traffic_light "L2" None 0
                   (snd (add_traffic_light "L1" None 0 (∅, init)))) in
  let s := (fst s0, snd (create_coordination_group ["L1"; "L2"] (snd s0))) in
  snd (coordinate_lights 1 s) = s.
Proof.
  intros s0 s. apply coordinate_lights_inert.
  intros id. unfold density_of.
  assert (Hd : traffic_densities (snd s) = <["L2" := 0]> (<["L1" := 0]> ∅))
    by (vm_compute; reflexivity).
  rewrite Hd.
  destruct (decide ("L2" = id)) as [<- | H2];
    [rewrite lookup_insert_eq; simpl; lra|].
  rewrite lookup_insert_ne by exact H2.
  destruct (decide ("L1" = id)) as [<- | H1];
    [rewrite lookup_insert_eq; simpl; lra|].
  rewrite lookup_insert_ne by exact H1. rewrite lookup_empty. simpl. lra.
Defined.


(** X9.  Lights built from one dict share their timing table.  When
    [update_traffic_density] retimes a light, every other registered light
    that holds the same dict gets the new green and red times too, with no
    record in its own [timing_history]; a light with a dict of its own keeps
    its table. *)
Theorem shared_table_retimed
    (s : state) (id1 id2 : string) (density now : Q) (l1 l2 : TrafficLight) :
  id1 <> id2 ->
  traffic_lights (snd s) !! id1 = Some l1 ->
  traffic_lights (snd s) !! id2 = Some l2 ->
  complete (table (fst s) l1) ->
  let s' := snd (update_traffic_density id1 density now s) in
  traffic_lights (snd s') !! id2 = Some l2 /\
  (timing l2 = timing l1 ->
   table (fst s') l2 !! "green" = Some (inject_Z (new_green_time density)) /\
   table (fst s') l2 !! "red" = Some (inject_Z (red_time density))) /\
  (timing l2 <> timing l1 -> table (fst s') l2 = table (fst s) l2).
Proof.
  intros Hne Hl1 Hl2 ([g Hg] & [y Hy] & [r Hr]). cbv zeta.
  rewrite (update_traffic_density_ok id1 density now s l1 g r y Hl1 Hg Hr Hy).
  cbn [snd fst]. split; [|split].
  - unfold set_light. simpl. now rewrite !lookup_insert_ne by exact Hne.
  - intros Ht. rewrite (table_insert _ l1 l2 _ Ht). split.
    + rewrite lookup_insert_ne by discriminate. apply lookup_insert_eq.
    + apply lookup_insert_eq.
  - intros Ht. unfold table.
    rewrite !lookup_total_insert_ne by congruence. reflexivity.
Qed.

Lemma shared_table_retimed_witness :
  let caller : heap := {[ 1%positive := default_timing ]} in
  let s := snd (add_traffic_light "L2" (Some 1%positive) 0
                  (snd (add_traffic_light "L1" (Some 1%positive) 0 (caller, init)))) in
  traffic_lights (snd (snd (update_traffic_density "L1" 1 5 s))) !! "L2"
  = traffic_lights (snd s) !! "L2".
Proof.
  intros caller s.
  apply (shared_table_retimed s "L1" "L2" 1 5
           (fst (add_traffic_light "L1" (Some 1%positive) 0 (caller, init)))
           (fst (add_traffic_light "L2" (Some 1%positive) 0
                   (snd (add_traffic_light "L1" (Some 1%positive) 0 (caller, init)))))).
  - discriminate.
  - vm_compute. reflexivity.
  - vm_compute. reflexivity.
  - repeat split; vm_compute; eexists; reflexivity.
Defined.

(** X10.  [add_traffic_light] with an id that is registered returns the
    registered light and changes nothing.  With a new id it registers a red
    light whose phase starts at the time of the call, with no connected
    lights, no history and density 0, and leaves the other lights, the
    densities of the other lights and the groups as they are; without a
    table of the caller the new light gets the default table at an address
    that no table had, and the tables that were there are unchanged. *)
Theorem add_traffic_light_registers
    (id : string) (initial_timing : option positive) (now : Q) (s : state) :
  (forall l, traffic_lights (snd s) !! id = Some l ->
     add_traffic_light id initial_timing now s = (l, s)) /\
  (traffic_lights (snd s) !! id = None ->
   let light := fst (add_traffic_light id initial_timing now s) in
   let s' := snd (add_traffic_light id initial_timing now s) in
   traffic_lights (snd s') !! id = Some light /\
   Light.id light = id /\ current_phase light = "red" /\
   phase_start_time light = now /\
   connected_lights light = [] /\ timing_history light = [] /\
   traffic_densities (snd s') !! id = Some 0 /\
   coordination_groups (snd s') = coordination_groups (snd s) /\
   (forall other, other <> id ->
      traffic_lights (snd s') !! other = traffic_lights (snd s) !! other /\
      traffic_densities (snd s') !! other = traffic_densities (snd s) !! other) /\
   (forall a, initial_timing = Some a -> fst s' = fst s /\ timing light = a) /\
   (initial_timing = None ->
    fst s !! timing light = None /\
    table (fst s') light = default_timing /\
    forall a t, fst s !! a = Some t -> fst s' !! a = Some t)).
Proof.
  destruct s as [h c]. unfold add_traffic_light. cbn [fst snd]. split.
  - intros l Hl. now rewrite Hl.
  - intros Hn. rewrite Hn. unfold Light.init.
    assert (Hfresh : h !! fresh (dom h) = None).
    { apply not_elem_of_dom. apply is_fresh. }
    destruct initial_timing as [a|]; cbn [fst snd]; split_and!;
      try reflexivity; try (simpl; apply lookup_insert_eq).
    + intros other Ho. split; simpl; now apply lookup_insert_ne.
    + intros a0 [= <-]. split; reflexivity.
    + discriminate.
    + intros other Ho. split; simpl; now apply lookup_insert_ne.
    + discriminate.
    + intros _. split_and!.
      * exact Hfresh.
      * unfold table. simpl. apply lookup_total_insert_eq.
      * intros a t Ha. rewrite lookup_insert_ne; [exact Ha|].
        intros E. rewrite E in Hfresh. congruence.
Qed.

Lemma add_traffic_light_registers_witness :
  let s := snd (add_traffic_light "L1" None 0 (∅, init)) in
  add_traffic_light "L1" None 9 s = (fst (add_traffic_light "L1" None 0 (∅, init)), s) /\
  traffic_densities (snd (snd (add_traffic_light "L2" None 9 s))) !! "L2" = Some 0.
Proof.
  intros s. split.
  - apply (proj1 (add_traffic_light_registers "L1" None 9 s)).
    vm_compute. reflexivity.
  - apply (proj2 (add_traffic_light_registers "L2" None 9 s)).
    vm_compute. reflexivity.
Defined.

(** X11.  [update_traffic_density] on an id that is not registered returns
    [False] and changes nothing.  On a registered light whose table has no
    yellow time it raises [KeyError('yellow')] after the density is stored:
    the density is the new one, and the tables and the lights are untouched. *)
Theorem update_traffic_density_failures
    (light_id : string) (density now : Q) (s : state) :
  (traffic_lights (snd s) !! light_id = None ->
   update_traffic_density light_id density now s = (Ok false, s)) /\
  (forall l, traffic_lights (snd s) !! light_id = Some l ->
     table (fst s) l !! "yellow" = None ->
     update_traffic_density light_id density now s
     = (Raise (KeyError "yellow"), (fst s, set_density light_id density (snd s)))).
Proof.
  unfold update_traffic_density. split.
  - intros Hn. now rewrite Hn.
  - intros l Hl Hy. rewrite Hl.
    unfold bind at 1. unfold modify at 1.
    unfold bind at 1. unfold _adjust_timing_based_on_density.
    unfold bind at 1. unfold get_light at 1. cbn [fst snd set_density traffic_lights].
    rewrite Hl. unfold bind at 1. cbn [fst]. now rewrite Hy.
Qed.

Lemma update_traffic_density_failures_witness :
  let caller : heap := {[ 1%positive := <["green" := 30]> (<["red" := 30]> ∅) ]} in
  let s := snd (add_traffic_light "L1" (Some 1%positive) 0 (caller, init)) in
  update_traffic_density "L9" 1 5 s = (Ok false, s) /\
  fst (update_traffic_density "L1" 1 5 s) = Raise (KeyError "yellow").
Proof.
  intros caller s.
  pose proof (update_traffic_density_failures "L9" 1 5 s) as [H9 _].
  pose proof (update_traffic_density_failures "L1" 1 5 s) as [_ H1].
  split.
  - apply H9. vm_compute. reflexivity.
  - rewrite (H1 (fst (add_traffic_light "L1" (Some 1%positive) 0 (caller, init))));
      [reflexivity | vm_compute; reflexivity | vm_compute; reflexivity].
Defined.

(** X15.  After [create_coordination_group] on registered ids, two members
    of the list with different ids list each other and no member lists
    itself.  The lists are replaced, not merged: a light of an earlier group
    that is not in the new list keeps listing a member of the new list that
    no longer lists it. *)
Theorem connected_lights_mutual
    (light_ids : list string) (c : TrafficLightController) (a b : string)
    (la lb : TrafficLight) :
  (forall id, id ∈ light_ids -> is_Some (traffic_lights c !! id)) ->
  a ∈ light_ids ->
  let c' := snd (create_coordination_group light_ids c) in
  traffic_lights c' !! a = Some la ->
  traffic_lights c' !! b = Some lb ->
  (a ∉ connected_lights la) /\
  (b ∈ light_ids -> a <> b ->
   b ∈ connected_lights la /\ a ∈ connected_lights lb) /\
  (b ∉ light_ids ->
   (b ∉ connected_lights la) /\
   traffic_lights c !! b = Some lb).
Proof.
  intros Hall Ha c' Hla Hlb. unfold c', create_coordination_group in *.
  rewrite (proj2 (registered_all _ _) Hall) in Hla, Hlb. cbn [snd] in Hla, Hlb.
  destruct (connect_all light_ids light_ids
              {| traffic_lights := traffic_lights c;
                 traffic_densities := traffic_densities c;
                 coordination_groups := coordination_groups c ++ [light_ids] |})
    as (Hl & _ & _). cbv zeta in Hl. cbn [traffic_lights] in Hl.
  rewrite Hl, decide_True in Hla by exact Ha.
  destruct (traffic_lights c !! a) as [la0|] eqn:Ea; [|discriminate].
  simpl in Hla. inversion Hla; subst la; clear Hla. simpl.
  split; [|split].
  - rewrite list_elem_of_filter. tauto.
  - intros Hb Hne. rewrite Hl, decide_True in Hlb by exact Hb.
    destruct (traffic_lights c !! b) as [lb0|] eqn:Eb; [|discriminate].
    simpl in Hlb. inversion Hlb; subst lb; clear Hlb. simpl.
    rewrite !list_elem_of_filter. split; split; auto.
  - intros Hb. rewrite Hl, decide_False in Hlb by exact Hb.
    split; [|exact Hlb]. rewrite list_elem_of_filter. tauto.
Qed.

Lemma connected_lights_mutual_witness :
  let c := snd (snd (add_traffic_light "L3" None 0
             (snd (add_traffic_light "L2" None 0
                (snd (add_traffic_light "L1" None 0 (∅, init))))))) in
  let c1 := snd (create_coordination_group ["L1"; "L2"] c) in
  exists la lb,
    traffic_lights (snd (create_coordination_group ["L1"; "L3"] c1)) !! "L1" = Some la /\
    traffic_lights (snd (create_coordination_group ["L1"; "L3"] c1)) !! "L2" = Some lb /\
    ("L2" ∉ connected_lights la) /\ "L1" ∈ connected_lights lb.
Proof.
  intros c c1.
  assert (Hla : exists la,
             traffic_lights (snd (create_coordination_group ["L1"; "L3"] c1)) !! "L1"
             = Some la) by (eexists; vm_compute; reflexivity).
  assert (Hlb : exists lb,
             traffic_lights (snd (create_coordination_group ["L1"; "L3"] c1)) !! "L2"
             = Some lb /\ "L1" ∈ connected_lights lb).
  { eexists. split; [vm_compute; reflexivity|]. apply list_elem_of_here. }
  destruct Hla as [la Hla]. destruct Hlb as (lb & Hlb & Hin1).
  exists la, lb. split; [exact Hla|]. split; [exact Hlb|]. split; [|exact Hin1].
  refine (proj1 (proj2 (proj2 (connected_lights_mutual ["L1"; "L3"] c1 "L1" "L2"
                                 la lb _ _ Hla Hlb)) _)).
  - intros id Hin.
    apply elem_of_cons in Hin as [-> | Hin];
      [|apply elem_of_cons in Hin as [-> | Hin]];
      [vm_compute; eexists; reflexivity | vm_compute; eexists; reflexivity |].
    now apply elem_of_nil in Hin.
  - apply list_elem_of_here.
  - intros Hin.
    apply elem_of_cons in Hin as [Hin | Hin]; [discriminate|].
    apply elem_of_cons in Hin as [Hin | Hin]; [discriminate|].
    now apply elem_of_nil in Hin.
Defined.

End ControllerExtras.
(** ** The communication manager *)

Module CommMoreFacts.
Import Comm CommFacts Dispatch.

(** *** Keys of [client_connections] *)

Lemma key_eqb_sym (a b : JSON) : key_eqb a b = true -> key_eqb b a = true.
Proof.
  destruct a, b; simpl; try discriminate; try reflexivity;
    try (apply Qeq_bool_sym).
  intros H. apply String.eqb_eq in H. subst. apply String.eqb_refl.
Qed.

Lemma key_eqb_trans (a b c : JSON) :
  key_eqb a b = true -> key_eqb b c = true -> key_eqb a c = true.
Proof.
  destruct a, b, c; simpl; try discriminate; try reflexivity;
    try (apply Qeq_bool_trans).
  intros H1 H2. apply String.eqb_eq in H1, H2. subst. apply String.eqb_refl.
Qed.

Lemma key_eqb_sym_false (a b : JSON) : key_eqb a b = false -> key_eqb b a = false.
Proof.
  intros H. destruct (key_eqb b a) eqn:E; [|reflexivity].
  apply key_eqb_sym in E. congruence.
Qed.

(** Two keys that are equal find the same entries. *)
Lemma key_eqb_congr (a b k : JSON) :
  key_eqb a b = true -> key_eqb a k = key_eqb b k.
Proof.
  intros Hab. destruct (key_eqb b k) eqn:E.
  - exact (key_eqb_trans a b k Hab E).
  - destruct (key_eqb a k) eqn:E'; [|reflexivity].
    rewrite <- E. symmetry.
    exact (key_eqb_trans b a k (key_eqb_sym _ _ Hab) E').
Qed.

Lemma conn_get_congr (a b : JSON) (conns : list (JSON * nat)) :
  key_eqb a b = true -> conn_get a conns = conn_get b conns.
Proof.
  intros Hab. induction conns as [|[k s] rest IH]; [reflexivity|]. simpl.
  rewrite (key_eqb_congr a b k Hab). now rewrite IH.
Qed.

(** A key that differs from [a] differs from every key equal to [a]. *)
Lemma key_eqb_apart (a b k : JSON) :
  key_eqb a b = true -> key_eqb k a = false -> key_eqb k b = false.
Proof.
  intros Hab Hka. destruct (key_eqb k b) eqn:E; [|reflexivity].
  rewrite <- Hka. symmetry.
  apply (key_eqb_trans k b a E). now apply key_eqb_sym.
Qed.

Lemma conn_get_set_other (k k' : JSON) (sock : nat) (conns : list (JSON * nat)) :
  key_eqb k' k = false ->
  conn_get k' (conn_set k sock conns) = conn_get k' conns.
Proof.
  intros Hne. induction conns as [|[k0 s0] rest IH]; simpl.
  - now rewrite Hne.
  - destruct (key_eqb k k0) eqn:E; simpl.
    + now rewrite (key_eqb_apart k k0 k' E Hne).
    + now rewrite IH.
Qed.

Lemma conn_get_del_other (id k' : JSON) (conns : list (JSON * nat)) :
  key_eqb k' id = false ->
  conn_get k' (conn_del id conns) = conn_get k' conns.
Proof.
  intros Hne. induction conns as [|[k0 s0] rest IH]; simpl; [reflexivity|].
  destruct (key_eqb id k0) eqn:E; simpl.
  - now rewrite (key_eqb_apart id k0 k' E Hne).
  - now rewrite IH.
Qed.

Lemma conn_get_del (id : JSON) (conns : list (JSON * nat)) :
  unique_keys conns -> conn_get id (conn_del id conns) = None.
Proof.
  induction conns as [|[k0 s0] rest IH]; simpl; [reflexivity|].
  intros (Hh & Hnone & Hu). destruct (key_eqb id k0) eqn:E; simpl.
  - now rewrite (conn_get_congr id k0 rest E).
  - rewrite E. now apply IH.
Qed.

Lemma unique_keys_set (k : JSON) (sock : nat) (conns : list (JSON * nat)) :
  hashable k = true -> unique_keys conns -> unique_keys (conn_set k sock conns).
Proof.
  intros Hk. induction conns as [|[k0 s0] rest IH]; simpl.
  - auto.
  - intros (Hh & Hnone & Hu). destruct (key_eqb k k0) eqn:E; simpl.
    + auto.
    + split; [exact Hh|]. split; [|now apply IH].
      rewrite conn_get_set_other; [exact Hnone|].
      now apply key_eqb_sym_false.
Qed.

Lemma unique_keys_del (id : JSON) (conns : list (JSON * nat)) :
  unique_keys conns -> unique_keys (conn_del id conns).
Proof.
  induction conns as [|[k0 s0] rest IH]; simpl; [auto|].
  intros (Hh & Hnone & Hu). destruct (key_eqb id k0) eqn:E; simpl.
  - exact Hu.
  - split; [exact Hh|]. split; [|now apply IH].
    rewrite conn_get_del_other; [exact Hnone|].
    now apply key_eqb_sym_false.
Qed.

(** *** The end of a connection *)

Lemma cleanup_effect (id : JSON) (m : CommunicationManager) (c : connection) :
  hashable id = true ->
  unique_keys (client_connections m) ->
  let w := cleanup (Some id) m c in
  handler (snd w) = Finished /\ socket_closed (snd w) = true /\
  inbuf (snd w) = inbuf c /\
  message_queue (fst w) = message_queue m /\ running (fst w) = running m /\
  unique_keys (client_connections (fst w)) /\
  (truth id = true ->
   conn_get id (client_connections (fst w)) = None /\
   forall k, key_eqb k id = false ->
     conn_get k (client_connections (fst w)) = conn_get k (client_connections m)) /\
  (truth id = false -> fst w = m).
Proof.
  intros Hh Hu. unfold cleanup. rewrite Hh.
  destruct (truth id) eqn:Ht;
    [destruct (conn_get id (client_connections m)) as [sock|] eqn:Hg|];
    cbn; do 5 (split; [reflexivity|]).
  - split; [now apply unique_keys_del|]. split; [|discriminate].
    intros _. split; [now apply conn_get_del|].
    intros k Hk. now apply conn_get_del_other.
  - split; [exact Hu|]. split; [|discriminate].
    intros _. split; [exact Hg | reflexivity].
  - split; [exact Hu|]. split; [discriminate | reflexivity].
Qed.

Lemma recv_eof (c : connection) :
  inbuf c = [] -> peer_closed c = true -> recv 1024 c = (Eof, c).
Proof. intros Hb Hp. unfold recv. now rewrite Hb, Hp. Qed.

(** *** What the main loop does with each kind of data *)

Section Feeding.
Variable loads : list byte -> loads_result.

Lemma serve_bad_json (client_id : JSON) (data : list byte)
    (m : CommunicationManager) (c : connection) :
  running m = true ->
  loads data = JSONDecodeError ->
  serve loads client_id data m c = (m, set_stage (Serving client_id) c).
Proof.
  intros Hrun Hl. unfold serve. rewrite Hl. unfold loop_head. now rewrite Hrun.
Qed.

Lemma serve_fatal (client_id : JSON) (data : list byte)
    (m : CommunicationManager) (c : connection) :
  (loads data = UnicodeDecodeError \/
   exists v, loads data = Loaded v /\ forall members, v <> JObj members) ->
  serve loads client_id data m c = cleanup (Some client_id) m c.
Proof.
  unfold serve. intros [-> | (v & -> & Hv)]; [reflexivity|].
  destruct v; try reflexivity. now destruct (Hv members).
Qed.

Lemma dict_get_set (k : string) (v : JSON) (members : list (string * JSON)) :
  dict_get k (dict_set k v members) = Some v.
Proof.
  induction members as [|[k' v'] rest IH]; simpl.
  - now rewrite String.eqb_refl.
  - destruct (String.eqb k k') eqn:E; simpl; rewrite E; [reflexivity | exact IH].
Qed.

Lemma dict_get_set_other (k k' : string) (v : JSON) (members : list (string * JSON)) :
  k' <> k -> dict_get k' (dict_set k v members) = dict_get k' members.
Proof.
  intros Hne. induction members as [|[k0 v0] rest IH]; simpl.
  - apply String.eqb_neq in Hne. now rewrite Hne.
  - destruct (String.eqb k k0) eqn:E; simpl.
    + apply String.eqb_eq in E. subst k0.
      apply String.eqb_neq in Hne. now rewrite Hne.
    + now rewrite IH.
Qed.

Lemma cleanup_keeps (o : option JSON) (m : CommunicationManager) (c : connection) :
  running (fst (cleanup o m c)) = running m /\
  message_queue (fst (cleanup o m c)) = message_queue m /\
  handler (snd (cleanup o m c)) = Finished.
Proof.
  unfold cleanup. destruct o as [id|]; [|split_and!; reflexivity].
  destruct (truth id); [|split_and!; reflexivity].
  destruct (hashable id); [|split_and!; reflexivity].
  destruct (conn_get id (client_connections m)); split_and!; reflexivity.
Qed.

Lemma loop_head_keeps (id : JSON) (m : CommunicationManager) (c : connection) :
  running (fst (loop_head id m c)) = running m /\
  message_queue (fst (loop_head id m c)) = message_queue m /\
  (handler (snd (loop_head id m c)) = Serving id \/
   handler (snd (loop_head id m c)) = Finished).
Proof.
  unfold loop_head. destruct (running m) eqn:E.
  - split_and!; [exact E | reflexivity | now left].
  - destruct (cleanup_keeps (Some id) m c) as (H1 & H2 & H3).
    split_and!; [congruence | exact H2 | now right].
Qed.

Lemma register_keeps (data : list byte) (m : CommunicationManager) (c : connection) :
  running (fst (register loads data m c)) = running m /\
  message_queue (fst (register loads data m c)) = message_queue m.
Proof.
  unfold register.
  pose proof (cleanup_keeps None m c) as (N1 & N2 & _).
  destruct (loads data) as [message | |]; [|auto|auto].
  destruct (contains "id" message) as [[|] | ?]; [|auto|auto].
  destruct (getitem "id" message) as [id | ?]; [|auto].
  destruct (hashable id).
  - destruct (loop_head_keeps id
                (set_connections
                   (conn_set id (client_socket c) (client_connections m)) m) c)
      as (H1 & H2 & _). auto.
  - destruct (cleanup_keeps (Some id) m c) as (H1 & H2 & _). auto.
Qed.

Lemma serve_keeps (id : JSON) (data : list byte) (m : CommunicationManager)
    (c : connection) :
  running (fst (serve loads id data m c)) = running m /\
  (exists new,
     message_queue (fst (serve loads id data m c)) = message_queue m ++ new /\
     Forall (tagged id) new) /\
  (handler (snd (serve loads id data m c)) = Serving id \/
   handler (snd (serve loads id data m c)) = Finished).
Proof.
  pose proof (cleanup_keeps (Some id) m c) as (C1 & C2 & C3).
  assert (Hfatal : serve loads id data m c = cleanup (Some id) m c ->
                   running (fst (serve loads id data m c)) = running m /\
                   (exists new,
                      message_queue (fst (serve loads id data m c))
                      = message_queue m ++ new /\ Forall (tagged id) new) /\
                   (handler (snd (serve loads id data m c)) = Serving id \/
                    handler (snd (serve loads id data m c)) = Finished)).
  { intros ->. split; [exact C1|]. split; [|now right].
    exists []. rewrite app_nil_r. split; [exact C2 | constructor]. }
  destruct (loads data) as [message | |] eqn:Hl.
  - destruct message;
      try (apply Hfatal; apply serve_fatal; right; eexists;
           split; [exact Hl | discriminate]).
    unfold serve. rewrite Hl. cbn [setitem].
    destruct (loop_head_keeps id (put (JObj (dict_set "sender" id members)) m) c)
      as (H1 & H2 & H3).
    split; [exact H1|]. split; [|exact H3].
    eexists. split; [exact H2|]. constructor; [|constructor].
    eexists. split; [reflexivity | apply dict_get_set].
  - unfold serve. rewrite Hl.
    destruct (loop_head_keeps id m c) as (H1 & H2 & H3).
    split; [exact H1|]. split; [|exact H3].
    exists []. rewrite app_nil_r. split; [exact H2 | constructor].
  - apply Hfatal. apply serve_fatal. now left.
Qed.

(** What one event does to the queue, the flag and the stage. *)
Lemma occur_queue (e : event) (m : CommunicationManager) (c : connection) :
  let w := occur loads e (m, c) in
  running (fst w) = running m /\
  exists new,
    message_queue (fst w) = message_queue m ++ new /\
    match handler c with
    | AwaitingRegistration => new = []
    | Serving id =>
        Forall (tagged id) new /\
        (handler (snd w) = Serving id \/ handler (snd w) = Finished)
    | Finished => new = [] /\ handler (snd w) = Finished
    end.
Proof.
  destruct e as [data | |]; cbn [occur fst snd].
  - split; [reflexivity|]. exists []. rewrite app_nil_r. split; [reflexivity|].
    cbn [deliver handler]. destruct (handler c); auto.
  - split; [reflexivity|]. exists []. rewrite app_nil_r. split; [reflexivity|].
    cbn [close_peer handler]. destruct (handler c); auto.
  - unfold handler_step. destruct (handler c) as [|id|] eqn:Hst.
    + destruct (recv 1024 c) as [[data | |] c1].
      * destruct (register_keeps data m c1) as [H1 H2].
        split; [exact H1|]. exists []. now rewrite app_nil_r.
      * destruct (cleanup_keeps None m c1) as (H1 & H2 & _).
        split; [exact H1|]. exists []. now rewrite app_nil_r.
      * split; [reflexivity|]. exists []. now rewrite app_nil_r.
    + destruct (recv 1024 c) as [[data | |] c1].
      * destruct (serve_keeps id data m c1) as (H1 & (new & H2 & H3) & H4).
        split; [exact H1|]. exists new. auto.
      * destruct (cleanup_keeps (Some id) m c1) as (H1 & H2 & H3).
        split; [exact H1|]. exists []. rewrite app_nil_r.
        split; [exact H2|]. split; [constructor | now right].
      * split; [reflexivity|]. exists []. rewrite app_nil_r.
        split; [reflexivity|]. split; [constructor | left; exact Hst].
    + split; [reflexivity|]. exists []. rewrite app_nil_r. auto.
Qed.

End Feeding.

(** *** Sending *)

Lemma key_eqb_hashable (a b : JSON) : key_eqb a b = true -> hashable a = true.
Proof. destruct a, b; simpl; congruence. Qed.

Lemma sendall_ok (sock : nat) (data : list byte) (sv : Server) :
  sock ∉ broken sv ->
  sendall sock data sv
  = Some {| manager := manager sv; written := written sv ++ [(sock, data)];
            broken := broken sv; closed := closed sv;
            listening := listening sv |}.
Proof. intros H. unfold sendall. now rewrite bool_decide_eq_false_2. Qed.

Lemma sendall_raises (sock : nat) (data : list byte) (sv : Server) :
  sock ∈ broken sv -> sendall sock data sv = None.
Proof. intros H. unfold sendall. now rewrite bool_decide_eq_true_2. Qed.

Lemma send_each_effect (encoded_message : list byte) (clients : list (JSON * nat))
    (sv : Server) :
  let sv' := send_each encoded_message clients sv in
  manager sv' = manager sv /\ broken sv' = broken sv /\
  closed sv' = closed sv /\ listening sv' = listening sv /\
  written sv'
  = written sv
    ++ map (fun client => (snd client, encoded_message))
           (filter (fun client => snd client ∉ broken sv) clients).
Proof.
  revert sv. induction clients as [|[client_id client_socket] rest IH]; intros sv.
  - simpl. rewrite app_nil_r. auto.
  - cbv zeta. cbn [send_each]. rewrite filter_cons. cbn [snd].
    destruct (decide (client_socket ∉ broken sv)) as [Hok | Hbad].
    + rewrite (sendall_ok _ _ _ Hok).
      match goal with
      | |- context [send_each _ rest ?sv1] =>
          destruct (IH sv1) as (H1 & H2 & H3 & H4 & H5)
      end.
      cbn [manager broken closed listening written] in *.
      rewrite H1, H2, H3, H4, H5. cbn [map]. rewrite <- app_assoc.
      split_and!; reflexivity.
    + rewrite sendall_raises by (destruct (decide (client_socket ∈ broken sv)); tauto).
      apply IH.
Qed.

(** *** The queue worker *)

Lemma conn_get_hashable (k : JSON) (conns : list (JSON * nat)) (sock : nat) :
  conn_get k conns = Some sock -> hashable k = true.
Proof.
  induction conns as [|[k' s'] rest IH]; simpl; [discriminate|].
  destruct (key_eqb k k') eqn:E; [|exact IH].
  intros _. exact (key_eqb_hashable _ _ E).
Qed.

Lemma str_eq_true (v : JSON) (s : string) : str_eq v s = true -> v = JStr s.
Proof.
  destruct v; simpl; try discriminate. intros H. apply String.eqb_eq in H.
  now subst.
Qed.

Lemma handle_command_effect (dumps : JSON -> list byte) (message : JSON)
    (sv : Server) :
  let sv' := default sv (_handle_command dumps message sv) in
  manager sv' = manager sv /\ broken sv' = broken sv /\
  closed sv' = closed sv /\ listening sv' = listening sv /\
  (written sv' = written sv \/
   exists members target sock,
     message = JObj members /\
     dict_get "target" members = Some target /\
     conn_get target (client_connections (manager sv)) = Some sock /\
     (sock ∉ broken sv) /\
     written sv' = written sv ++ [(sock, dumps message)]).
Proof.
  cbv zeta. unfold _handle_command.
  destruct (contains "target" message) as [[|]|] eqn:Hc;
    try (cbn; split_and!; auto; fail).
  destruct (getitem "target" message) as [target|] eqn:Hg;
    try (cbn; split_and!; auto; fail).
  unfold connected.
  destruct (hashable target); try (cbn; split_and!; auto; fail).
  destruct (conn_get target (client_connections (manager sv))) as [sock|] eqn:Hs;
    try (cbn; split_and!; auto; fail).
  destruct (decide (sock ∈ broken sv)) as [Hbad | Hok].
  - rewrite (sendall_raises _ _ _ Hbad). cbn. split_and!; auto.
  - rewrite (sendall_ok _ _ _ Hok). cbn. split_and!; auto.
    right. destruct message; try discriminate.
    unfold getitem in Hg. destruct (dict_get "target" members) eqn:Hd;
      [|discriminate].
    inversion Hg; subst. exists members, target, sock. auto.
Qed.

End CommMoreFacts.

Module CommExtras.
Import Comm CommFacts Dispatch CommMoreFacts.

(** X16.  When the peer of a registered connection has closed and nothing
    is left to read, the handler returns and closes the socket, leaving the
    queue and the running flag alone.  When the id is true in Python's
    sense, the entry under it is removed and no other entry changes; when
    the id is false in that sense (an empty string, 0, [None]), the entry
    stays in [client_connections]. *)
Theorem handler_disconnect
    (loads : list byte -> loads_result) (m : CommunicationManager)
    (c : connection) (client_id : JSON) :
  handler c = Serving client_id ->
  inbuf c = [] -> peer_closed c = true ->
  hashable client_id = true ->
  unique_keys (client_connections m) ->
  let w := handler_step loads m c in
  handler (snd w) = Finished /\ socket_closed (snd w) = true /\
  message_queue (fst w) = message_queue m /\ running (fst w) = running m /\
  (truth client_id = true ->
   conn_get client_id (client_connections (fst w)) = None /\
   forall k, key_eqb k client_id = false ->
     conn_get k (client_connections (fst w)) = conn_get k (client_connections m)) /\
  (truth client_id = false -> fst w = m).
Proof.
  intros Hst Hb Hp Hh Hu w. subst w. unfold handler_step.
  rewrite Hst, (recv_eof c Hb Hp).
  destruct (cleanup_effect client_id m c Hh Hu)
    as (H1 & H2 & _ & H3 & H4 & _ & H5 & H6).
  auto 10.
Qed.

Lemma handler_disconnect_witness :
  let m := {| client_connections := []; message_queue := []; running := true |} in
  let w := run loads_ascii [Deliver (register_text "L1"); Step] (m, accept 1) in
  conn_get (JStr "L1") (client_connections (fst w)) = Some 1%nat /\
  conn_get (JStr "L1")
    (client_connections (fst (handler_step loads_ascii (fst w) (close_peer (snd w)))))
  = None.
Proof.
  intros m w. split; [reflexivity|].
  refine (proj1 (proj1 (proj2 (proj2 (proj2 (proj2
            (handler_disconnect loads_ascii (fst w) (close_peer (snd w))
               (JStr "L1") _ _ _ _ _))))) _));
    try reflexivity.
  vm_compute. auto.
Defined.

(** X17.  Two connections that register the same id share one entry of
    [client_connections], which holds the socket of the later one.  When
    the earlier connection ends, its handler removes that entry: the later
    connection is still served but can no longer be found under its id. *)
Theorem shared_id_unregistered
    (loads : list byte -> loads_result) (m : CommunicationManager)
    (ca cb : connection) (ta tb : list byte)
    (ma mb : list (string * JSON)) (client_id : JSON) :
  running m = true ->
  unique_keys (client_connections m) ->
  handler ca = AwaitingRegistration -> inbuf ca = [] ->
  handler cb = AwaitingRegistration -> inbuf cb = [] ->
  ta <> [] -> (length ta <= 1024)%nat ->
  tb <> [] -> (length tb <= 1024)%nat ->
  loads ta = Loaded (JObj ma) -> dict_get "id" ma = Some client_id ->
  loads tb = Loaded (JObj mb) -> dict_get "id" mb = Some client_id ->
  hashable client_id = true -> truth client_id = true ->
  let w1 := handler_step loads m (deliver ta ca) in
  let w2 := handler_step loads (fst w1) (deliver tb cb) in
  let w3 := handler_step loads (fst w2) (close_peer (snd w1)) in
  conn_get client_id (client_connections (fst w2)) = Some (client_socket cb) /\
  handler (snd w2) = Serving client_id /\
  handler (snd w3) = Finished /\
  conn_get client_id (client_connections (fst w3)) = None.
Proof.
  intros Hrun Hu Hsa Hba Hsb Hbb Hta Hla Htb Hlb Hpa Hia Hpb Hib Hh Ht w1 w2 w3.
  assert (E1 : w1 = (set_connections
                       (conn_set client_id (client_socket ca) (client_connections m)) m,
                     set_stage (Serving client_id)
                       {| client_socket := client_socket ca; inbuf := [];
                          peer_closed := peer_closed ca; handler := handler ca;
                          socket_closed := socket_closed ca |})).
  { unfold w1, handler_step. cbn [deliver handler]. rewrite Hsa.
    rewrite (recv_deliver ca ta Hba Hta Hla).
    now rewrite (register_accepted loads ta m _ ma client_id Hrun Hpa Hia Hh). }
  assert (E2 : w2 = (set_connections
                       (conn_set client_id (client_socket cb)
                          (client_connections (fst w1))) (fst w1),
                     set_stage (Serving client_id)
                       {| client_socket := client_socket cb; inbuf := [];
                          peer_closed := peer_closed cb; handler := handler cb;
                          socket_closed := socket_closed cb |})).
  { unfold w2, handler_step. cbn [deliver handler]. rewrite Hsb.
    rewrite (recv_deliver cb tb Hbb Htb Hlb).
    rewrite (register_accepted loads tb (fst w1) _ mb client_id); auto.
    rewrite E1. exact Hrun. }
  assert (Hu2 : unique_keys (client_connections (fst w2))).
  { rewrite E2, E1. cbn [fst client_connections set_connections].
    apply unique_keys_set; [exact Hh|].
    apply unique_keys_set; [exact Hh | exact Hu]. }
  split; [rewrite E2; cbn; now apply conn_get_set|].
  split; [now rewrite E2|].
  assert (E3 : w3 = cleanup (Some client_id) (fst w2) (close_peer (snd w1))).
  { unfold w3, handler_step. rewrite E1. cbn [snd close_peer set_stage handler].
    now rewrite recv_eof by reflexivity. }
  destruct (cleanup_effect client_id (fst w2) (close_peer (snd w1)) Hh Hu2)
    as (Hf & _ & _ & _ & _ & _ & Hdel).
  rewrite E3. split; [exact Hf | now apply Hdel].
Qed.

Lemma shared_id_unregistered_witness :
  let m := {| client_connections := []; message_queue := []; running := true |} in
  let w1 := handler_step loads_ascii m (deliver (register_text "L1") (accept 1)) in
  let w2 := handler_step loads_ascii (fst w1) (deliver (register_text "L1") (accept 2)) in
  let w3 := handler_step loads_ascii (fst w2) (close_peer (snd w1)) in
  handler (snd w2) = Serving (JStr "L1") /\
  conn_get (JStr "L1") (client_connections (fst w3)) = None.
Proof.
  intros m w1 w2 w3.
  destruct (shared_id_unregistered loads_ascii m (accept 1) (accept 2)
              (register_text "L1") (register_text "L1")
              [("id", JStr "L1")] [("id", JStr "L1")] (JStr "L1"))
    as (_ & H2 & _ & H4); try reflexivity; try (vm_compute; discriminate);
    try (vm_compute; lia); try exact I.
  split; [exact H2 | exact H4].
Defined.

(** X18.  In the main loop, data that is not JSON is dropped and the
    connection goes on: when every read returns a text that is either JSON
    for an object or not JSON at all, the queue gains exactly the objects,
    in order, each with [sender] set, the connection is still served and
    [client_connections] is unchanged. *)
Theorem malformed_json_skipped
    (loads : list byte -> loads_result) (client_id : JSON)
    (texts : list (list byte)) (m : CommunicationManager) (c : connection) :
  running m = true ->
  handler c = Serving client_id ->
  inbuf c = [] ->
  Forall (fun text =>
            text <> [] /\ (length text <= 1024)%nat /\
            (loads text = JSONDecodeError \/
             exists members, loads text = Loaded (JObj members))) texts ->
  let w := run loads (one_per_read texts) (m, c) in
  message_queue (fst w)
  = message_queue m
    ++ map (fun members => JObj (dict_set "sender" client_id members))
           (objects loads texts) /\
  client_connections (fst w) = client_connections m /\
  handler (snd w) = Serving client_id.
Proof.
  intros Hrun Hst Hbuf Hall.
  assert (H : let w := run loads (one_per_read texts) (m, c) in
              message_queue (fst w)
              = message_queue m
                ++ map (fun members => JObj (dict_set "sender" client_id members))
                       (objects loads texts) /\
              client_connections (fst w) = client_connections m /\
              running (fst w) = true /\
              handler (snd w) = Serving client_id /\ inbuf (snd w) = []).
  { revert m c Hrun Hst Hbuf.
    induction Hall as [|text texts (Hne & Hlen & Hl) _ IH]; intros m c Hrun Hst Hbuf.
    - simpl. rewrite app_nil_r. split_and!; auto.
    - cbv zeta. rewrite run_one_per_read_cons. cbn [fst snd].
      unfold handler_step. cbn [deliver handler]. rewrite Hst.
      rewrite (recv_deliver c text Hbuf Hne Hlen).
      unfold objects. cbn [flat_map]. fold (objects loads texts).
      destruct Hl as [Hl | [members Hl]]; rewrite Hl.
      + rewrite (serve_bad_json loads client_id text m _ Hrun Hl).
        cbn [app]. apply IH; [exact Hrun | reflexivity | reflexivity].
      + rewrite (serve_object loads client_id text m _ members Hrun Hl).
        match goal with
        | |- context [run loads _ (?m1, ?c1)] =>
            destruct (IH m1 c1 Hrun eq_refl eq_refl)
              as (Hq & Hc & Hr & Hs & Hb)
        end.
        rewrite Hq, Hc, Hr, Hs, Hb. cbn [put message_queue client_connections].
        cbn [app map]. rewrite <- app_assoc. split_and!; reflexivity. }
  cbv zeta in *. destruct H as (H1 & H2 & _ & H3 & _). auto.
Qed.

Lemma malformed_json_skipped_witness :
  let m := {| client_connections := []; message_queue := []; running := true |} in
  let w := run loads_ascii [Deliver (register_text "L1"); Step] (m, accept 1) in
  message_queue
    (fst (run loads_ascii
            (one_per_read [status_text "a"; bytes "{oops"; status_text "b"]) w))
  = map (fun members => JObj (dict_set "sender" (JStr "L1") members))
        (objects loads_ascii [status_text "a"; bytes "{oops"; status_text "b"]).
Proof.
  intros m w.
  refine (proj1 (malformed_json_skipped loads_ascii (JStr "L1")
                   [status_text "a"; bytes "{oops"; status_text "b"]
                   (fst w) (snd w) _ _ _ _)); try reflexivity.
  constructor; [|constructor; [|constructor; [|constructor]]].
  - split_and!; [vm_compute; discriminate | vm_compute; lia |].
    right. eexists. vm_compute. reflexivity.
  - split_and!; [vm_compute; discriminate | vm_compute; lia |].
    left. vm_compute. reflexivity.
  - split_and!; [vm_compute; discriminate | vm_compute; lia |].
    right. eexists. vm_compute. reflexivity.
Defined.

(** X19.  In the main loop, data that is JSON but not for an object (a
    list, a string, a number), and data that is not UTF-8, end the
    connection: nothing is queued and the handler returns; the entry of a
    true id is removed from [client_connections]. *)
Theorem non_object_ends_connection
    (loads : list byte -> loads_result) (m : CommunicationManager)
    (c : connection) (client_id : JSON) :
  handler c = Serving client_id ->
  inbuf c <> [] ->
  hashable client_id = true ->
  unique_keys (client_connections m) ->
  (loads (take 1024 (inbuf c)) = UnicodeDecodeError \/
   exists v, loads (take 1024 (inbuf c)) = Loaded v /\
             forall members, v <> JObj members) ->
  let w := handler_step loads m c in
  handler (snd w) = Finished /\ socket_closed (snd w) = true /\
  message_queue (fst w) = message_queue m /\
  (truth client_id = true ->
   conn_get client_id (client_connections (fst w)) = None).
Proof.
  intros Hst Hbuf Hh Hu Hbad w. subst w. unfold handler_step.
  rewrite Hst, (recv_data c Hbuf).
  rewrite (serve_fatal loads client_id _ m _ Hbad).
  match goal with
  | |- context [cleanup _ m ?c1] =>
      destruct (cleanup_effect client_id m c1 Hh Hu)
        as (H1 & H2 & _ & H3 & _ & _ & H5 & _)
  end.
  split_and!; auto. intros Ht. now apply H5.
Qed.

Lemma non_object_ends_connection_witness :
  let m := {| client_connections := []; message_queue := []; running := true |} in
  let w := run loads_ascii [Deliver (register_text "L1"); Step] (m, accept 1) in
  handler (snd (handler_step loads_ascii (fst w) (deliver (bytes "[1, 2]") (snd w))))
  = Finished.
Proof.
  intros m w.
  refine (proj1 (non_object_ends_connection loads_ascii (fst w)
                   (deliver (bytes "[1, 2]") (snd w)) (JStr "L1") _ _ _ _ _));
    try reflexivity.
  - vm_compute. discriminate.
  - vm_compute. auto.
  - right. eexists. split; [vm_compute; reflexivity | discriminate].
Defined.

(** X20.  Whatever happens on a connection, from its acceptance on, the
    handler never touches the running flag and only appends to the queue,
    and all the messages it appends are objects that carry one and the same
    [sender]: the id under which the connection is served. *)
Theorem queue_only_grows_tagged
    (loads : list byte -> loads_result) (es : list event)
    (m : CommunicationManager) (c : connection) :
  handler c = AwaitingRegistration ->
  let w := run loads es (m, c) in
  running (fst w) = running m /\
  exists new client_id,
    message_queue (fst w) = message_queue m ++ new /\
    Forall (tagged client_id) new /\
    (forall id, handler (snd w) = Serving id -> id = client_id).
Proof.
  intros Hst.
  assert (Hinv : forall es m1 c1,
             (exists new,
                message_queue m1 = message_queue m ++ new /\
                match handler c1 with
                | AwaitingRegistration => new = []
                | Serving id => Forall (tagged id) new
                | Finished => exists id, Forall (tagged id) new
                end) ->
             running m1 = running m ->
             let w := run loads es (m1, c1) in
             running (fst w) = running m /\
             exists new,
               message_queue (fst w) = message_queue m ++ new /\
               match handler (snd w) with
               | AwaitingRegistration => new = []
               | Serving id => Forall (tagged id) new
               | Finished => exists id, Forall (tagged id) new
               end).
  { clear. induction es as [|e es IH]; intros m1 c1 Hq Hr; [simpl; auto|].
    cbv zeta. unfold run. cbn [fold_left]. fold (run loads es).
    pose proof (occur_queue loads e m1 c1) as (Hr' & add & Hadd & Hkind).
    destruct (occur loads e (m1, c1)) as [m2 c2] eqn:Ho. cbn [fst snd] in *.
    apply IH; [|congruence].
    destruct Hq as (new & Hnew & Hst1). exists (new ++ add).
    split; [rewrite Hadd, Hnew; now rewrite app_assoc|].
    destruct (handler c1) as [|id|].
    - subst. simpl. destruct (handler c2); [reflexivity | constructor |].
      exists JNull. constructor.
    - destruct Hkind as [Hadd' [-> | ->]].
      + now apply Forall_app.
      + exists id. now apply Forall_app.
    - destruct Hkind as [-> ->]. rewrite app_nil_r. exact Hst1. }
  intros w. destruct (Hinv es m c) as (Hr & new & Hq & Hk).
  - exists []. rewrite app_nil_r, Hst. auto.
  - reflexivity.
  - split; [exact Hr|]. fold w in Hq, Hk.
    destruct (handler (snd w)) as [|id|] eqn:E.
    + subst new. exists [], JNull.
      split_and!; [exact Hq | constructor | discriminate].
    + exists new, id. split_and!; [exact Hq | exact Hk | congruence].
    + destruct Hk as [id Hk]. exists new, id.
      split_and!; [exact Hq | exact Hk | discriminate].
Qed.

Lemma queue_only_grows_tagged_witness :
  let m := {| client_connections := []; message_queue := []; running := true |} in
  running (fst (run loads_ascii
                  [Deliver (register_text "L1"); Step; Deliver (status_text "a");
                   Step; PeerClose; Step] (m, accept 1))) = true.
Proof.
  intros m.
  refine (proj1 (queue_only_grows_tagged loads_ascii
                   [Deliver (register_text "L1"); Step; Deliver (status_text "a");
                    Step; PeerClose; Step] m (accept 1) _)).
  reflexivity.
Defined.

(** X21.  A client that has registered can be reached: once the handler has
    read a registration with a hashable id on a running server,
    [send_message] to that id (or to a key equal to it, as [1] and [1.0]
    are) returns [True] and writes one message to the socket of that
    connection: the encoding of the dict with the type, the target as
    given, the data and the time. *)
Theorem registered_client_reached
    (dumps : JSON -> list byte)
    (loads : list byte -> loads_result) (text : list byte)
    (members : list (string * JSON)) (client_id target_id message_type data : JSON)
    (now : Q) (sv : Server) (c : connection) :
  running (manager sv) = true ->
  handler c = AwaitingRegistration -> inbuf c = [] ->
  text <> [] -> (length text <= 1024)%nat ->
  loads text = Loaded (JObj members) ->
  dict_get "id" members = Some client_id ->
  hashable client_id = true ->
  key_eqb target_id client_id = true ->
  client_socket c ∉ broken sv ->
  let w := handler_step loads (manager sv) (deliver text c) in
  let r := send_message dumps target_id message_type data now
             (set_manager (fst w) sv) in
  handler (snd w) = Serving client_id /\
  fst r = Ok true /\
  manager (snd r) = fst w /\
  written (snd r)
  = written sv
    ++ [(client_socket c,
         dumps (JObj [("type", message_type); ("target", target_id);
                      ("data", data); ("timestamp", JFloat now)]))].
Proof.
  intros Hrun Hst Hbuf Hne Hlen Hl Hid Hh Hk Hok w r.
  assert (E : w = (set_connections
                     (conn_set client_id (client_socket c)
                        (client_connections (manager sv))) (manager sv),
                   set_stage (Serving client_id)
                     {| client_socket := client_socket c; inbuf := [];
                        peer_closed := peer_closed c; handler := handler c;
                        socket_closed := socket_closed c |})).
  { unfold w, handler_step. cbn [deliver handler]. rewrite Hst.
    rewrite (recv_deliver c text Hbuf Hne Hlen).
    now rewrite (register_accepted loads text (manager sv) _ members client_id
                   Hrun Hl Hid Hh). }
  subst r. rewrite E. cbn [fst snd set_stage handler].
  unfold send_message, connected.
  cbn [set_manager manager set_connections running client_connections].
  rewrite Hrun, (key_eqb_hashable _ _ Hk). cbn [negb].
  rewrite (conn_get_congr _ _ _ Hk), (conn_get_set _ _ _ Hh).
  rewrite sendall_ok by exact Hok.
  cbn [fst snd manager written set_manager]. auto.
Qed.

Lemma registered_client_reached_witness :
  let sv := {| manager := {| client_connections := []; message_queue := [];
                             running := true |};
               written := []; broken := []; closed := []; listening := true |} in
  let w := handler_step loads_ascii (manager sv)
             (deliver (bytes "{" ++ quoted "id" ++ bytes ": 1}") (accept 7)) in
  fst (send_message (fun _ => bytes "m") (JFloat 1) (JStr "command") JNull 0
         (set_manager (fst w) sv)) = Ok true.
Proof.
  intros sv w.
  refine (proj1 (proj2 (registered_client_reached (fun _ => bytes "m") loads_ascii
                   (bytes "{" ++ quoted "id" ++ bytes ": 1}") [("id", JInt 1)] (JInt 1) (JFloat 1)
                   (JStr "command") JNull 0 sv (accept 7) _ _ _ _ _ _ _ _ _ _)));
    try reflexivity; try (vm_compute; discriminate); try (vm_compute; lia).
  cbn. apply not_elem_of_nil.
Defined.

(** X22.  A client whose connection has ended can no longer be reached:
    after the handler of a connection with a true id has seen the end of
    the stream, [send_message] to that id returns [False] and writes
    nothing. *)
Theorem disconnected_client_unreachable
    (dumps : JSON -> list byte) (loads : list byte -> loads_result)
    (sv : Server) (c : connection)
    (client_id target_id message_type data : JSON) (now : Q) :
  handler c = Serving client_id ->
  inbuf c = [] -> peer_closed c = true ->
  hashable client_id = true -> truth client_id = true ->
  unique_keys (client_connections (manager sv)) ->
  key_eqb target_id client_id = true ->
  let w := handler_step loads (manager sv) c in
  send_message dumps target_id message_type data now (set_manager (fst w) sv)
  = (Ok false, set_manager (fst w) sv).
Proof.
  intros Hst Hb Hp Hh Ht Hu Hk w. subst w. unfold handler_step.
  rewrite Hst, (recv_eof c Hb Hp).
  destruct (cleanup_effect client_id (manager sv) c Hh Hu)
    as (_ & _ & _ & _ & _ & _ & Hdel & _).
  destruct (Hdel Ht) as [Hnone _].
  unfold send_message, connected. cbn [set_manager manager].
  destruct (running _); [|reflexivity]. cbn [negb].
  now rewrite (key_eqb_hashable _ _ Hk), (conn_get_congr _ _ _ Hk), Hnone.
Qed.

Lemma disconnected_client_unreachable_witness :
  let sv := {| manager := {| client_connections := [(JStr "L1", 4%nat)];
                             message_queue := []; running := true |};
               written := []; broken := []; closed := []; listening := true |} in
  let c := close_peer (set_stage (Serving (JStr "L1")) (accept 4)) in
  fst (send_message (fun _ => bytes "m") (JStr "L1") (JStr "command") JNull 0
         (set_manager (fst (handler_step loads_ascii (manager sv) c)) sv))
  = Ok false.
Proof.
  intros sv c.
  rewrite (disconnected_client_unreachable (fun _ => bytes "m") loads_ascii sv c
             (JStr "L1") (JStr "L1") (JStr "command") JNull 0);
    try reflexivity.
  vm_compute. auto.
Defined.

(** X23.  On a running server [broadcast_message] writes the same encoded
    message, which has no [target], once to every connection whose socket
    accepts it, in the order of [client_connections]; a socket that fails
    is passed over and the ones after it are still served.  Nothing else
    changes. *)
Theorem broadcast_reaches_working_sockets
    (dumps : JSON -> list byte) (message_type data : JSON) (now : Q)
    (sv : Server) :
  running (manager sv) = true ->
  let sv' := broadcast_message dumps message_type data now sv in
  manager sv' = manager sv /\ broken sv' = broken sv /\
  closed sv' = closed sv /\ listening sv' = listening sv /\
  written sv'
  = written sv
    ++ map (fun client =>
              (snd client,
               dumps (JObj [("type", message_type); ("data", data);
                            ("timestamp", JFloat now)])))
           (filter (fun client => snd client ∉ broken sv)
                   (client_connections (manager sv))).
Proof.
  intros Hrun. unfold broadcast_message. rewrite Hrun. cbn [negb].
  apply send_each_effect.
Qed.

Lemma broadcast_reaches_working_sockets_witness :
  let sv := {| manager := {| client_connections :=
                               [(JStr "a", 1%nat); (JStr "b", 2%nat); (JStr "c", 3%nat)];
                             message_queue := []; running := true |};
               written := []; broken := [2%nat]; closed := []; listening := true |} in
  map fst (written (broadcast_message (fun _ => bytes "m") (JStr "config") JNull 0 sv))
  = [1%nat; 3%nat].
Proof.
  intros sv.
  rewrite (proj2 (proj2 (proj2 (proj2
             (broadcast_reaches_working_sockets (fun _ => bytes "m")
                (JStr "config") JNull 0 sv eq_refl))))).
  vm_compute. reflexivity.
Defined.

(** X24.  After [stop] every socket that was in [client_connections] is
    closed and the queue is as it was; [send_message] returns [False] for
    every target, also for one that cannot be hashed, [broadcast_message]
    writes nothing, and a second [stop] changes nothing. *)
Theorem stop_silences
    (dumps : JSON -> list byte) (sv : Server)
    (target_id message_type data : JSON) (now : Q) :
  let sv' := stop sv in
  send_message dumps target_id message_type data now sv' = (Ok false, sv') /\
  broadcast_message dumps message_type data now sv' = sv' /\
  (forall client_id sock,
     (client_id, sock) ∈ client_connections (manager sv) -> sock ∈ closed sv') /\
  message_queue (manager sv') = message_queue (manager sv) /\
  written sv' = written sv /\
  stop sv' = sv'.
Proof.
  cbv zeta. split_and!; try reflexivity.
  - intros client_id sock Hin. cbn [stop closed].
    apply elem_of_app. right.
    exact (list_elem_of_fmap_2 snd _ (client_id, sock) Hin).
  - unfold stop. cbn [manager client_connections closed map message_queue
                        written broken running listening].
    now rewrite app_nil_r.
Qed.

(** X25.  One turn of the queue worker on a queue that is not empty takes
    exactly the head of the queue, whatever the message is, and leaves the
    connections and the running flag alone.  It writes at most one thing:
    the message itself, unchanged, to the socket registered under the
    message's [target], and only for a message of type [command]. *)
Theorem process_one_effect
    (dumps : JSON -> list byte) (sv : Server) (message : JSON)
    (rest : list JSON) :
  message_queue (manager sv) = message :: rest ->
  let sv' := process_one dumps sv in
  message_queue (manager sv') = rest /\
  client_connections (manager sv') = client_connections (manager sv) /\
  running (manager sv') = running (manager sv) /\
  broken sv' = broken sv /\ closed sv' = closed sv /\
  listening sv' = listening sv /\
  (written sv' = written sv \/
   exists members target sock,
     message = JObj members /\
     dict_get "type" members = Some (JStr "command") /\
     dict_get "target" members = Some target /\
     conn_get target (client_connections (manager sv)) = Some sock /\
     (sock ∉ broken sv) /\
     written sv' = written sv ++ [(sock, dumps message)]).
Proof.
  intros Hq. cbv zeta. unfold process_one. rewrite Hq.
  set (sv1 := set_manager _ sv).
  assert (Hsame : message_queue (manager sv1) = rest /\
                  client_connections (manager sv1) = client_connections (manager sv) /\
                  running (manager sv1) = running (manager sv) /\
                  broken sv1 = broken sv /\ closed sv1 = closed sv /\
                  listening sv1 = listening sv /\
                  (written sv1 = written sv \/
                   exists members target sock,
                     message = JObj members /\
                     dict_get "type" members = Some (JStr "command") /\
                     dict_get "target" members = Some target /\
                     conn_get target (client_connections (manager sv)) = Some sock /\
                     (sock ∉ broken sv) /\
                     written sv1 = written sv ++ [(sock, dumps message)]))
    by (subst sv1; cbn; split_and!; auto).
  destruct (contains "type" message) as [[|]|]; try exact Hsame.
  destruct (getitem "type" message) as [type|] eqn:Hg; try exact Hsame.
  destruct (str_eq type "status_update").
  { unfold _handle_status_update. destruct (getitem "sender" message); exact Hsame. }
  destruct (str_eq type "command") eqn:Hc; try exact Hsame.
  apply str_eq_true in Hc. subst type.
  assert (Hw1 : written sv1 = written sv) by reflexivity.
  destruct (handle_command_effect dumps message sv1) as (H1 & H2 & H3 & H4 & H5).
  destruct Hsame as (S1 & S2 & S3 & S4 & S5 & S6 & _).
  rewrite H1, H2, H3, H4. split_and!; try assumption.
  destruct H5 as [H5 | (members & target & sock & Hm & Ht & Hs & Hok & Hw)].
  - left. now rewrite H5.
  - right. exists members, target, sock. rewrite Hm in Hg.
    unfold getitem in Hg. destruct (dict_get "type" members) eqn:Hd; [|discriminate].
    injection Hg as Hg. rewrite Hg, <- S2, <- S4, <- Hw1. auto 10.
Qed.

Lemma process_one_effect_witness :
  let sv := {| manager := {| client_connections := [(JStr "L2", 2%nat)];
                             message_queue := [JInt 5; JNull]; running := true |};
               written := []; broken := []; closed := []; listening := true |} in
  message_queue (manager (process_one (fun _ => bytes "m") sv)) = [JNull].
Proof.
  intros sv.
  exact (proj1 (process_one_effect (fun _ => bytes "m") sv (JInt 5) [JNull] eq_refl)).
Defined.

(** X26.  A command travels from one client to another: when a served
    connection sends an object of type [command] whose [target] is a
    registered id, and the queue was empty, the next turn of the queue
    worker writes to the target's socket the encoding of that object with
    [sender] set to the id of the sending connection, and the queue is
    empty again. *)
Theorem command_forwarded
    (dumps : JSON -> list byte) (loads : list byte -> loads_result)
    (sv : Server) (c : connection) (client_id target : JSON)
    (text : list byte) (members : list (string * JSON)) (sock : nat) :
  running (manager sv) = true ->
  message_queue (manager sv) = [] ->
  handler c = Serving client_id -> inbuf c = [] ->
  text <> [] -> (length text <= 1024)%nat ->
  loads text = Loaded (JObj members) ->
  dict_get "type" members = Some (JStr "command") ->
  dict_get "target" members = Some target ->
  conn_get target (client_connections (manager sv)) = Some sock ->
  sock ∉ broken sv ->
  let w := handler_step loads (manager sv) (deliver text c) in
  let sv' := process_one dumps (set_manager (fst w) sv) in
  written sv'
  = written sv ++ [(sock, dumps (JObj (dict_set "sender" client_id members)))] /\
  message_queue (manager sv') = [] /\
  client_connections (manager sv') = client_connections (manager sv).
Proof.
  intros Hrun Hq Hst Hbuf Hne Hlen Hl Hty Htg Hs Hok w sv'.
  assert (E : fst w = put (JObj (dict_set "sender" client_id members)) (manager sv)).
  { unfold w, handler_step. cbn [deliver handler]. rewrite Hst.
    rewrite (recv_deliver c text Hbuf Hne Hlen).
    now rewrite (serve_object loads client_id text (manager sv) _ members Hrun Hl). }
  subst sv'. rewrite E. unfold process_one.
  cbn [set_manager manager put message_queue client_connections running].
  rewrite Hq. cbn [app contains getitem].
  rewrite !dict_get_set_other by discriminate. rewrite Hty.
  cbn [str_eq String.eqb Ascii.eqb Bool.eqb]. 
  unfold _handle_command. cbn [contains getitem].
  rewrite !dict_get_set_other by discriminate. rewrite Htg.
  unfold connected. rewrite (conn_get_hashable _ _ _ Hs).
  cbn [manager client_connections set_manager]. rewrite Hs.
  rewrite sendall_ok by exact Hok. cbn. auto.
Qed.

Lemma command_forwarded_witness :
  let sv := {| manager := {| client_connections :=
                               [(JStr "L1", 1%nat); (JStr "L2", 2%nat)];
                             message_queue := []; running := true |};
               written := []; broken := []; closed := []; listening := true |} in
  let c := set_stage (Serving (JStr "L1")) (accept 1) in
  let text := bytes "{" ++ quoted "type" ++ bytes ": " ++ quoted "command"
              ++ bytes ", " ++ quoted "target" ++ bytes ": " ++ quoted "L2"
              ++ bytes "}" in
  map fst (written (process_one (fun _ => bytes "m")
                      (set_manager
                         (fst (handler_step loads_ascii (manager sv) (deliver text c)))
                         sv)))
  = [2%nat].
Proof.
  intros sv c text.
  rewrite (proj1 (command_forwarded (fun _ => bytes "m") loads_ascii sv c
                    (JStr "L1") (JStr "L2") text
                    [("type", JStr "command"); ("target", JStr "L2")] 2%nat
                    eq_refl eq_refl eq_refl eq_refl
                    ltac:(vm_compute; discriminate) ltac:(vm_compute; lia)
                    ltac:(vm_compute; reflexivity) eq_refl eq_refl eq_refl
                    ltac:(apply not_elem_of_nil))).
  reflexivity.
Defined.

End CommExtras.

(** ** Configuration *)

Module ConfigFacts.
Import Comm Config CommMoreFacts.

Lemma dict_get_None (k : string) (members : list (string * JSON)) :
  k ∉ keys members -> dict_get k members = None.
Proof.
  induction members as [|[k' v'] rest IH]; simpl; [reflexivity|].
  intros Hn. apply not_elem_of_cons in Hn as [Hne Hn].
  apply String.eqb_neq in Hne. rewrite Hne. now apply IH.
Qed.

Lemma deep_merge_loop (dict1 dict2 : list (string * JSON)) :
  _deep_merge dict1 dict2 = loop dict2 dict1.
Proof. reflexivity. Qed.

Lemma step_get (key : string) (value : JSON) (result : list (string * JSON)) :
  dict_get key
    match dict_get key result, value with
    | Some (JObj sub), JObj _ => dict_set key (JObj (merge_into value sub)) result
    | _, _ => dict_set key value result
    end
  = merged (dict_get key result) (Some value).
Proof.
  unfold merged.
  destruct (dict_get key result) as [[]|]; try apply dict_get_set;
    destruct value; apply dict_get_set.
Qed.

Lemma step_get_ne (key k : string) (value : JSON) (result : list (string * JSON)) :
  k <> key ->
  dict_get k
    match dict_get key result, value with
    | Some (JObj sub), JObj _ => dict_set key (JObj (merge_into value sub)) result
    | _, _ => dict_set key value result
    end
  = dict_get k result.
Proof.
  intros Hne.
  destruct (dict_get key result) as [[]|]; try (now apply dict_get_set_other);
    destruct value; now apply dict_get_set_other.
Qed.

Lemma loop_get (items : list (string * JSON)) (result : list (string * JSON))
    (k : string) :
  NoDup (keys items) ->
  dict_get k (loop items result) = merged (dict_get k result) (dict_get k items).
Proof.
  revert result. induction items as [|[key value] rest IH]; intros result Hnd.
  - reflexivity.
  - cbn [keys map fst] in Hnd. fold (keys rest) in Hnd.
    apply NoDup_cons in Hnd as [Hnot Hnd]. cbn [loop]. rewrite (IH _ Hnd).
    cbn [dict_get]. destruct (String.eqb_spec k key) as [-> | Hne].
    + rewrite (dict_get_None _ _ Hnot). cbn [merged]. apply step_get.
    + now rewrite step_get_ne.
Qed.

End ConfigFacts.

Module ConfigExtras.
Import Comm Config ConfigFacts.

(** X27.  What [_deep_merge] leaves under each key: a key that [dict2]
    does not have keeps the value of [dict1]; a key that both hold as dicts
    gets the merge of the two dicts; under any other key of [dict2] the
    value of [dict2] replaces that of [dict1], so a value that is not a dict
    replaces a whole dict.  No key of [dict1] is lost. *)
Theorem deep_merge_lookup (dict1 dict2 : list (string * JSON)) (k : string) :
  NoDup (keys dict2) ->
  dict_get k (_deep_merge dict1 dict2)
  = merged (dict_get k dict1) (dict_get k dict2) /\
  (forall v, dict_get k dict1 = Some v ->
             exists v', dict_get k (_deep_merge dict1 dict2) = Some v').
Proof.
  intros Hnd. rewrite deep_merge_loop, (loop_get _ _ _ Hnd). split; [reflexivity|].
  intros v ->. unfold merged.
  destruct (dict_get k dict2) as [value|]; [|eauto].
  destruct v; try eauto. destruct value; eauto.
Qed.

Lemma deep_merge_lookup_witness :
  let defaults :=
    [("traffic", JObj [("congestion_threshold", JInt 15); ("window_size", JInt 10)]);
     ("communication", JObj [("host", JStr "127.0.0.1"); ("port", JInt 5555)])] in
  let user := [("traffic", JObj [("window_size", JInt 20)])] in
  dict_get "traffic" (_deep_merge defaults user)
  = Some (JObj [("congestion_threshold", JInt 15); ("window_size", JInt 20)]).
Proof.
  intros defaults user.
  rewrite (proj1 (deep_merge_lookup defaults user "traffic"
                    ltac:(repeat constructor; set_solver))).
  reflexivity.
Defined.

End ConfigExtras.

(** ** Vehicle counting *)

Module DetectorFacts.
Import Detector.

Lemma count_fold (roi : box) (boxes : list box) (n : Z) :
  fold_left (fun roi_vehicles b =>
               if in_roi roi b then (roi_vehicles + 1)%Z else roi_vehicles)
            boxes n
  = (n + Z.of_nat (length (List.filter (in_roi roi) boxes)))%Z.
Proof.
  revert n. induction boxes as [|b boxes IH]; intros n; cbn [fold_left List.filter].
  - cbn. lia.
  - rewrite IH. destruct (in_roi roi b); cbn [length]; lia.
Qed.

Lemma filter_length (roi : box) (boxes : list box) :
  (length (List.filter (in_roi roi) boxes) <= length boxes)%nat.
Proof.
  induction boxes as [|b boxes IH]; cbn [List.filter length]; [lia|].
  destruct (in_roi roi b); cbn [length]; lia.
Qed.

Lemma half_between (a b lo hi : Z) :
  (lo <= a <= b)%Z -> (b <= hi)%Z -> (lo <= (a + b) / 2 <= hi)%Z.
Proof.
  intros H1 H2.
  pose proof (Z.div_mod (a + b) 2 ltac:(lia)).
  pose proof (Z.mod_pos_bound (a + b) 2 ltac:(lia)). lia.
Qed.

Lemma in_frame_in_roi (height width : Z) (b : box) :
  in_frame height width b -> in_roi (0, 0, width, height)%Z b = true.
Proof.
  destruct b as [[[x1 y1] x2] y2]. unfold in_frame, in_roi.
  intros (Hx1 & Hx2 & Hy1 & Hy2).
  pose proof (half_between x1 x2 0 width Hx1 Hx2).
  pose proof (half_between y1 y2 0 height Hy1 Hy2).
  rewrite !andb_true_iff, !Z.leb_le. lia.
Qed.

Lemma inverted_roi (roi b : box) :
  (let '(r0, r1, r2, r3) := roi in (r2 < r0)%Z \/ (r3 < r1)%Z) ->
  in_roi roi b = false.
Proof.
  destruct roi as [[[r0 r1] r2] r3], b as [[[x1 y1] x2] y2]. unfold in_roi.
  intros H. apply not_true_is_false. rewrite !andb_true_iff, !Z.leb_le. lia.
Qed.

End DetectorFacts.

Module DetectorExtras.
Import Detector DetectorFacts.

(** X28.  The count of [count_vehicles] lies between 0 and the number of
    detections.  Without a region every detection whose box lies in the
    frame is counted; with a region whose right border is left of its left
    border, or whose lower border is above its upper one, none is. *)
Theorem count_vehicles_bounds (height width : Z) (roi : option box)
    (boxes : list box) :
  (0 <= count_vehicles height width roi boxes <= Z.of_nat (length boxes))%Z /\
  (Forall (in_frame height width) boxes ->
   count_vehicles height width None boxes = Z.of_nat (length boxes)) /\
  (forall r0 r1 r2 r3,
     roi = Some (r0, r1, r2, r3) -> (r2 < r0)%Z \/ (r3 < r1)%Z ->
     count_vehicles height width roi boxes = 0%Z).
Proof.
  assert (Hc : forall r,
             count_vehicles height width r boxes
             = Z.of_nat (length (List.filter
                                   (in_roi match r with
                                           | None => (0, 0, width, height)%Z
                                           | Some roi => roi
                                           end) boxes))).
  { intros r. unfold count_vehicles. cbv zeta.
    rewrite (count_fold match r with
                        | None => (0, 0, width, height)%Z
                        | Some roi => roi
                        end boxes 0).
    apply Z.add_0_l. }
  split; [|split].
  - rewrite Hc.
    pose proof (filter_length
                  match roi with
                  | None => (0, 0, width, height)%Z
                  | Some roi => roi
                  end boxes).
    lia.
  - intros Hall. rewrite Hc. f_equal. clear Hc.
    induction Hall as [|b boxes Hb _ IH]; [reflexivity|].
    cbn [List.filter]. rewrite (in_frame_in_roi _ _ _ Hb). cbn [length].
    now rewrite IH.
  - intros r0 r1 r2 r3 -> Hinv. rewrite Hc. clear Hc.
    induction boxes as [|b boxes IH]; [reflexivity|].
    cbn [List.filter]. rewrite (inverted_roi (r0, r1, r2, r3) b Hinv). exact IH.
Qed.

Lemma count_vehicles_bounds_witness :
  count_vehicles 640 640 None [(10, 10, 50, 50)%Z; (600, 600, 640, 640)%Z] = 2%Z /\
  count_vehicles 640 640 (Some (100, 0, 50, 640)%Z)
    [(10, 10, 50, 50)%Z; (600, 600, 640, 640)%Z] = 0%Z.
Proof.
  split.
  - apply (proj1 (proj2 (count_vehicles_bounds 640 640 None
                           [(10, 10, 50, 50)%Z; (600, 600, 640, 640)%Z]))).
    repeat constructor; cbn; lia.
  - apply (proj2 (proj2 (count_vehicles_bounds 640 640 (Some (100, 0, 50, 640)%Z)
                           [(10, 10, 50, 50)%Z; (600, 600, 640, 640)%Z]))
             100%Z 0%Z 50%Z 640%Z eq_refl).
    left. lia.
Defined.

End DetectorExtras.
